(** * Verification of the GM database ingestion core of gmpe-smtk
    (smtk/gm_database.py): identity hashing, the table writer, the
    ingestion driver and its unit check, the condition compiler, date
    normalisation and the interpolation of spectral accelerations.

    Python floats are IEEE-754 binary64 numbers, modelled by Rocq's
    primitive floats; Python ints are [Z]; text is [string]. *)

From Stdlib Require Import String Ascii.
From Stdlib Require Import ZArith List Bool Lia QArith Sorted Permutation.
From Stdlib Require Import PrimFloat FloatOps SpecFloat FloatAxioms.
Import ListNotations.
Open Scope Z_scope.
Set Warnings "-inexact-float".

(** ** Python float helpers *)
Module Py.

Open Scope float_scope.

(** [math.isnan] / [np.isnan] *)
Definition isnan (x : float) : bool := PrimFloat.is_nan x.

(** Builtin [max(a, b)]: [b] replaces [a] only when [b > a]. *)
Definition pmax (a b : float) : float := if PrimFloat.ltb a b then b else a.
(** Builtin [min(a, b)]: [b] replaces [a] only when [b < a]. *)
Definition pmin (a b : float) : float := if PrimFloat.ltb b a then b else a.

Close Scope float_scope.

(** Half-to-even rounding of [m * 2^e] (positive [m]). *)
Definition round_half_even_pos (m : positive) (e : Z) : Z :=
  if 0 <=? e then Z.pos m * 2 ^ e
  else
    let d := 2 ^ (- e) in
    let q := Z.pos m / d in
    let r := Z.pos m mod d in
    if 2 * r <? d then q
    else if d <? 2 * r then q + 1
    else if Z.even q then q else q + 1.

(** [round(x)] on a Python float: an [int], rounding halves to even.
    [None] stands for the exception raised on nan ([ValueError]) and on
    infinities ([OverflowError]). *)
Definition round (x : float) : option Z :=
  match Prim2SF x with
  | S754_zero _ => Some 0
  | S754_infinity _ => None
  | S754_nan => None
  | S754_finite s m e =>
      let z := round_half_even_pos m e in
      Some (if s then - z else z)
  end.

(** The exact rational value of a finite float. *)
Definition to_Q (x : float) : option Q :=
  match Prim2SF x with
  | S754_zero _ => Some 0%Q
  | S754_infinity _ => None
  | S754_nan => None
  | S754_finite s m e =>
      let v := if (0 <=? e)%Z then inject_Z (Z.pos m * 2 ^ e)
               else Qmake (Z.pos m) (Z.to_pos (2 ^ (- e))) in
      Some (if s then Qopp v else v)
  end.

(** [str(i)] for a Python int. *)
Fixpoint digits_rev (fuel : nat) (n : Z) : list ascii :=
  match fuel with
  | O => []
  | S f =>
      let d := ascii_of_nat (48 + Z.to_nat (n mod 10)) in
      if n <? 10 then [d] else d :: digits_rev f (n / 10)
  end.

Definition str_int (z : Z) : string :=
  let ds := string_of_list_ascii (rev (digits_rev (S (Z.to_nat (Z.log2 (Z.abs z)))) (Z.abs z))) in
  if z <? 0 then String "-" ds else ds.

End Py.

(** ** SHA-1 ([hashlib.sha1]) over byte lists *)
Module Sha1.

Definition mask32 (x : Z) : Z := Z.land x (2 ^ 32 - 1).
Definition rotl (n x : Z) : Z :=
  mask32 (Z.lor (Z.shiftl x n) (Z.shiftr x (32 - n))).

(** Big-endian 32-bit word from four bytes, and back. *)
Definition be_word (b0 b1 b2 b3 : Z) : Z :=
  Z.lor (Z.shiftl b0 24) (Z.lor (Z.shiftl b1 16) (Z.lor (Z.shiftl b2 8) b3)).
Definition word_bytes (w : Z) : list Z :=
  [Z.land (Z.shiftr w 24) 255; Z.land (Z.shiftr w 16) 255;
   Z.land (Z.shiftr w 8) 255; Z.land w 255].

Fixpoint words_of (fuel : nat) (bs : list Z) : list Z :=
  match fuel, bs with
  | S f, b0 :: b1 :: b2 :: b3 :: rest => be_word b0 b1 b2 b3 :: words_of f rest
  | _, _ => []
  end.

(** Message padding: 0x80, zeros, then the 64-bit bit length. *)
Definition pad (msg : list Z) : list Z :=
  let l := Z.of_nat (length msg) in
  let k := (55 - l) mod 64 in
  app msg (app [128] (app (repeat 0 (Z.to_nat k))
      (flat_map word_bytes [Z.shiftr (8 * l) 32; mask32 (8 * l)]))).

(** Message schedule: 80 words from the 16 words of a block. *)
Fixpoint schedule (fuel : nat) (w : list Z) : list Z :=
  match fuel with
  | O => w
  | S f =>
      let t := length w in
      let wt := rotl 1 (Z.lxor (nth (t - 3) w 0)
                         (Z.lxor (nth (t - 8) w 0)
                          (Z.lxor (nth (t - 14) w 0) (nth (t - 16) w 0)))) in
      schedule f (app w [wt])
  end.

Definition f_k (t : nat) (b c d : Z) : Z * Z :=
  if (t <? 20)%nat then (Z.lor (Z.land b c) (Z.land (Z.lxor b (2 ^ 32 - 1)) d), 1518500249)
  else if (t <? 40)%nat then (Z.lxor b (Z.lxor c d), 1859775393)
  else if (t <? 60)%nat then
    (Z.lor (Z.land b c) (Z.lor (Z.land b d) (Z.land c d)), 2400959708)
  else (Z.lxor b (Z.lxor c d), 3395469782).

Record state := { ha : Z; hb : Z; hc : Z; hd : Z; he : Z }.

Fixpoint rounds (t : nat) (ws : list Z) (s : state) : state :=
  match ws with
  | [] => s
  | w :: rest =>
      let (f, k) := f_k t (hb s) (hc s) (hd s) in
      let temp := mask32 (rotl 5 (ha s) + f + he s + k + w) in
      rounds (S t) rest
        {| ha := temp; hb := ha s; hc := rotl 30 (hb s); hd := hc s; he := hd s |}
  end.

Definition compress (h : state) (block : list Z) : state :=
  let w := schedule 64 (words_of 16 block) in
  let s := rounds 0 w h in
  {| ha := mask32 (ha h + ha s); hb := mask32 (hb h + hb s);
     hc := mask32 (hc h + hc s); hd := mask32 (hd h + hd s);
     he := mask32 (he h + he s) |}.

Fixpoint process (fuel : nat) (h : state) (bs : list Z) : state :=
  match fuel with
  | O => h
  | S f =>
      match bs with
      | [] => h
      | _ => process f (compress h (firstn 64 bs)) (skipn 64 bs)
      end
  end.

Definition h0 : state :=
  {| ha := 1732584193; hb := 4023233417; hc := 2562383102;
     hd := 271733878; he := 3285377520 |}.

(** [hashlib.sha1(msg).digest()] *)
Definition digest (msg : list Z) : list Z :=
  let p := pad msg in
  let h := process (length p) h0 p in
  flat_map word_bytes [ha h; hb h; hc h; hd h; he h].

End Sha1.

Definition bytes_of_string (s : string) : list Z :=
  map (fun c => Z.of_nat (nat_of_ascii c)) (list_ascii_of_string s).

(** ** Identity hashing: [GMDatabaseParser._tobytestr] and [_hash] *)
Module Hash.

(** The values hashed by [get_ids]: bytes (the stored [event_time]), str
    (the table name), int (a quantized coordinate) and the nan float that
    [_toint] passes through. A [str] is kept as the bytes of its UTF-8
    encoding. *)
Inductive hval :=
| HBytes (b : string)
| HStr (s : string)
| HInt (z : Z)
| HNan.

(** [_tobytestr]: bytes are kept, anything else is [str(value).encode('utf8')];
    [str(float('nan'))] is ["nan"]. *)
Definition _tobytestr (v : hval) : list Z :=
  match v with
  | HBytes b => bytes_of_string b
  | HStr s => bytes_of_string s
  | HInt z => bytes_of_string (Py.str_int z)
  | HNan => bytes_of_string "nan"
  end.

(** [b'/'.join(chunks)] *)
Fixpoint join_slash (chunks : list (list Z)) : list Z :=
  match chunks with
  | [] => []
  | [c] => c
  | c :: rest => c ++ 47 :: join_slash rest
  end.

(** [_hash( *values)]: the SHA-1 digest of the slash-joined byte strings. *)
Definition _hash (values : list hval) : list Z :=
  Sha1.digest (join_slash (map _tobytestr values)).

End Hash.

(** ** Record identifiers: [GMDatabaseParser._toint] and [get_ids] *)
Module Ids.
Import Hash.

(** The cells of a table row read by [get_ids]. *)
Record idrow := {
  pga : float;
  event_longitude : float;
  event_latitude : float;
  hypocenter_depth : float;
  event_time : string;  (* bytes of the 19-character DateTime column *)
  station_longitude : float;
  station_latitude : float
}.

(** [10**decimals] as the float it is converted to ([10.0 ** d] is exact
    for the decimals used here). *)
Fixpoint pow10f (n : nat) : float :=
  match n with
  | O => 1%float
  | S k => (10 * pow10f k)%float
  end.

(** [_toint(value, decimals)]:
    [value if np.isnan(value) else int(round((10**decimals)*value))].
    [None] is the exception [int(round(.))] raises on an infinity. *)
Definition _toint (value : float) (decimals : nat) : option hval :=
  if Py.isnan value then Some HNan
  else option_map HInt (Py.round (pow10f decimals * value)%float).

(** Python slice [l[a:b]]. *)
Definition slice {A} (l : list A) (a b : nat) : list A := firstn (b - a) (skipn a l).

(** [get_ids(tablerow, dbname)]: the tuple [ids] is built left to right,
    then [(_hash( *ids[2:6]), _hash( *ids[6:]), _hash( *ids))] is returned
    as (event_id, station_id, record_id). *)
Definition get_ids (tr : idrow) (dbname : string) : option (list Z * list Z * list Z) :=
  match _toint (pga tr) 0 with None => None | Some q_pga =>
  match _toint (event_longitude tr) 5 with None => None | Some q_lon =>
  match _toint (event_latitude tr) 5 with None => None | Some q_lat =>
  match _toint (hypocenter_depth tr) 3 with None => None | Some q_dep =>
  match _toint (station_longitude tr) 5 with None => None | Some q_slon =>
  match _toint (station_latitude tr) 5 with None => None | Some q_slat =>
    let ids := [HStr dbname; q_pga; q_lon; q_lat; q_dep; HBytes (event_time tr);
                q_slon; q_slat] in
    Some (_hash (slice ids 2 6), _hash (skipn 6 ids), _hash ids)
  end end end end end end.

(** The spec's composition of the three digests, written from its words:
    quantize [v] at [d] decimals is the integer [round(v * 10^d)], nan
    passed through. *)
Definition spec_quantize (v : float) (d : nat) : option hval :=
  if Py.isnan v then Some HNan
  else match Py.round (v * pow10f d)%float with
       | Some z => Some (HInt z)
       | None => None
       end.

Definition spec_ids (tr : idrow) (source_name : string)
  : option (list Z * list Z * list Z) :=
  match spec_quantize (event_longitude tr) 5, spec_quantize (event_latitude tr) 5,
        spec_quantize (hypocenter_depth tr) 3, spec_quantize (station_longitude tr) 5,
        spec_quantize (station_latitude tr) 5, spec_quantize (pga tr) 0 with
  | Some lon, Some lat, Some dep, Some slon, Some slat, Some p =>
      let t := HBytes (event_time tr) in
      Some (_hash [lon; lat; dep; t],
            _hash [slon; slat],
            _hash [HStr source_name; p; lon; lat; dep; t; slon; slat])
  | _, _, _, _, _, _ => None
  end.

End Ids.

(** ** Python exceptions that escape a function *)
Inductive exc :=
| ValueError (msg : string)
| TypeError
| KeyError (key : string)
| IndexError
| OverflowError
| ZeroDivisionError.

(** ** The table writer: [GMDatabaseTable] and [GMDatabaseParser._writerow] *)
Module Writer.

Local Open Scope string_scope.
Local Open Scope list_scope.

(** The value of a table cell once assigned. *)
Inductive cell :=
| CFloat (x : float)
| CVec (xs : list float)
| CBytes (s : string)
| CInt (z : Z)
| CBool (b : bool).

(** Values of the csv row dict given to [_writerow]: csv strings, the float
    computed for [pga], the array computed for [sa]. *)
Inductive pyval :=
| PStr (s : string)
| PFloat (x : float)
| PArr (xs : list float).

(** A column object: its default ([dflt], the missing sentinel) and the
    bounds [min_value], [max_value] set by [_col]. *)
Record colobj := { dflt : cell; min_value : option float; max_value : option float }.

Definition fcol := {| dflt := CFloat nan; min_value := None; max_value := None |}.
Definition fcol_b (lo hi : float) :=
  {| dflt := CFloat nan; min_value := Some lo; max_value := Some hi |}.
Definition scol := {| dflt := CBytes ""; min_value := None; max_value := None |}.
Definition bcol_true := {| dflt := CBool true; min_value := None; max_value := None |}.
Definition i8col := {| dflt := CInt (-128); min_value := None; max_value := None |}.
Definition sa_col := {| dflt := CVec (repeat nan 111); min_value := None; max_value := None |}.

(** [GMDatabaseTable]: StringCol defaults to b'', Float*Col to nan, Int8Col
    to the int8 minimum, the two BoolCol declare [dflt=True]. *)
Definition gm_columns : list (string * colobj) :=
  [("record_id", scol); ("event_id", scol); ("event_name", scol);
   ("event_country", scol); ("event_time", scol);
   ("event_latitude", fcol_b (-90) 90); ("event_longitude", fcol_b (-180) 180);
   ("hypocenter_depth", fcol); ("magnitude", fcol); ("magnitude_type", scol);
   ("magnitude_uncertainty", fcol); ("tectonic_environment", scol);
   ("strike_1", fcol); ("strike_2", fcol); ("dip_1", fcol); ("dip_2", fcol);
   ("rake_1", fcol); ("rake_2", fcol); ("style_of_faulting", fcol);
   ("depth_top_of_rupture", fcol); ("rupture_length", fcol); ("rupture_width", fcol);
   ("station_id", scol); ("station_name", scol);
   ("station_latitude", fcol_b (-90) 90); ("station_longitude", fcol_b (-180) 180);
   ("station_elevation", fcol); ("vs30", fcol); ("vs30_measured", bcol_true);
   ("vs30_sigma", fcol); ("depth_to_basement", fcol); ("z1", fcol); ("z2pt5", fcol);
   ("repi", fcol); ("rhypo", fcol); ("rjb", fcol); ("rrup", fcol); ("rx", fcol);
   ("ry0", fcol); ("azimuth", fcol); ("digital_recording", bcol_true);
   ("type_of_filter", scol); ("npass", i8col); ("nroll", fcol);
   ("hp_h1", fcol); ("hp_h2", fcol); ("lp_h1", fcol); ("lp_h2", fcol); ("factor", fcol);
   ("lowest_usable_frequency_h1", fcol); ("lowest_usable_frequency_h2", fcol);
   ("lowest_usable_frequency_avg", fcol); ("highest_usable_frequency_h1", fcol);
   ("highest_usable_frequency_h2", fcol); ("highest_usable_frequency_avg", fcol);
   ("pga", fcol); ("pgv", fcol); ("pgd", fcol); ("duration_5_75", fcol);
   ("duration_5_95", fcol); ("arias_intensity", fcol); ("cav", fcol); ("sa", sa_col)].

(** A table row: column name -> cell, starting at the defaults. *)
Definition tablerow := list (string * cell).

Fixpoint lookup {A} (k : string) (l : list (string * A)) : option A :=
  match l with
  | [] => None
  | (k', v) :: rest => if String.eqb k' k then Some v else lookup k rest
  end.

(** [tablerow[col] = v] *)
Definition set (tr : tablerow) (col : string) (v : cell) : tablerow :=
  map (fun kv => if String.eqb (fst kv) col then (fst kv, v) else kv) tr.

Definition defaults (cols : list (string * colobj)) : tablerow :=
  map (fun kc => (fst kc, dflt (snd kc))) cols.

(** The floats of a numeric cell, as [np.asarray(tablerow[col])] sees them. *)
Definition cell_floats (c : cell) : option (list float) :=
  match c with
  | CFloat x => Some [x]
  | CVec xs => Some xs
  | _ => None
  end.

(** [(np.asarray(tablerow[col]) < bound).any()] and [> bound]; [None] is
    the [TypeError] of a comparison on a non-numeric cell (no such column
    declares bounds). *)
Definition any_lt (c : cell) (b : float) : option bool :=
  option_map (existsb (fun e => PrimFloat.ltb e b)) (cell_floats c).
Definition any_gt (c : cell) (b : float) : option bool :=
  option_map (existsb (fun e => PrimFloat.ltb b e)) (cell_floats c).

Record wstate := { w_row : tablerow; w_missing : list string; w_oob : list string }.

Section WriteRow.

(** [tablerow[col] = csvrow[col]]: the cast pytables performs; [None] is
    the [ValueError] or [TypeError] it raises on a value it cannot cast. *)
Variable cast : colobj -> pyval -> option cell.

(** One iteration of the loop over [tablerow.table.coldescrs.items()]. *)
Definition write_col (csvrow : list (string * pyval)) (st : wstate)
    (cc : string * colobj) : wstate :=
  let (col, colobj) := cc in
  let missing := fun tr => {| w_row := tr; w_missing := w_missing st ++ [col];
                              w_oob := w_oob st |} in
  let outofbound := fun tr => {| w_row := set tr col (dflt colobj);
                                 w_missing := w_missing st; w_oob := w_oob st ++ [col] |} in
  match lookup col csvrow with
  | None => missing (w_row st)
  | Some v =>
      match cast colobj v with
      | None => missing (w_row st)
      | Some x =>
          let tr := set (w_row st) col x in
          let max_check :=
            match max_value colobj with
            | None => {| w_row := tr; w_missing := w_missing st; w_oob := w_oob st |}
            | Some b =>
                match any_gt x b with
                | None => missing tr
                | Some true => outofbound tr
                | Some false => {| w_row := tr; w_missing := w_missing st; w_oob := w_oob st |}
                end
            end in
          match min_value colobj with
          | None => max_check
          | Some b =>
              match any_lt x b with
              | None => missing tr
              | Some true => outofbound tr
              | Some false => max_check
              end
          end
      end
  end.

Definition cell_float (c : option cell) : float :=
  match c with Some (CFloat x) => x | _ => nan end.
Definition cell_bytes (c : option cell) : string :=
  match c with Some (CBytes s) => s | _ => "" end.

(** The cells [get_ids] reads from the row. *)
Definition idrow_of (tr : tablerow) : Ids.idrow :=
  {| Ids.pga := cell_float (lookup "pga" tr);
     Ids.event_longitude := cell_float (lookup "event_longitude" tr);
     Ids.event_latitude := cell_float (lookup "event_latitude" tr);
     Ids.hypocenter_depth := cell_float (lookup "hypocenter_depth" tr);
     Ids.event_time := cell_bytes (lookup "event_time" tr);
     Ids.station_longitude := cell_float (lookup "station_longitude" tr);
     Ids.station_latitude := cell_float (lookup "station_latitude" tr) |}.

Definition string_of_bytes (bs : list Z) : string :=
  string_of_list_ascii (map (fun b => ascii_of_nat (Z.to_nat b)) bs).

(** [_writerow(csvrow, tablerow, dbname)]: the loop over the columns, then
    the three ids overwrite their columns. The exception of [get_ids]
    propagates. *)
Definition _writerow (cols : list (string * colobj)) (csvrow : list (string * pyval))
    (dbname : string) : exc + (tablerow * list string * list string) :=
  let st := fold_left (write_col csvrow)
              cols {| w_row := defaults cols; w_missing := []; w_oob := [] |} in
  match Ids.get_ids (idrow_of (w_row st)) dbname with
  | None => inl OverflowError
  | Some (evid, staid, recid) =>
      let tr := set (set (set (w_row st) "event_id" (CBytes (string_of_bytes evid)))
                       "station_id" (CBytes (string_of_bytes staid)))
                  "record_id" (CBytes (string_of_bytes recid)) in
      inr (tr, w_missing st, w_oob st)
  end.

End WriteRow.

End Writer.

(** ** Sample inputs *)

(** Two rows of the same event recorded at two stations. *)
Definition row_a : Ids.idrow :=
  {| Ids.pga := 250.5; Ids.event_longitude := 13.4; Ids.event_latitude := 42.35;
     Ids.hypocenter_depth := 8.3; Ids.event_time := "2009-04-06T01:32:39";
     Ids.station_longitude := 13.39; Ids.station_latitude := 42.37 |}.
Definition row_b : Ids.idrow :=
  {| Ids.pga := 12.0; Ids.event_longitude := 13.4; Ids.event_latitude := 42.35;
     Ids.hypocenter_depth := 8.3; Ids.event_time := "2009-04-06T01:32:39";
     Ids.station_longitude := nan; Ids.station_latitude := 41.8 |}.

(** A cast that accepts floats only, and a csv row with the event latitude
    at its lower bound. *)
Definition float_cast (co : Writer.colobj) (v : Writer.pyval) : option Writer.cell :=
  match v with Writer.PFloat x => Some (Writer.CFloat x) | _ => None end.
Definition lat_row : list (string * Writer.pyval) :=
  [("event_latitude"%string, Writer.PFloat (-90)); ("station_latitude"%string, Writer.PFloat 91)].

(** ** The condition compiler: [_parse_condition] *)

Module Condition.
Local Open Scope string_scope.
Local Open Scope list_scope.

(** The token types of [tokenize] the function looks at, and the others. *)
Inductive toktype := NAME | OP | STRING | NUMBER | NEWLINE | NL | ENDMARKER | OTHERTOK.

Definition toktype_eqb (a b : toktype) : bool :=
  match a, b with
  | NAME, NAME | OP, OP | STRING, STRING | NUMBER, NUMBER | NEWLINE, NEWLINE
  | NL, NL | ENDMARKER, ENDMARKER | OTHERTOK, OTHERTOK => true
  | _, _ => false
  end.

(** A token as [(tokentype, tokenstr)]; the positions are only read by
    [untokenize]. *)
Definition token := (toktype * string)%type.

(** How [generate_tokens] ends: normally, or with a [TokenError] after the
    tokens listed; [roundtrip_ok] is
    [untokenize(result).strip() == condition.strip()]. *)
Inductive tokend := Finished | TokenError (roundtrip_ok : bool).

Definition in_strs (s : string) (l : list string) : bool := existsb (String.eqb s) l.

Definition nan_operators (op : string) : option string :=
  if op =? "==" then Some "!=" else if op =? "!=" then Some "==" else None.

Record scanst := { result : list token; strings_indices : list nat; nan_indices : list nat }.

Definition last_tokenstr (result : list token) : string :=
  match rev result with [] => "" | t :: _ => snd t end.

Definition logical_op_error : exc :=
  ValueError "Logical operators (&|~) allowed only with parenthezised expressions".
Definition nan_op_error : exc := ValueError "only != and == can be compared with nan".

(** One iteration of the loop over the tokens. *)
Definition scan_token (st : scanst) (tok : token) : exc + scanst :=
  let (tokentype, tokenstr) := tok in
  let last := last_tokenstr (result st) in
  let append sidx nidx :=
    inr {| result := result st ++ [tok]; strings_indices := sidx; nan_indices := nidx |} in
  let n := length (result st) in
  let plain := append (strings_indices st) (nan_indices st) in
  if in_strs tokenstr ["&"; "|"] && negb (last =? ")") then inl logical_op_error
  else if in_strs last ["~"; "|"; "&"] && negb (in_strs tokenstr ["~"; "("]) then
    inl logical_op_error
  else
    match tokentype with
    | STRING =>
        match tokenstr with
        | EmptyString => inl IndexError
        | String c _ =>
            if negb (Ascii.eqb c "b") then append (strings_indices st ++ [n]) (nan_indices st)
            else plain
        end
    | NAME =>
        if in_strs tokenstr ["nan"; "NAN"; "NaN"] && Nat.ltb 1 n then
          match nth_error (result st) (n - 2), nth_error (result st) (n - 1) with
          | Some (NAME, _), Some (OP, operator) =>
              match nan_operators operator with
              | None => inl nan_op_error
              | Some _ => append (strings_indices st) (nan_indices st ++ [n])
              end
          | _, _ => plain
          end
        else plain
    | _ => plain
    end.

Fixpoint scan (st : scanst) (toks : list token) : exc + scanst :=
  match toks with
  | [] => inr st
  | tok :: rest =>
      match scan_token st tok with
      | inl e => inl e
      | inr st' => scan st' rest
      end
  end.

(** [result[i][1] = s] *)
Fixpoint set_str (l : list token) (i : nat) (s : string) : exc + list token :=
  match l, i with
  | [], _ => inl IndexError
  | (t, _) :: rest, O => inr ((t, s) :: rest)
  | tok :: rest, S i' =>
      match set_str rest i' s with inl e => inl e | inr rest' => inr (tok :: rest') end
  end.

Definition get_str (l : list token) (i : nat) : exc + string :=
  match nth_error l i with Some (_, s) => inr s | None => inl IndexError end.

Section Compile.

(** [str(shlex.split(tokenstr)[0].encode('utf8'))]; [None] when [shlex]
    raises or gives no word. *)
Variable bytes_literal : string -> option string.
Variable untokenize : list token -> string.

Fixpoint rewrite_strings (res : list token) (idx : list nat) : exc + list token :=
  match idx with
  | [] => inr res
  | i :: rest =>
      match get_str res i with
      | inl e => inl e
      | inr tokenstr =>
          match bytes_literal tokenstr with
          | None => inl (ValueError "shlex")
          | Some s =>
              match set_str res i s with
              | inl e => inl e
              | inr res' => rewrite_strings res' rest
              end
          end
      end
  end.

Fixpoint rewrite_nans (res : list token) (idx : list nat) : exc + list token :=
  match idx with
  | [] => inr res
  | i :: rest =>
      match get_str res (i - 2), get_str res (i - 1) with
      | inr varname, inr operator =>
          match nan_operators operator with
          | None => inl (KeyError operator)
          | Some op' =>
              match set_str res (i - 1) op' with
              | inl e => inl e
              | inr res1 =>
                  match set_str res1 i varname with
                  | inl e => inl e
                  | inr res2 => rewrite_nans res2 rest
                  end
              end
          end
      | inl e, _ | _, inl e => inl e
      end
  end.

(** [_parse_condition(condition)], given the tokens of [condition] and how
    their generation ended. *)
Definition _parse_condition (toks : list token) (fin : tokend) : exc + string :=
  match scan {| result := []; strings_indices := []; nan_indices := [] |} toks with
  | inl e => inl e
  | inr st =>
      match fin with
      | TokenError false => inl (ValueError "TokenError")
      | _ =>
          if in_strs (last_tokenstr (result st)) ["&"; "|"; "~"] then inl logical_op_error
          else
            match rewrite_strings (result st) (strings_indices st) with
            | inl e => inl e
            | inr res =>
                match rewrite_nans res (nan_indices st) with
                | inl e => inl e
                | inr res' => inr (untokenize res')
                end
            end
      end
  end.

End Compile.

(** Tokens of sample conditions, as [generate_tokens] gives them. *)
Definition toks_nan (v op n : string) : list token :=
  [(NAME, v); (OP, op); (NAME, n); (NEWLINE, ""); (ENDMARKER, "")].

Definition toks_paren : list token :=
  [(OP, "("); (NAME, "pga"); (OP, "<="); (NUMBER, "0.5"); (OP, ")"); (OP, "&");
   (OP, "("); (NAME, "pgv"); (OP, ">"); (NUMBER, "9.5"); (OP, ")");
   (NEWLINE, ""); (ENDMARKER, "")].

Definition toks_noparen : list token :=
  [(NAME, "pga"); (OP, "<="); (NUMBER, "0.5"); (OP, "&"); (NAME, "pgv"); (OP, ">");
   (NUMBER, "9.5"); (NEWLINE, ""); (ENDMARKER, "")].

(** The tokens of ["(pga != nan) & (pgv > 1)"]. *)
Definition toks_nan_compound : list token :=
  [(OP, "("); (NAME, "pga"); (OP, "!="); (NAME, "nan"); (OP, ")"); (OP, "&");
   (OP, "("); (NAME, "pgv"); (OP, ">"); (NUMBER, "1"); (OP, ")");
   (NEWLINE, ""); (ENDMARKER, "")].

(** A plain [untokenize] for the samples: the token strings separated by spaces. *)
Definition join_tokens (l : list token) : string :=
  String.concat " " (map snd l).

End Condition.

(** ** The unit sanity check: [_pga_sa_unit_ok] *)

Module Sanity.

(** [scipy.constants.g] *)
Definition g : float := 9.80665.

(** [_pga_sa_unit_ok(rowdict)], given [float(rowdict['pga'])] and
    [float(rowdict['sa'][0])]; [None] is the exception raised while reading
    one of them. Every exception of the body makes the check pass. *)
Definition _pga_sa_unit_ok (pga_raw sa0_raw : option float) : bool :=
  match pga_raw, sa0_raw with
  | Some p, Some sa0 =>
      let pga := (p / (100 * g))%float in
      let mn := Py.pmin pga sa0 in
      (* [max(...) / min(...)] raises ZeroDivisionError on a zero divisor *)
      if PrimFloat.eqb mn 0%float then true
      else
        let retol := PrimFloat.abs (Py.pmax pga sa0 / mn)%float in
        if negb (Py.isnan retol) then
          match Py.round retol with
          | None => true  (* OverflowError *)
          | Some z => negb (10 <=? z)
          end
        else true
  | _, _ => true
  end.

(** The ratio the check computes, when the division does not raise. *)
Definition retol (p sa0 : float) : option float :=
  let pga := (p / (100 * g))%float in
  let mn := Py.pmin pga sa0 in
  if PrimFloat.eqb mn 0%float then None
  else Some (PrimFloat.abs (Py.pmax pga sa0 / mn)%float).

(** The check as the spec words it: with both values finite, reject when
    [max/min >= 10], the ratio taken exactly. *)
Definition Qmax' (a b : Q) : Q := if Qle_bool a b then b else a.
Definition Qmin' (a b : Q) : Q := if Qle_bool a b then a else b.

Definition spec_rejects (p sa0 : float) : bool :=
  match Py.to_Q (p / (100 * g))%float, Py.to_Q sa0 with
  | Some a, Some b =>
      let mn := Qmin' a b in
      if Qeq_bool mn 0 then false else Qle_bool 10 (Qmax' a b / mn)
  | _, _ => false
  end.

End Sanity.

(** ** The ingestion driver: [GMDatabaseParser._rows] and [parse] *)

Module Driver.
Local Open Scope string_scope.
Local Open Scope list_scope.

(** A [defaultdict(int)] of counts. *)
Definition counter := list (string * nat).

Fixpoint incr (c : counter) (k : string) : counter :=
  match c with
  | [] => [(k, 1%nat)]
  | (k', n) :: rest => if String.eqb k' k then (k', S n) :: rest else (k', n) :: incr rest k
  end.

Record stats := {
  total : Z; written : Z; error : list Z;
  missing_values : counter; outofbound_values : counter }.

Section Parse.

(** A row yielded by [_rows], the table record [_writerow] fills, and
    [_writerow] itself: the record, the missing and the out-of-bound
    columns, or the exception it raises. *)
Variable Row Rec : Type.
Variable writerow : Row -> exc + (Rec * list string * list string).

Record pstate := {
  p_i : Z; p_error : list Z; p_missing : counter; p_outofbound : counter;
  p_table : list Rec }.

(** One iteration of [for i, rowdict in enumerate(cls._rows(...))]; [None]
    is the empty dict yielded for a rejected row. *)
Definition parse_step (st : pstate) (i : Z) (rowdict : option Row) : exc + pstate :=
  match rowdict with
  | Some row =>
      match writerow row with
      | inl e => inl e
      | inr (rec, missingcols, outofboundcols) =>
          inr {| p_i := i; p_error := p_error st;
                 p_missing := fold_left incr missingcols (p_missing st);
                 p_outofbound := fold_left incr outofboundcols (p_outofbound st);
                 p_table := p_table st ++ [rec] |}
      end
  | None =>
      inr {| p_i := i; p_error := p_error st ++ [i]; p_missing := p_missing st;
             p_outofbound := p_outofbound st; p_table := p_table st |}
  end.

Fixpoint parse_loop (i : Z) (st : pstate) (rows : list (option Row)) : exc + pstate :=
  match rows with
  | [] => inr st
  | r :: rest =>
      match parse_step st i r with
      | inl e => inl e
      | inr st' => parse_loop (i + 1) st' rest
      end
  end.

(** [parse]: the rows the generator yields, then how it stops ([Some e]
    when it raises [e]); the statistics and the records appended. *)
Definition parse (rows : list (option Row)) (stop : option exc) : exc + (stats * list Rec) :=
  match parse_loop 0 {| p_i := -1; p_error := []; p_missing := []; p_outofbound := [];
                        p_table := [] |} rows with
  | inl e => inl e
  | inr st =>
      match stop with
      | Some e => inl e
      | None =>
          inr ({| total := p_i st + 1;
                  written := p_i st + 1 - Z.of_nat (length (p_error st));
                  error := p_error st; missing_values := p_missing st;
                  outofbound_values := p_outofbound st |}, p_table st)
      end
  end.

(** The positions, counted from [i], of the rejected rows. *)
Fixpoint none_indices (i : Z) (rows : list (option Row)) : list Z :=
  match rows with
  | [] => []
  | None :: rest => i :: none_indices (i + 1) rest
  | Some _ :: rest => none_indices (i + 1) rest
  end.

(** The rows that reach [_writerow], in order. *)
Definition written_rows (rows : list (option Row)) : list Row :=
  flat_map (fun r => match r with Some x => [x] | None => [] end) rows.

End Parse.

Section Rows.

(** A csv row, the column groups resolved from the header, and the
    per-row normalisation of [_rows] (sa, event time, pga, [parse_row],
    each with its exceptions caught). *)
Variable CsvRow Row SaCols : Type.
Variable get_sa_columns : list string -> option SaCols.
Variable get_event_time_columns : list string -> option (list string).
Variable get_pga_column : list string -> option (string * string).
Variable normalize : SaCols -> list string -> string * string -> CsvRow -> Row.
(** [float(rowdict['pga'])] and [float(rowdict['sa'][0])] of a normalised row. *)
Variable pga_of sa0_of : Row -> option float.

(** [_rows(flatfile_path)]: the rows yielded and how the generator stops.
    The three resolutions run once, when the first row is requested. *)
Definition _rows (fieldnames : list string) (csvrows : list CsvRow)
    : list (option Row) * option exc :=
  match get_sa_columns fieldnames with
  | None => ([], Some (ValueError "Unable to parse SA columns"))
  | Some sac =>
      match get_event_time_columns fieldnames with
      | None => ([], Some (ValueError "Unable to parse event time column(s)"))
      | Some evc =>
          match get_pga_column fieldnames with
          | None => ([], Some (ValueError "Unable to parse PGA column"))
          | Some pc =>
              (map (fun r =>
                      let rowdict := normalize sac evc pc r in
                      if Sanity._pga_sa_unit_ok (pga_of rowdict) (sa0_of rowdict)
                      then Some rowdict else None) csvrows, None)
          end
      end
  end.

End Rows.

End Driver.

(** A writer for the driver samples: every row is written, with [pga] missing. *)
Definition sample_writer (n : nat) : exc + (nat * list string * list string) :=
  inr (n, ["pga"%string], []).
Definition sample_rows : list (option nat) := [Some 1%nat; None; Some 2%nat].

(** Csv rows already reduced to [(float(pga), float(sa[0]))], with PGA in
    cm/s/s: [100 * g] is 1 g. *)
Definition unit_row : Type := (option float * option float)%type.
Definition one_g : float := (100 * Sanity.g)%float.
Definition unit_csvrows : list unit_row :=
  [(Some one_g, Some 1%float); (Some one_g, Some 9.6%float)].
Definition unit_rows_of (fieldnames : list string) (rows : list unit_row) :=
  Driver._rows unit_row unit_row unit (fun _ => Some tt) (fun _ => Some [])
    (fun _ => Some ("pga"%string, "g"%string)) (fun _ _ _ r => r) fst snd
    fieldnames rows.
Definition unit_writer (r : unit_row) : exc + (unit_row * list string * list string) :=
  inr (r, [], []).

(** Rows for the writer over the database schema: a PGA of [250.5] cm/s/s,
    and an infinite one ([float('inf')] parses from the csv text "inf"). *)
Definition finite_pga_row : list (string * Writer.pyval) :=
  [("pga"%string, Writer.PFloat 250.5)].
Definition inf_pga_row : list (string * Writer.pyval) :=
  [("pga"%string, Writer.PFloat PrimFloat.infinity)].
Definition esm_writer (r : list (string * Writer.pyval))
    : exc + (Writer.tablerow * list string * list string) :=
  Writer._writerow float_cast Writer.gm_columns r "esm".
Definition fault_rows : list (option (list (string * Writer.pyval))) :=
  [Some finite_pga_row; Some inf_pga_row; Some finite_pga_row].

(** ** Date-time normalisation: [GMDatabaseParser.normalize_dtime]

    [datetime.strptime] compiles its format to a regular expression
    (CPython's [_strptime.TimeRE], matched with [re.IGNORECASE]): each
    directive becomes a group of alternatives tried in order, a run of
    whitespace becomes [\s+], any other character matches itself. The
    first match in backtracking order is taken; text left after it raises
    [ValueError], and so does a date [datetime] refuses. Text is ASCII
    here. *)
Module DTime.
Local Open Scope list_scope.
Local Open Scope string_scope.
Local Open Scope Z_scope.

(** One character of a directive's alternative: [\d], a range, a literal. *)
Inductive cls := CDigit | CRange (lo hi : ascii) | CChar (c : ascii).
Inductive elem := ELit (c : ascii) | EWs | EField (k : ascii) (alts : list (list cls)).

Definition code (c : ascii) : Z := Z.of_nat (nat_of_ascii c).

Definition cls_ok (k : cls) (c : ascii) : bool :=
  match k with
  | CDigit => (48 <=? code c) && (code c <=? 57)
  | CRange lo hi => (code lo <=? code c) && (code c <=? code hi)
  | CChar d => Ascii.eqb c d
  end.

(** [\s] on ASCII text. *)
Definition is_space (c : ascii) : bool :=
  (code c =? 32) || ((9 <=? code c) && (code c <=? 13)).

(** [re.IGNORECASE] on a literal character. *)
Definition lower (c : ascii) : Z :=
  if (65 <=? code c) && (code c <=? 90) then code c + 32 else code c.
Definition eq_ci (c d : ascii) : bool := lower c =? lower d.

(** [TimeRE]'s groups for the directives of the four formats. *)
Definition alts_of (k : ascii) : list (list cls) :=
  match k with
  | "Y"%char => [[CDigit; CDigit; CDigit; CDigit]]
  | "m"%char => [[CChar "1"; CRange "0" "2"]; [CChar "0"; CRange "1" "9"]; [CRange "1" "9"]]
  | "d"%char => [[CChar "3"; CRange "0" "1"]; [CRange "1" "2"; CDigit];
                 [CChar "0"; CRange "1" "9"]; [CRange "1" "9"]; [CChar " "; CRange "1" "9"]]
  | "H"%char => [[CChar "2"; CRange "0" "3"]; [CRange "0" "1"; CDigit]; [CDigit]]
  | "M"%char => [[CRange "0" "5"; CDigit]; [CDigit]]
  | "S"%char => [[CChar "6"; CRange "0" "1"]; [CRange "0" "5"; CDigit]; [CDigit]]
  | _ => []
  end.

Fixpoint compile (f : list ascii) : list elem :=
  match f with
  | "%"%char :: k :: rest => EField k (alts_of k) :: compile rest
  | c :: rest => (if is_space c then EWs else ELit c) :: compile rest
  | [] => []
  end.

(** A run of whitespace in the format is one [\s+]. *)
Fixpoint merge_ws (es : list elem) : list elem :=
  match es with
  | EWs :: ((EWs :: _) as rest) => merge_ws rest
  | e :: rest => e :: merge_ws rest
  | [] => []
  end.

Fixpoint match_alt (a : list cls) (s : list ascii) : option (list ascii * list ascii) :=
  match a, s with
  | [], _ => Some ([], s)
  | k :: a', c :: s' =>
      if cls_ok k c then
        match match_alt a' s' with Some (cap, r) => Some (c :: cap, r) | None => None end
      else None
  | _ :: _, [] => None
  end.

Fixpoint ws_prefix (s : list ascii) : nat :=
  match s with c :: s' => if is_space c then S (ws_prefix s') else O | [] => O end.

(** Every match of the pattern at the start of [s], in the order the
    backtracking engine finds them: captures and the text left over. *)
Fixpoint match_elems (es : list elem) (s : list ascii)
    : list (list (ascii * list ascii) * list ascii) :=
  match es with
  | [] => [([], s)]
  | ELit c :: es' =>
      match s with d :: s' => if eq_ci c d then match_elems es' s' else [] | [] => [] end
  | EWs :: es' =>
      flat_map (fun k => match_elems es' (skipn k s)) (rev (seq 1 (ws_prefix s)))
  | EField k alts :: es' =>
      flat_map (fun a =>
        match match_alt a s with
        | Some (cap, r) => map (fun '(caps, r') => ((k, cap) :: caps, r')) (match_elems es' r)
        | None => []
        end) alts
  end.

Record datetime := mkdt { year : Z; month : Z; day : Z; hour : Z; minute : Z; second : Z }.

(** [int(s)] on a captured group (digits, possibly after a space). *)
Definition int_of (ds : list ascii) : Z :=
  fold_left (fun acc c => if is_space c then acc else acc * 10 + (code c - 48)) ds 0.

Fixpoint capture (k : ascii) (caps : list (ascii * list ascii)) : option (list ascii) :=
  match caps with
  | [] => None
  | (k', v) :: rest => if Ascii.eqb k k' then Some v else capture k rest
  end.

Definition is_leap (y : Z) : bool :=
  (y mod 4 =? 0) && (negb (y mod 100 =? 0) || (y mod 400 =? 0)).
Definition days_in_month (y m : Z) : Z :=
  if m =? 2 then (if is_leap y then 29 else 28)
  else if (m =? 4) || (m =? 6) || (m =? 9) || (m =? 11) then 30 else 31.

(** [datetime(year, month, day, hour, minute, second)] and its range checks;
    a missing directive takes [_strptime]'s default. *)
Definition build (caps : list (ascii * list ascii)) : option datetime :=
  let get k d := match capture k caps with Some v => int_of v | None => d end in
  let y := get "Y"%char 1900 in let mo := get "m"%char 1 in let d := get "d"%char 1 in
  let h := get "H"%char 0 in let mi := get "M"%char 0 in let s := get "S"%char 0 in
  if (1 <=? y) && (y <=? 9999) && (1 <=? mo) && (mo <=? 12) &&
     (1 <=? d) && (d <=? days_in_month y mo) && (h <=? 23) && (mi <=? 59) && (s <=? 59)
  then Some (mkdt y mo d h mi s) else None.

(** [datetime.strptime(s, fmt)]; [None] is its [ValueError]. *)
Definition strptime (s fmt : string) : option datetime :=
  match match_elems (merge_ws (compile (list_ascii_of_string fmt))) (list_ascii_of_string s) with
  | [] => None
  | (caps, rest) :: _ => match rest with [] => build caps | _ :: _ => None end
  end.

Definition pad2 (z : Z) : string := if z <? 10 then String "0" (Py.str_int z) else Py.str_int z.

(** [dt.strftime('%Y-%m-%dT%H:%M:%S')] with the C library of Linux (glibc),
    whose [%Y] is the year in decimal, without padding. *)
Definition strftime_iso (dt : datetime) : string :=
  Py.str_int (year dt) ++ "-" ++ pad2 (month dt) ++ "-" ++ pad2 (day dt) ++ "T" ++
  pad2 (hour dt) ++ ":" ++ pad2 (minute dt) ++ ":" ++ pad2 (second dt).

Definition base_format : string := "%Y-%m-%dT%H:%M:%S".
Definition formats_ : list string := [base_format; "%Y-%m-%d %H:%M:%S"; "%Y-%m-%d"; "%Y"].

Fixpoint first_parse (s : string) (fmts : list string) : option datetime :=
  match fmts with
  | [] => None
  | f :: rest => match strptime s f with Some dt => Some dt | None => first_parse s rest end
  end.

(** [normalize_dtime(dtime)] on a string ([inl]) or a datetime ([inr]). *)
Definition normalize_dtime (dtime : string + datetime) : exc + string :=
  match dtime with
  | inr dt => inr (strftime_iso dt)
  | inl s =>
      match first_parse s formats_ with
      | Some dt => inr (strftime_iso dt)
      | None => inl (ValueError ("Unparsable as date-time: " ++ s))
      end
  end.

(** A year written with four digits, zero-padded. *)
Definition pad4 (y : Z) : string :=
  let s := Py.str_int y in
  string_of_list_ascii (repeat "0"%char (4 - String.length s)) ++ s.

End DTime.

(** A year-only input, zero-padded to four digits, against the year followed
    by ["-01-01T00:00:00"]. *)
Definition year_ok (n : nat) : bool :=
  let y := Z.of_nat n in
  match DTime.normalize_dtime (inl (DTime.pad4 y)) with
  | inr s => String.eqb s (Py.str_int y ++ "-01-01T00:00:00")%string
  | inl _ => false
  end.

(** ** Spectral acceleration: [GMDatabaseParser._get_sa] and [numpy.interp]

    [np.interp(x, xp, fp)] with its defaults [left = fp[0]] and
    [right = fp[-1]], after numpy's C implementation ([arr_interp] and
    [binary_search_with_guess]); [xp] is taken as given, unsorted or not. *)
Module Sa.
Local Open Scope list_scope.
Local Open Scope float_scope.
Local Open Scope Z_scope.

Definition get (arr : list float) (i : Z) : float := nth (Z.to_nat i) arr nan.

(** The bisection loop of [binary_search_with_guess]. *)
Fixpoint bisect (fuel : nat) (key : float) (arr : list float) (imin imax : Z) : Z :=
  match fuel with
  | O => imin - 1
  | S f =>
      if imin <? imax then
        let imid := imin + Z.shiftr (imax - imin) 1 in
        if PrimFloat.leb (get arr imid) key then bisect f key arr (imid + 1) imax
        else bisect f key arr imin imid
      else imin - 1
  end.

Fixpoint linear_from (fuel : nat) (key : float) (arr : list float) (len i : Z) : Z :=
  match fuel with
  | O => i - 1
  | S f =>
      if (i <? len) && PrimFloat.leb (get arr i) key then linear_from f key arr len (i + 1)
      else i - 1
  end.

Definition LIKELY_IN_CACHE_SIZE : Z := 8.

Definition binary_search_with_guess (key : float) (arr : list float) (len guess : Z) : Z :=
  let fuel := S (length arr) in
  if PrimFloat.ltb (get arr (len - 1)) key then len
  else if PrimFloat.ltb key (get arr 0) then -1
  else if len <=? 4 then linear_from fuel key arr len 1
  else
    let guess := if guess >? len - 3 then len - 3 else guess in
    let guess := if guess <? 1 then 1 else guess in
    if PrimFloat.ltb key (get arr guess) then
      if PrimFloat.ltb key (get arr (guess - 1)) then
        let imin := if (guess >? LIKELY_IN_CACHE_SIZE) &&
                       PrimFloat.leb (get arr (guess - LIKELY_IN_CACHE_SIZE)) key
                    then guess - LIKELY_IN_CACHE_SIZE else 0 in
        bisect fuel key arr imin (guess - 1)
      else guess - 1
    else if PrimFloat.ltb key (get arr (guess + 1)) then guess
    else if PrimFloat.ltb key (get arr (guess + 2)) then guess + 1
    else
      let imax := if (guess <? len - LIKELY_IN_CACHE_SIZE - 1) &&
                     PrimFloat.ltb key (get arr (guess + LIKELY_IN_CACHE_SIZE))
                  then guess + LIKELY_IN_CACHE_SIZE else len in
      bisect fuel key arr (guess + 2) imax.

(** One output value, with the index [j] carried to the next as the guess. *)
Definition interp_one (dx dy : list float) (lenxp : Z) (lval rval : float)
    (j : Z) (x_val : float) : float * Z :=
  if PrimFloat.is_nan x_val then (x_val, j)
  else
    let j := binary_search_with_guess x_val dx lenxp j in
    let r :=
      if j =? -1 then lval
      else if j =? lenxp then rval
      else if j =? lenxp - 1 then get dy j
      else if PrimFloat.eqb (get dx j) x_val then get dy j
      else
        let slope := ((get dy (j + 1) - get dy j) / (get dx (j + 1) - get dx j))%float in
        let d := (slope * (x_val - get dx j) + get dy j)%float in
        if PrimFloat.is_nan d then
          let d := (slope * (x_val - get dx (j + 1)) + get dy (j + 1))%float in
          if PrimFloat.is_nan d && PrimFloat.eqb (get dy j) (get dy (j + 1)) then get dy j
          else d
        else d in
    (r, j).

Fixpoint interp_loop (dx dy : list float) (lenxp : Z) (lval rval : float)
    (j : Z) (xs : list float) : list float :=
  match xs with
  | [] => []
  | x :: rest =>
      let (r, j') := interp_one dx dy lenxp lval rval j x in
      r :: interp_loop dx dy lenxp lval rval j' rest
  end.

Definition interp (x xp fp : list float) : exc + list float :=
  let lenxp := Z.of_nat (length xp) in
  if lenxp =? 0 then inl (ValueError "array of sample points is empty")
  else if negb (Nat.eqb (length fp) (length xp))
  then inl (ValueError "fp and xp are not of the same length.")
  else
    let lval := get fp 0 in
    let rval := get fp (lenxp - 1) in
    if lenxp =? 1 then
      let xp_val := get xp 0 in
      let fp_val := get fp 0 in
      inr (map (fun x_val =>
                  if PrimFloat.ltb x_val xp_val then lval
                  else if PrimFloat.ltb xp_val x_val then rval else fp_val) x)
    else inr (interp_loop xp fp lenxp lval rval 0 x).

(** [GMDatabaseParser._ref_periods] *)
Definition _ref_periods : list float :=
  ([0.010; 0.020; 0.022; 0.025; 0.029; 0.030; 0.032; 0.035;
   0.036; 0.040; 0.042; 0.044; 0.045; 0.046; 0.048; 0.050;
   0.055; 0.060; 0.065; 0.067; 0.070; 0.075; 0.080; 0.085;
   0.090; 0.095; 0.100; 0.110; 0.120; 0.130; 0.133; 0.140;
   0.150; 0.160; 0.170; 0.180; 0.190; 0.200; 0.220; 0.240;
   0.250; 0.260; 0.280; 0.290; 0.300; 0.320; 0.340; 0.350;
   0.360; 0.380; 0.400; 0.420; 0.440; 0.450; 0.460; 0.480;
   0.500; 0.550; 0.600; 0.650; 0.667; 0.700; 0.750; 0.800;
   0.850; 0.900; 0.950; 1.000; 1.100; 1.200; 1.300; 1.400;
   1.500; 1.600; 1.700; 1.800; 1.900; 2.000; 2.200; 2.400;
   2.500; 2.600; 2.800; 3.000; 3.200; 3.400; 3.500; 3.600;
   3.800; 4.000; 4.200; 4.400; 4.600; 4.800; 5.000; 5.500;
   6.000; 6.500; 7.000; 7.500; 8.000; 8.500; 9.000; 9.500;
   10.000; 11.000; 12.000; 13.000; 14.000; 15.000; 20.000])%float.

Section GetSa.
(** [np.log10] and [10.0 ** x] ([np.power(10.0, x)]) of the C library. *)
Variable log10 pow10 : float -> float.

(** [_get_sa(rowdict, spectra_fieldnames, ref_log_periods, spectra_periods)]:
    [sa_values] are the row's values of the SA columns, in header order, and
    [spectra_periods] their periods, in the same order. *)
Definition _get_sa (sa_values spectra_periods ref_log_periods : list float)
    : exc + list float :=
  let logx := map log10 spectra_periods in
  let logy := map log10 sa_values in
  match interp ref_log_periods logx logy with
  | inl e => inl e
  | inr r => inr (map pow10 r)
  end.

(** [ref_log_periods = np.log10(cls._ref_periods)], as [_rows] computes it. *)
Definition ref_log_periods : list float := map log10 _ref_periods.

End GetSa.

(** Consecutive elements strictly increase. *)
Fixpoint ascending (l : list float) : bool :=
  match l with
  | a :: ((b :: _) as rest) => PrimFloat.ltb a b && ascending rest
  | _ => true
  end.

(** [log10] and [10 ** x] on the powers of ten [1e-2 .. 1e1], where the C
    library is exact; elsewhere nan. *)
Definition log10_pow10_pts (x : float) : float :=
  if PrimFloat.eqb x 0.01 then (-2)%float
  else if PrimFloat.eqb x 0.1 then (-1)%float
  else if PrimFloat.eqb x 1 then 0%float
  else if PrimFloat.eqb x 10 then 1%float
  else nan.
Definition pow10_pts (x : float) : float :=
  if PrimFloat.eqb x (-2) then 0.01%float
  else if PrimFloat.eqb x (-1) then 0.1%float
  else if PrimFloat.eqb x 0 then 1%float
  else if PrimFloat.eqb x 1 then 10%float
  else nan.

End Sa.

(** The SA values on the reference grid, for columns listed in the header
    with these values and periods, [log10] and [10 **] taken exact on the
    powers of ten. *)
Definition sa_on_grid (sa_values periods : list float) : list float :=
  match Sa._get_sa Sa.log10_pow10_pts Sa.pow10_pts sa_values periods
          (Sa.ref_log_periods Sa.log10_pow10_pts) with
  | inr r => r
  | inl _ => []
  end.

(** ** Acceleration units: [sm_utils.convert_accel_units], called by
    [GMDatabaseParser._get_pga] *)
Module SmUtils.
Local Open Scope string_scope.
Local Open Scope list_scope.

(** [scipy.constants.g], imported by [sm_utils] *)
Definition g : float := 9.80665.

Definition m_sec_square : list string := ["m/s/s"; "m/s**2"; "m/s^2"].
Definition cm_sec_square : list string := ["cm/s/s"; "cm/s**2"; "cm/s^2"].

Definition units_error : exc :=
  ValueError ("Unrecognised time history units. " ++
              "Should take either ''g'', ''m/s/s'' or ''cm/s/s''").

(** [convert_accel_units(acceleration, from_, to_)] on a scalar, the branches
    in the order of the source: a [to_] none of the branches accepts falls
    through to the final [raise]. *)
Definition convert_accel_units (acceleration : float) (from_ to_ : string)
    : exc + float :=
  if from_ =? "g" then
    if to_ =? "g" then inr acceleration
    else if Condition.in_strs to_ m_sec_square then inr (acceleration * g)%float
    else if Condition.in_strs to_ cm_sec_square then inr (acceleration * (100 * g))%float
    else inl units_error
  else if Condition.in_strs from_ m_sec_square then
    if to_ =? "g" then inr (acceleration / g)%float
    else if Condition.in_strs to_ m_sec_square then inr acceleration
    else if Condition.in_strs to_ cm_sec_square then inr (acceleration * 100)%float
    else inl units_error
  else if Condition.in_strs from_ cm_sec_square then
    if to_ =? "g" then inr (acceleration / (100 * g))%float
    else if Condition.in_strs to_ m_sec_square then inr (acceleration / 100)%float
    else if Condition.in_strs to_ cm_sec_square then inr acceleration
    else inl units_error
  else inl units_error.

End SmUtils.

(** ** Column resolution of [GMDatabaseParser._rows]: [_get_sa_columns],
    [_get_event_time_columns], [_get_event_time], [_get_pga_column] and
    [_get_pga]

    A csv field name is a [str] whose characters have code points 0 to 255,
    one [ascii] each. *)
Module Columns.
Local Open Scope string_scope.
Local Open Scope list_scope.
Local Open Scope Z_scope.

(** [str.isspace] on such a character; it is also the class [\s] of a
    [str] pattern and what [str.strip] removes. *)
Definition py_space (c : ascii) : bool :=
  let n := nat_of_ascii c in
  (Nat.leb 9 n && Nat.leb n 13) || (Nat.leb 28 n && Nat.leb n 32) ||
  Nat.eqb n 133 || Nat.eqb n 160.

(** [str.lower] on such a character: A-Z and the Latin-1 capitals
    (U+00C0 to U+00DE, without the sign U+00D7). *)
Definition py_lower_char (c : ascii) : ascii :=
  let n := nat_of_ascii c in
  if (Nat.leb 65 n && Nat.leb n 90) ||
     (Nat.leb 192 n && Nat.leb n 222 && negb (Nat.eqb n 215))
  then ascii_of_nat (n + 32) else c.

Fixpoint lower (s : string) : string :=
  match s with
  | EmptyString => EmptyString
  | String c r => String (py_lower_char c) (lower r)
  end.

Fixpoint lstrip (l : list ascii) : list ascii :=
  match l with
  | c :: r => if py_space c then lstrip r else l
  | [] => []
  end.

(** [s.strip()] *)
Definition strip (s : string) : string :=
  string_of_list_ascii (rev (lstrip (rev (lstrip (list_ascii_of_string s))))).

(** The lower-case literal [pat] under [re.IGNORECASE]: a character
    matches when its [lower()] is the pattern's character. *)
Fixpoint ci_prefix (pat s : list ascii) : option (list ascii) :=
  match pat, s with
  | [], _ => Some s
  | p :: pat', c :: s' => if Ascii.eqb (py_lower_char c) p then ci_prefix pat' s' else None
  | _ :: _, [] => None
  end.

(** The rest of the pattern, [(.* ) \) \s* $] with the spaces read as
    nothing, on the text after the opening bracket: the group ends
    before a [)] that is followed only by whitespace, with no newline
    before it ([.] does not match one); the greedy [.*] takes the last such
    bracket. *)
Definition close_ok (r : list ascii) (k : nat) : bool :=
  match nth_error r k with Some c => Ascii.eqb c ")" | None => false end &&
  forallb (fun c => negb (Ascii.eqb c "010")) (firstn k r) &&
  forallb py_space (skipn (S k) r).

Definition paren_group (r : list ascii) : option (list ascii) :=
  match rev (filter (close_ok r) (seq 0 (length r))) with
  | k :: _ => Some (firstn k r)
  | [] => None
  end.

(** [re.compile(r'^\s*<name>\s*\((.* )\)\s*$', re.IGNORECASE).match(s)]
    (without the space before the closing bracket of the group) and its
    group 1. The [\s*] runs before the name and before the bracket
    take all the whitespace there, as the next character is not one. *)
Definition paren_re (name s : string) : option string :=
  match ci_prefix (list_ascii_of_string name) (lstrip (list_ascii_of_string s)) with
  | None => None
  | Some r =>
      match lstrip r with
      | "("%char :: r' => option_map string_of_list_ascii (paren_group r')
      | _ => None
      end
  end.

Definition _sa_periods_re (s : string) : option string := paren_re "sa" s.
Definition _pga_unit_re (s : string) : option string := paren_re "pga" s.

Definition _accel_units : list string :=
  ["g"; "m/s/s"; "m/s**2"; "m/s^2"; "cm/s/s"; "cm/s**2"; "cm/s^2"].

Definition _event_time_colnames : list string :=
  ["year"; "month"; "day"; "hour"; "minute"; "second"].

(** The exceptions raised while resolving the columns: [ValueError] and
    the bare [Exception]. *)
Inductive raised := RValueError (msg : string) | RException (msg : string).

Definition dq : string := String (ascii_of_nat 34) EmptyString.

(** A value of a [csv.DictReader] row: a csv string, the [None] of a
    missing trailing value, the list of the extra values stored under the
    key [None]. *)
Inductive rv := RStr (s : string) | RNone | RList (l : list string).

(** A row dict; the key [None] holds the extra values of a long row. *)
Definition rowdict := list (option string * rv).

Definition key_eqb (a b : option string) : bool :=
  match a, b with
  | Some x, Some y => String.eqb x y
  | None, None => true
  | _, _ => false
  end.

(** [rowdict.get(key)], [None] when the key is absent. *)
Fixpoint get (k : option string) (d : rowdict) : option rv :=
  match d with
  | [] => None
  | (k', v) :: rest => if key_eqb k' k then Some v else get k rest
  end.

Definition key_str (k : option string) : string :=
  match k with Some s => s | None => "None" end.

Section Resolve.

(** [float(s)] and [int(s)] of a csv string; [None] is their [ValueError]. *)
Variable py_float : string -> option float.
Variable py_int : string -> option Z.

(** [_get_sa_columns(csv_fieldnames)]: the SA field names and their periods,
    in header order; [float(match.group(1))] may raise. *)
Fixpoint _get_sa_columns (csv_fieldnames : list string)
    : exc + (list string * list float) :=
  match csv_fieldnames with
  | [] => inr ([], [])
  | fname :: rest =>
      match _sa_periods_re fname with
      | None => _get_sa_columns rest
      | Some grp =>
          match py_float grp with
          | None => inl (ValueError ("could not convert string to float: " ++ grp))
          | Some p =>
              match _get_sa_columns rest with
              | inl e => inl e
              | inr (names, periods) => inr (fname :: names, p :: periods)
              end
          end
      end
  end.

(** [evtime_defnames.get(name)]: the position of [name] in
    [_event_time_colnames] (already lower case). *)
Fixpoint index_in (s : string) (l : list string) (i : nat) : option nat :=
  match l with
  | [] => None
  | x :: rest => if String.eqb x s then Some i else index_in s rest (S i)
  end.

(** [evtime_names[index] = fname] on the six-element list. *)
Definition list_set {A} (l : list A) (i : nat) (v : A) : list A :=
  firstn i l ++ v :: skipn (S i) l.

Definition evtime_step (names : list (option string)) (fname : string)
    : list (option string) :=
  match index_in (lower fname) _event_time_colnames 0 with
  | Some i => list_set names i (Some fname)
  | None => names
  end.

(** [_get_event_time_columns(csv_fieldnames, default_colname)] *)
Definition _get_event_time_columns (csv_fieldnames : list string)
    (default_colname : string) : raised + list (option string) :=
  if Condition.in_strs default_colname csv_fieldnames then inr [Some default_colname]
  else
    let names := fold_left evtime_step csv_fieldnames (repeat None 6) in
    let notfound c := inl (RException ("column " ++ dq ++ c ++ dq ++ " not found")) in
    match names with
    | None :: _ => notfound "year"
    | _ :: None :: _ => notfound "month"
    | _ :: _ :: None :: _ => notfound "day"
    | _ => inr names
    end.

(** [int(v)] of a row value: [int(None)] and [int(list)] raise [TypeError]. *)
Definition int_of_rv (v : rv) : exc + Z :=
  match v with
  | RStr s =>
      match py_int s with
      | Some z => inr z
      | None => inl (ValueError ("invalid literal for int() with base 10: " ++ s))
      end
  | _ => inl TypeError
  end.

(** [int(rowdict[fieldname] if i < 3 else rowdict.get(fieldname, 0))],
    for the fields from position [i] on, left to right. *)
Fixpoint event_time_args (d : rowdict) (i : nat) (names : list (option string))
    : exc + list Z :=
  match names with
  | [] => inr []
  | f :: rest =>
      let a := if Nat.ltb i 3 then
                 match get f d with
                 | None => inl (KeyError (key_str f))
                 | Some v => int_of_rv v
                 end
               else
                 match get f d with
                 | None => inr 0
                 | Some v => int_of_rv v
                 end in
      match a with
      | inl e => inl e
      | inr z =>
          match event_time_args d (S i) rest with
          | inl e => inl e
          | inr zs => inr (z :: zs)
          end
      end
  end.

Definition c_int (z : Z) : bool := (- 2 ^ 31 <=? z) && (z <? 2 ^ 31).

(** [datetime(year, month, day, hour=0, minute=0, second=0,
    microsecond=0, tzinfo=None)] on positional int arguments: every one is
    first read as a C [int] ([OverflowError] outside), then the date and the
    time fields are checked ([ValueError]); an eighth positional argument is
    an int where a tzinfo is expected ([TypeError]). *)
Definition py_datetime (args : list Z) : exc + DTime.datetime :=
  match args with
  | y :: mo :: d :: rest =>
      if negb (forallb c_int args) then inl OverflowError
      else
        let t := rest ++ repeat 0 (4 - length rest) in
        match t with
        | [h; mi; s; us] =>
            if negb ((1 <=? y) && (y <=? 9999)) then inl (ValueError "year is out of range")
            else if negb ((1 <=? mo) && (mo <=? 12)) then
              inl (ValueError "month must be in 1..12")
            else if negb ((1 <=? d) && (d <=? DTime.days_in_month y mo)) then
              inl (ValueError "day is out of range for month")
            else if negb ((0 <=? h) && (h <=? 23)) then inl (ValueError "hour must be in 0..23")
            else if negb ((0 <=? mi) && (mi <=? 59)) then
              inl (ValueError "minute must be in 0..59")
            else if negb ((0 <=? s) && (s <=? 59)) then
              inl (ValueError "second must be in 0..59")
            else if negb ((0 <=? us) && (us <=? 999999)) then
              inl (ValueError "microsecond must be in 0..999999")
            else inr (DTime.mkdt y mo d h mi s)
        | _ => inl TypeError
        end
  | _ => inl TypeError
  end.

(** [_get_event_time(rowdict, evtime_fieldnames)]: a string (or any value)
    goes to [normalize_dtime], whose [strptime] raises [TypeError] on a
    non-string. *)
Definition _get_event_time (d : rowdict) (evtime_fieldnames : list (option string))
    : exc + string :=
  match evtime_fieldnames with
  | [] => inl IndexError
  | f0 :: rest =>
      match get f0 d with
      | None => inl (KeyError (key_str f0))
      | Some dtime =>
          match rest with
          | [] =>
              match dtime with
              | RStr s => DTime.normalize_dtime (inl s)
              | _ => inl TypeError
              end
          | _ :: _ =>
              match event_time_args d 0 evtime_fieldnames with
              | inl e => inl e
              | inr args =>
                  match py_datetime args with
                  | inl e => inl e
                  | inr dt => DTime.normalize_dtime (inr dt)
                  end
              end
          end
      end
  end.

Definition is_some {A} (o : option A) : bool := match o with Some _ => true | None => false end.

(** [_get_pga_column(csv_fieldnames)]: the loop, then the checks after it. *)
Fixpoint pga_column_loop (fields : list string) (pgacol pgaunitcol : option string)
    : raised + (string * string) :=
  match fields with
  | [] =>
      match pgacol, pgaunitcol with
      | Some p, None =>
          inl (RValueError ("provide field 'acceleration_unit' or specify unit in '" ++
                            p ++ "'"))
      | None, Some _ => inl (RValueError "missing field 'pga'")
      | Some p, Some u => inr (p, u)
      | None, None => inl (RException "no matching column found")
      end
  | fname :: rest =>
      if negb (is_some pgacol) && String.eqb (strip (lower fname)) "pga" then
        pga_column_loop rest (Some fname) pgaunitcol
      else if negb (is_some pgaunitcol) && String.eqb (strip (lower fname)) "acceleration_unit" then
        pga_column_loop rest pgacol (Some fname)
      else
        match _pga_unit_re fname with
        | Some unit =>
            if Condition.in_strs unit _accel_units then inr (fname, unit)
            else inl (RException ("unit not in ['g', 'm/s/s', 'm/s**2', 'm/s^2', " ++
                                  "'cm/s/s', 'cm/s**2', 'cm/s^2']"))
        | None => pga_column_loop rest pgacol pgaunitcol
        end
  end.

Definition _get_pga_column (csv_fieldnames : list string) : raised + (string * string) :=
  pga_column_loop csv_fieldnames None None.

(** [_get_pga(rowdict, pga_column, pga_unit)]:
    [convert_accel_units(float(rowdict[pga_column]), pga_unit)]; a unit
    that is not a string matches no branch of the conversion. *)
Definition _get_pga (d : rowdict) (pga_column : string) (pga_unit : rv) : exc + float :=
  match get (Some pga_column) d with
  | None => inl (KeyError pga_column)
  | Some (RStr s) =>
      match py_float s with
      | None => inl (ValueError ("could not convert string to float: " ++ s))
      | Some x =>
          match pga_unit with
          | RStr u => SmUtils.convert_accel_units x u "cm/s/s"
          | _ => inl SmUtils.units_error
          end
      end
  | Some _ => inl TypeError
  end.

(** The pga step of [_rows]:
    [acc_unit = rowdict[pga_unit] if pga_unit == 'acceleration_unit' else pga_unit]
    then [rowdict['pga'] = cls._get_pga(rowdict, pga_col, acc_unit)]. *)
Definition rows_pga (d : rowdict) (pga_col pga_unit : string) : exc + float :=
  let acc_unit :=
    if String.eqb pga_unit "acceleration_unit" then
      match get (Some pga_unit) d with
      | Some v => inr v
      | None => inl (KeyError pga_unit)
      end
    else inr (RStr pga_unit) in
  match acc_unit with
  | inl e => inl e
  | inr u => _get_pga d pga_col u
  end.

(** An hour, minute or second slot of [_get_event_time]: the value
    [rowdict.get(fieldname, 0)] is absent (so 0) or an int string. *)
Definition time_slot (d : rowdict) (f : option string) (z : Z) : Prop :=
  (get f d = None /\ z = 0%Z) \/ (exists s, get f d = Some (RStr s) /\ py_int s = Some z).

End Resolve.

End Columns.

(** ** Record selection: [records_where] and [read_where] *)
Module Select.
Local Open Scope string_scope.
Local Open Scope list_scope.
Local Open Scope Z_scope.

Section Select.

(** The rows of the table in storage order, as [table.iterrows()] gives them. *)
Variable Row : Type.
Variable rows : list Row.
(** The tokens [generate_tokens] gives for a condition and how it ends,
    and the two parameters of the [_parse_condition] model. *)
Variable tokenize : string -> list Condition.token * Condition.tokend.
Variable bytes_literal : string -> option string.
Variable untokenize : list Condition.token -> string.
(** The rows satisfying a compiled condition, in storage order, or the
    exception pytables raises on it: [table.where] and [table.read_where]
    select the same rows. *)
Variable select : string -> exc + list Row.

(** [_parse_condition(condition)] *)
Definition parse_condition (condition : string) : exc + string :=
  let (toks, fin) := tokenize condition in
  Condition._parse_condition bytes_literal untokenize toks fin.

(** [for count, row in enumerate(rows): if limit is None or count < limit: yield row] *)
Fixpoint yield_limited (count : Z) (limit : option Z) (rs : list Row) : list Row :=
  match rs with
  | [] => []
  | r :: rest =>
      let keep := match limit with None => true | Some l => count <? l end in
      if keep then r :: yield_limited (count + 1) limit rest
      else yield_limited (count + 1) limit rest
  end.

(** [records_where(table, condition, limit)]: the rows the generator yields,
    or the exception it raises when first advanced; [None] is Python's
    [None]. *)
Definition records_where (condition : option string) (limit : option Z) : exc + list Row :=
  let source :=
    match condition with
    | None => inr rows
    | Some c =>
        if String.eqb c "" then inr rows
        else match parse_condition c with inl e => inl e | inr c' => select c' end
    end in
  match source with
  | inl e => inl e
  | inr rs => inr (yield_limited 0 limit rs)
  end.

(** Python's [seq[:limit]] *)
Definition slice_to (rs : list Row) (limit : option Z) : list Row :=
  match limit with
  | None => rs
  | Some l =>
      if 0 <=? l then firstn (Z.to_nat l) rs else firstn (length rs - Z.to_nat (- l)) rs
  end.

(** [read_where(table, condition, limit)] on a string condition:
    [table.read_where(_parse_condition(condition))[:limit]]. *)
Definition read_where (condition : string) (limit : option Z) : exc + list Row :=
  match parse_condition condition with
  | inl e => inl e
  | inr c' =>
      match select c' with
      | inl e => inl e
      | inr rs => inr (slice_to rs limit)
      end
  end.

End Select.

End Select.

(** ** Sample inputs of the column resolution and selection code *)

(** [int()] on decimal digits, as a sample [py_int]. *)
Fixpoint digits_val (s : string) (acc : Z) : option Z :=
  match s with
  | EmptyString => Some acc
  | String c r =>
      let n := (Z.of_nat (nat_of_ascii c) - 48)%Z in
      if (0 <=? n)%Z && (n <=? 9)%Z then digits_val r (acc * 10 + n)%Z else None
  end.
Definition sample_py_int (s : string) : option Z :=
  match s with EmptyString => None | _ => digits_val s 0 end.
Definition sample_py_float (s : string) : option float :=
  if String.eqb s "1.0" then Some 1%float else None.

(** A csv row of an event time split over columns, without a second. *)
Definition evtime_row : Columns.rowdict :=
  [(Some "year"%string, Columns.RStr "2009"); (Some "month"%string, Columns.RStr "4");
   (Some "day"%string, Columns.RStr "6"); (Some "hour"%string, Columns.RStr "1");
   (Some "minute"%string, Columns.RStr "32")].
(** The same row with a surplus value. *)
Definition evtime_long_row : Columns.rowdict :=
  evtime_row ++ [(None, Columns.RList ["7"%string])].
(** A header whose unit column is not spelled exactly [acceleration_unit]. *)
Definition pga_fields : list string := ["Pga"; "Acceleration_Unit"]%string.
Definition pga_row : Columns.rowdict :=
  [(Some "Pga"%string, Columns.RStr "1.0"); (Some "Acceleration_Unit"%string, Columns.RStr "g")].

(** A selection sample: a condition tokenizes to one name. *)
Definition sel_tokenize (s : string) : list Condition.token * Condition.tokend :=
  ([(Condition.NAME, s); (Condition.NEWLINE, ""%string); (Condition.ENDMARKER, ""%string)],
   Condition.Finished).
Definition sel_rows : list nat := [1; 2; 3; 4]%nat.
Definition sel_select (c : string) : exc + list nat := inr [2; 4]%nat.

(** A csv row with a [nan] pga. *)
Definition nan_row : list (string * Writer.pyval) := [("pga"%string, Writer.PFloat nan)].

(* ================================================================ *)
(** * Properties *)

(** ** Test vectors of the embedded library code *)

Example sha1_abc :
  Sha1.digest (bytes_of_string "abc") =
  [169; 153; 62; 54; 71; 6; 129; 106; 186; 62; 37; 113; 120; 80; 194; 108;
   156; 208; 216; 157].
Proof. vm_compute. reflexivity. Qed.

Example str_int_samples :
  Py.str_int 0 = "0"%string /\ Py.str_int (-1834567) = "-1834567"%string
  /\ Py.str_int 1000 = "1000"%string.
Proof. vm_compute. repeat split. Qed.

(** ** Float facts *)

(** IEEE multiplication is commutative. *)
Lemma fmul_comm (x y : float) : (x * y)%float = (y * x)%float.
Proof.
  apply Prim2SF_inj. rewrite !mul_spec. unfold SF64mul, SFmul.
  destruct (Prim2SF x), (Prim2SF y); try rewrite xorb_comm; try reflexivity.
  rewrite Pos.mul_comm, Z.add_comm. reflexivity.
Qed.

(** ** Identity digests *)

Lemma toint_spec_quantize (v : float) (d : nat) :
  Ids._toint v d = Ids.spec_quantize v d.
Proof.
  unfold Ids._toint, Ids.spec_quantize. rewrite fmul_comm.
  destruct (Py.round _); reflexivity.
Qed.

(** C1: the three digests of a row are computed from the fixed ordered
    tuples of the spec: event_id from (event longitude at 5 decimals,
    event latitude at 5, hypocenter depth at 3, event time), station_id
    from (station longitude at 5, station latitude at 5), record_id from
    (table name, pga at 0 decimals, then those six fields); quantizing is
    [round(v * 10^d)] with nan passed through. Hence rows with equal event
    fields get the same event_id, whatever their station fields. *)
Theorem get_ids_fixed_tuples :
  (forall tr db, Ids.get_ids tr db = Ids.spec_ids tr db) /\
  (forall tr1 tr2 db1 db2 e1 s1 r1 e2 s2 r2,
     Ids.event_longitude tr1 = Ids.event_longitude tr2 ->
     Ids.event_latitude tr1 = Ids.event_latitude tr2 ->
     Ids.hypocenter_depth tr1 = Ids.hypocenter_depth tr2 ->
     Ids.event_time tr1 = Ids.event_time tr2 ->
     Ids.get_ids tr1 db1 = Some (e1, s1, r1) ->
     Ids.get_ids tr2 db2 = Some (e2, s2, r2) -> e1 = e2).
Proof.
  assert (Heq : forall tr db, Ids.get_ids tr db = Ids.spec_ids tr db).
  { intros tr db. unfold Ids.get_ids, Ids.spec_ids. rewrite !toint_spec_quantize.
    destruct (Ids.spec_quantize (Ids.pga tr) 0);
    destruct (Ids.spec_quantize (Ids.event_longitude tr) 5);
    destruct (Ids.spec_quantize (Ids.event_latitude tr) 5);
    destruct (Ids.spec_quantize (Ids.hypocenter_depth tr) 3);
    destruct (Ids.spec_quantize (Ids.station_longitude tr) 5);
    destruct (Ids.spec_quantize (Ids.station_latitude tr) 5); reflexivity. }
  split; [exact Heq |].
  intros tr1 tr2 db1 db2 e1 s1 r1 e2 s2 r2 Hlon Hlat Hdep Htime H1 H2.
  rewrite Heq in H1, H2. unfold Ids.spec_ids in H1, H2.
  rewrite <- Hlon, <- Hlat, <- Hdep, <- Htime in H2.
  destruct (Ids.spec_quantize (Ids.event_longitude tr1) 5); try discriminate.
  destruct (Ids.spec_quantize (Ids.event_latitude tr1) 5); try discriminate.
  destruct (Ids.spec_quantize (Ids.hypocenter_depth tr1) 3); try discriminate.
  destruct (Ids.spec_quantize (Ids.station_longitude tr1) 5); try discriminate.
  destruct (Ids.spec_quantize (Ids.station_latitude tr1) 5); try discriminate.
  destruct (Ids.spec_quantize (Ids.pga tr1) 0); try discriminate.
  destruct (Ids.spec_quantize (Ids.station_longitude tr2) 5); try discriminate.
  destruct (Ids.spec_quantize (Ids.station_latitude tr2) 5); try discriminate.
  destruct (Ids.spec_quantize (Ids.pga tr2) 0); try discriminate.
  injection H1 as <- _ _. injection H2 as <- _ _. reflexivity.
Qed.

Lemma get_ids_fixed_tuples_witness :
  exists e s1 r1 s2 r2,
    Ids.get_ids row_a "esm" = Some (e, s1, r1) /\
    Ids.get_ids row_b "esm" = Some (e, s2, r2) /\ s1 <> s2.
Proof.
  destruct (Ids.get_ids row_a "esm") as [[[e1 s1] r1]|] eqn:Ha; [| vm_compute in Ha; discriminate].
  destruct (Ids.get_ids row_b "esm") as [[[e2 s2] r2]|] eqn:Hb; [| vm_compute in Hb; discriminate].
  pose proof (proj2 get_ids_fixed_tuples row_a row_b "esm"%string "esm"%string
                e1 s1 r1 e2 s2 r2 eq_refl eq_refl eq_refl eq_refl Ha Hb) as He.
  subst e2. exists e1, s1, r1, s2, r2. split; [reflexivity | split; [reflexivity |]].
  vm_compute in Ha, Hb. injection Ha as _ <- _. injection Hb as _ <- _. discriminate.
Defined.

(** C2: [_hash] is a total function of the rendered values: two calls whose
    values render to the same byte strings (in particular equal tuples, nan
    rendered as the text "nan") give the same digest, and every digest is
    20 bytes (160 bits) long. *)
Theorem hash_deterministic_20_bytes :
  (forall vs, length (Hash._hash vs) = 20%nat) /\
  (forall vs vs', map Hash._tobytestr vs = map Hash._tobytestr vs' ->
                  Hash._hash vs = Hash._hash vs').
Proof.
  split.
  - intros vs. unfold Hash._hash, Sha1.digest. reflexivity.
  - intros vs vs' H. unfold Hash._hash. rewrite H. reflexivity.
Qed.

Lemma hash_deterministic_20_bytes_witness :
  Hash._hash [Hash.HStr "esm"; Hash.HNan; Hash.HInt 1340000] =
  Hash._hash [Hash.HStr "esm"; Hash.HStr "nan"; Hash.HBytes "1340000"] /\
  length (Hash._hash [Hash.HStr "esm"; Hash.HNan; Hash.HInt 1340000]) = 20%nat.
Proof.
  split.
  - apply (proj2 hash_deterministic_20_bytes). vm_compute. reflexivity.
  - apply (proj1 hash_deterministic_20_bytes).
Defined.

(** ** The table writer *)
Module WriterFacts.
Import Writer.

Lemma set_keys tr k v : map fst (set tr k v) = map fst tr.
Proof.
  induction tr as [|[k' x] tr IH]; simpl; [reflexivity|].
  destruct (String.eqb k' k); simpl; rewrite IH; reflexivity.
Qed.

Lemma lookup_set_same tr k v : In k (map fst tr) -> lookup k (set tr k v) = Some v.
Proof.
  induction tr as [|[k' x] tr IH]; simpl; [tauto|].
  intros Hin. destruct (String.eqb k' k) eqn:E; simpl.
  - rewrite E. reflexivity.
  - rewrite E. apply IH. destruct Hin as [->|Hin]; [|exact Hin].
    rewrite String.eqb_refl in E. discriminate.
Qed.

Lemma lookup_set_other tr k c v : k <> c -> lookup c (set tr k v) = lookup c tr.
Proof.
  intros Hne. induction tr as [|[k' x] tr IH]; simpl; [reflexivity|].
  destruct (String.eqb k' k) eqn:E; simpl.
  - apply String.eqb_eq in E. subst k'.
    destruct (String.eqb k c) eqn:E2; [apply String.eqb_eq in E2; contradiction|].
    exact IH.
  - destruct (String.eqb k' c); [reflexivity | exact IH].
Qed.

Lemma count_occ_app_other (l : list string) c c' :
  c' <> c -> count_occ string_dec (l ++ [c']) c = count_occ string_dec l c.
Proof.
  intros H. rewrite count_occ_app. simpl.
  destruct (string_dec c' c); [contradiction | lia].
Qed.

Lemma count_occ_app_same (l : list string) c :
  count_occ string_dec (l ++ [c]) c = S (count_occ string_dec l c).
Proof.
  rewrite count_occ_app. simpl. destruct (string_dec c c); [lia | contradiction].
Qed.

(** A column's step leaves every other column's cell and counters alone. *)
Lemma write_col_other cast csvrow st col' co col :
  col' <> col ->
  let st' := write_col cast csvrow st (col', co) in
  map fst (w_row st') = map fst (w_row st) /\
  lookup col (w_row st') = lookup col (w_row st) /\
  count_occ string_dec (w_oob st') col = count_occ string_dec (w_oob st) col /\
  count_occ string_dec (w_missing st') col = count_occ string_dec (w_missing st) col.
Proof.
  intros Hne. unfold write_col.
  destruct (lookup col' csvrow) as [v|];
  [destruct (cast co v) as [x|];
   [destruct (min_value co) as [b1|];
    [destruct (any_lt x b1) as [[|]|]
    |]
   |]
  |]; simpl;
  try (destruct (max_value co) as [b2|]; [destruct (any_gt x b2) as [[|]|]|]; simpl);
  repeat rewrite set_keys; repeat rewrite lookup_set_other by exact Hne;
  repeat rewrite count_occ_app_other by exact Hne; repeat split.
Qed.

Lemma fold_write_other cast csvrow cols st col :
  ~ In col (map fst cols) ->
  let st' := fold_left (write_col cast csvrow) cols st in
  map fst (w_row st') = map fst (w_row st) /\
  lookup col (w_row st') = lookup col (w_row st) /\
  count_occ string_dec (w_oob st') col = count_occ string_dec (w_oob st) col /\
  count_occ string_dec (w_missing st') col = count_occ string_dec (w_missing st) col.
Proof.
  cbv zeta. revert st. induction cols as [|[c co] cols IH]; intros st Hnin;
    cbn [fold_left]; [tauto|].
  simpl in Hnin. assert (Hne : c <> col) by tauto.
  destruct (IH (write_col cast csvrow st (c, co))) as (H1 & H2 & H3 & H4); [tauto|].
  pose proof (write_col_other cast csvrow st c co col Hne) as G. cbv zeta in G.
  destruct G as (G1 & G2 & G3 & G4).
  rewrite H1, H2, H3, H4, G1, G2, G3, G4. tauto.
Qed.

Lemma any_lt_floats x es b :
  cell_floats x = Some es -> any_lt x b = Some (existsb (fun e => PrimFloat.ltb e b) es).
Proof. intros H. unfold any_lt. rewrite H. reflexivity. Qed.

Lemma any_gt_floats x es b :
  cell_floats x = Some es -> any_gt x b = Some (existsb (fun e => PrimFloat.ltb b e) es).
Proof. intros H. unfold any_gt. rewrite H. reflexivity. Qed.

(** The step of the column itself: min is checked first, then max. *)
Lemma write_col_own cast csvrow st col co v x es :
  In col (map fst (w_row st)) -> lookup col csvrow = Some v ->
  cast co v = Some x -> cell_floats x = Some es ->
  let st' := write_col cast csvrow st (col, co) in
  map fst (w_row st') = map fst (w_row st) /\
  ((exists b, min_value co = Some b /\ existsb (fun e => PrimFloat.ltb e b) es = true) ->
     lookup col (w_row st') = Some (dflt co) /\ w_oob st' = w_oob st ++ [col] /\
     w_missing st' = w_missing st) /\
  ((forall b, min_value co = Some b -> existsb (fun e => PrimFloat.ltb e b) es = false) ->
   (exists b, max_value co = Some b /\ existsb (fun e => PrimFloat.ltb b e) es = true) ->
     lookup col (w_row st') = Some (dflt co) /\ w_oob st' = w_oob st ++ [col] /\
     w_missing st' = w_missing st) /\
  ((forall b, min_value co = Some b -> existsb (fun e => PrimFloat.ltb e b) es = false) ->
   (forall b, max_value co = Some b -> existsb (fun e => PrimFloat.ltb b e) es = false) ->
     lookup col (w_row st') = Some x /\ w_oob st' = w_oob st /\ w_missing st' = w_missing st).
Proof.
  intros Hin Hv Hx Hes. cbv zeta. unfold write_col. rewrite Hv, Hx.
  assert (Hin' : In col (map fst (set (w_row st) col x))) by (rewrite set_keys; exact Hin).
  destruct (min_value co) as [lo|] eqn:Hlo; [rewrite (any_lt_floats _ _ lo Hes)|];
  destruct (max_value co) as [hi|] eqn:Hhi; try rewrite (any_gt_floats _ _ hi Hes);
  try (destruct (existsb (fun e => PrimFloat.ltb e lo) es) eqn:Elo);
  try (destruct (existsb (fun e => PrimFloat.ltb hi e) es) eqn:Ehi); simpl;
  rewrite ?set_keys; (split; [reflexivity|]);
  repeat split; intros;
  repeat match goal with
  | H : exists b, _ |- _ => destruct H as (? & ? & ?)
  | H : Some _ = Some _ |- _ => injection H as <-
  | H : None = Some _ |- _ => discriminate H
  | H : forall b, Some ?l = Some b -> _ |- _ => specialize (H l eq_refl)
  end;
  try congruence;
  try (apply lookup_set_same; assumption);
  try (apply lookup_set_same; rewrite set_keys; assumption).
Qed.

Lemma defaults_keys cols : map fst (defaults cols) = map fst cols.
Proof. unfold defaults. rewrite map_map. reflexivity. Qed.

Lemma count_occ_zero_iff (l : list string) c : count_occ string_dec l c = 0%nat <-> ~ In c l.
Proof. split; [apply count_occ_not_In | apply count_occ_not_In]. Qed.

(** The fate of one column in [_writerow], for a schema with unique names. *)
Lemma writerow_column cast cols csvrow dbname tr miss oob col co v x es :
  NoDup (map fst cols) -> In (col, co) cols ->
  col <> "event_id"%string -> col <> "station_id"%string -> col <> "record_id"%string ->
  lookup col csvrow = Some v -> cast co v = Some x -> cell_floats x = Some es ->
  _writerow cast cols csvrow dbname = inr (tr, miss, oob) ->
  ((exists b, min_value co = Some b /\ existsb (fun e => PrimFloat.ltb e b) es = true) ->
     lookup col tr = Some (dflt co) /\ count_occ string_dec oob col = 1%nat /\ ~ In col miss) /\
  ((forall b, min_value co = Some b -> existsb (fun e => PrimFloat.ltb e b) es = false) ->
   (exists b, max_value co = Some b /\ existsb (fun e => PrimFloat.ltb b e) es = true) ->
     lookup col tr = Some (dflt co) /\ count_occ string_dec oob col = 1%nat /\ ~ In col miss) /\
  ((forall b, min_value co = Some b -> existsb (fun e => PrimFloat.ltb e b) es = false) ->
   (forall b, max_value co = Some b -> existsb (fun e => PrimFloat.ltb b e) es = false) ->
     lookup col tr = Some x /\ ~ In col oob /\ ~ In col miss).
Proof.
  intros Hnd Hin Hev Hst Hrec Hv Hx Hes Hw.
  destruct (in_split _ _ Hin) as (pre & post & ->).
  rewrite map_app in Hnd. simpl in Hnd.
  pose proof (NoDup_remove_2 _ _ _ Hnd) as Hnin. rewrite in_app_iff in Hnin.
  unfold _writerow in Hw. rewrite fold_left_app in Hw. cbn [fold_left] in Hw.
  set (st0 := {| w_row := defaults (pre ++ (col, co) :: post); w_missing := []; w_oob := [] |}) in Hw.
  set (stA := fold_left (write_col cast csvrow) pre st0) in Hw.
  set (stB := write_col cast csvrow stA (col, co)) in Hw.
  set (stC := fold_left (write_col cast csvrow) post stB) in Hw.
  pose proof (fold_write_other cast csvrow pre st0 col ltac:(tauto)) as HA.
  pose proof (fold_write_other cast csvrow post stB col ltac:(tauto)) as HC.
  cbv zeta in HA, HC. fold stA in HA. fold stC in HC.
  destruct HA as (A1 & A2 & A3 & A4). destruct HC as (C1 & C2 & C3 & C4).
  assert (HinA : In col (map fst (w_row stA))).
  { rewrite A1. simpl. rewrite defaults_keys, map_app, in_app_iff. simpl. tauto. }
  pose proof (write_col_own cast csvrow stA col co v x es HinA Hv Hx Hes) as HB.
  cbv zeta in HB. fold stB in HB. destruct HB as (_ & B1 & B2 & B3).
  destruct (Ids.get_ids (idrow_of (w_row stC)) dbname) as [[[evid staid] recid]|];
    [|discriminate].
  injection Hw as <- <- <-.
  rewrite !lookup_set_other by congruence. rewrite C2.
  assert (H0o : count_occ string_dec (w_oob stA) col = 0%nat) by (rewrite A3; reflexivity).
  assert (H0m : count_occ string_dec (w_missing stA) col = 0%nat) by (rewrite A4; reflexivity).
  rewrite <- !count_occ_zero_iff. rewrite C3, C4.
  split; [|split].
  - intros H. destruct (B1 H) as (-> & -> & ->).
    rewrite count_occ_app_same, H0o, H0m. auto.
  - intros H1 H2. destruct (B2 H1 H2) as (-> & -> & ->).
    rewrite count_occ_app_same, H0o, H0m. auto.
  - intros H1 H2. destruct (B3 H1 H2) as (-> & -> & ->). auto.
Qed.

Fixpoint nodupb (l : list string) : bool :=
  match l with
  | [] => true
  | x :: r => negb (existsb (String.eqb x) r) && nodupb r
  end.

Lemma nodupb_NoDup l : nodupb l = true -> NoDup l.
Proof.
  induction l as [|x r IH]; simpl; intros H; constructor.
  - apply andb_true_iff in H. destruct H as [H _]. intros Hin.
    apply negb_true_iff in H. rewrite <- not_true_iff_false in H. apply H.
    apply existsb_exists. exists x. split; [exact Hin | apply String.eqb_refl].
  - apply IH. apply andb_true_iff in H. tauto.
Qed.

Lemma gm_columns_nodup : NoDup (map fst gm_columns).
Proof. apply nodupb_NoDup. vm_compute. reflexivity. Qed.




End WriterFacts.



(** ** The condition compiler *)

Module ConditionFacts.
Import Condition.
Local Open Scope string_scope.
Local Open Scope list_scope.

Definition st0 : scanst := {| result := []; strings_indices := []; nan_indices := [] |}.

Lemma scan_token_result st tok st' :
  scan_token st tok = inr st' -> result st' = result st ++ [tok].
Proof.
  destruct tok as [tt ts]. unfold scan_token.
  destruct (_ && _); [discriminate|]. destruct (_ && _); [discriminate|].
  destruct tt; try (intros H; injection H as <-; reflexivity).
  - destruct (in_strs ts _ && _); [|intros H; injection H as <-; reflexivity].
    destruct (nth_error _ _) as [[[] ?]|]; try (intros H; injection H as <-; reflexivity);
    destruct (nth_error _ _) as [[[] ?]|]; try (intros H; injection H as <-; reflexivity).
    destruct (nan_operators _); [intros H; injection H as <-; reflexivity | discriminate].
  - destruct ts as [|c ?]; [discriminate|].
    destruct (negb _); intros H; injection H as <-; reflexivity.
Qed.

Lemma scan_result st toks st' : scan st toks = inr st' -> result st' = result st ++ toks.
Proof.
  revert st. induction toks as [|tok rest IH]; simpl; intros st H.
  - injection H as <-. rewrite app_nil_r. reflexivity.
  - destruct (scan_token st tok) as [e|st1] eqn:E; [discriminate|].
    rewrite (IH _ H), (scan_token_result _ _ _ E), <- app_assoc. reflexivity.
Qed.

Lemma scan_app st l1 l2 :
  scan st (l1 ++ l2) = match scan st l1 with inl e => inl e | inr st' => scan st' l2 end.
Proof.
  revert st. induction l1 as [|tok rest IH]; simpl; intros st; [reflexivity|].
  destruct (scan_token st tok); [reflexivity | apply IH].
Qed.

Lemma last_tokenstr_snoc l t : last_tokenstr (l ++ [t]) = snd t.
Proof. unfold last_tokenstr. rewrite rev_app_distr. reflexivity. Qed.

(** The run fails when the token after [pre] fails its step, whatever
    state the scan of [pre] reached. *)
Lemma parse_fails_at bl ut pre tok post fin :
  (forall st, result st = pre -> exists e, scan_token st tok = inl e) ->
  exists e, _parse_condition bl ut (pre ++ tok :: post) fin = inl e.
Proof.
  intros Hstep. unfold _parse_condition. fold st0. rewrite scan_app.
  destruct (scan st0 pre) as [e|st] eqn:E; [eauto|].
  apply scan_result in E. simpl in E.
  destruct (Hstep st E) as [e He]. simpl. rewrite He. eauto.
Qed.

(** The two adjacency checks of the loop. *)
Lemma scan_token_logical st tok :
  (in_strs (snd tok) ["&"; "|"] && negb (last_tokenstr (result st) =? ")")) = true \/
  (in_strs (last_tokenstr (result st)) ["~"; "|"; "&"] &&
   negb (in_strs (snd tok) ["~"; "("])) = true ->
  exists e, scan_token st tok = inl e.
Proof.
  destruct tok as [tt ts]. cbn [snd]. unfold scan_token.
  intros [H | H]; [rewrite H; eauto |].
  destruct (in_strs ts ["&"; "|"] && negb (last_tokenstr (result st) =? ")"));
    [eauto | rewrite H; eauto].
Qed.

Lemma nth_error_snoc_split {A} (l : list A) i a b :
  nth_error l i = Some a -> nth_error l (S i) = Some b ->
  exists pre post, l = pre ++ [a] ++ b :: post /\ length pre = i.
Proof.
  intros Ha Hb. destruct (nth_error_split l (S i) Hb) as (l1 & post & -> & Hlen).
  destruct (exists_last (l := l1)) as (pre & a' & ->).
  { intros ->. discriminate. }
  rewrite length_app in Hlen. simpl in Hlen.
  assert (length pre = i) by lia.
  rewrite <- app_assoc in Ha. rewrite nth_error_app2 in Ha by lia.
  replace (i - length pre)%nat with O in Ha by lia. simpl in Ha. injection Ha as ->.
  exists pre, post. rewrite <- app_assoc. split; [reflexivity | assumption].
Qed.

End ConditionFacts.

Module NanFacts.
Import Condition ConditionFacts.
Local Open Scope string_scope.
Local Open Scope list_scope.
Local Open Scope nat_scope.

Definition nan_spellings : list string := ["nan"; "NAN"; "NaN"].

Lemma set_str_spec l : forall i s l', set_str l i s = inr l' ->
  length l' = length l /\
  forall k, nth_error l' k =
    if Nat.eqb k i then option_map (fun tk => (fst tk, s)) (nth_error l i) else nth_error l k.
Proof.
  induction l as [|[t0 s0] rest IH]; intros i s l' H; [destruct i; discriminate|].
  destruct i as [|i].
  - cbn in H. injection H as <-. split; [reflexivity|]. intros [|k]; reflexivity.
  - cbn [set_str] in H. destruct (set_str rest i s) as [e|rest'] eqn:E; [discriminate|].
    injection H as <-. destruct (IH _ _ _ E) as [L N].
    split; [cbn; rewrite L; reflexivity|].
    intros [|k]; [reflexivity|]. cbn [nth_error Nat.eqb]. apply N.
Qed.

Lemma set_str_type l i s l' k : set_str l i s = inr l' ->
  option_map fst (nth_error l' k) = option_map fst (nth_error l k).
Proof.
  intros H. destruct (set_str_spec _ _ _ _ H) as [_ N]. rewrite N.
  destruct (Nat.eqb_spec k i) as [->|]; [destruct (nth_error l i); reflexivity | reflexivity].
Qed.

Lemma set_str_other l i s l' k : set_str l i s = inr l' -> k <> i ->
  nth_error l' k = nth_error l k.
Proof.
  intros H Hk. destruct (set_str_spec _ _ _ _ H) as [_ N]. rewrite N.
  apply Nat.eqb_neq in Hk. rewrite Hk. reflexivity.
Qed.

Lemma set_str_same l i s l' : set_str l i s = inr l' ->
  nth_error l' i = option_map (fun tk => (fst tk, s)) (nth_error l i).
Proof.
  intros H. destruct (set_str_spec _ _ _ _ H) as [_ N]. rewrite N, Nat.eqb_refl. reflexivity.
Qed.

Lemma rewrite_strings_spec bl idx : forall res res', rewrite_strings bl res idx = inr res' ->
  (forall k, option_map fst (nth_error res' k) = option_map fst (nth_error res k)) /\
  (forall k, ~ In k idx -> nth_error res' k = nth_error res k).
Proof.
  induction idx as [|i rest IH]; intros res res' H; cbn [rewrite_strings] in H.
  - injection H as <-. split; reflexivity.
  - destruct (get_str res i) as [e|ts]; [discriminate|].
    destruct (bl ts) as [s|]; [|discriminate].
    destruct (set_str res i s) as [e|r1] eqn:E; [discriminate|].
    destruct (IH _ _ H) as [T F]. split.
    + intros k. rewrite T. apply (set_str_type _ _ _ _ _ E).
    + intros k Hk. rewrite F by (intros Hin; apply Hk; right; exact Hin).
      apply (set_str_other _ _ _ _ _ E). intros ->. apply Hk. left. reflexivity.
Qed.

Lemma rewrite_nans_spec idx : forall res res', rewrite_nans res idx = inr res' ->
  (forall k, option_map fst (nth_error res' k) = option_map fst (nth_error res k)) /\
  (forall k, (forall j, In j idx -> k <> j /\ k <> j - 1) -> nth_error res' k = nth_error res k).
Proof.
  induction idx as [|i rest IH]; intros res res' H; cbn [rewrite_nans] in H.
  - injection H as <-. split; reflexivity.
  - destruct (get_str res (i - 2)) as [e|v]; [discriminate|].
    destruct (get_str res (i - 1)) as [e|o]; [discriminate|].
    destruct (nan_operators o) as [o'|]; [|discriminate].
    destruct (set_str res (i - 1) o') as [e|r1] eqn:E1; [discriminate|].
    destruct (set_str r1 i v) as [e|r2] eqn:E2; [discriminate|].
    destruct (IH _ _ H) as [T F]. split.
    + intros k. rewrite T, (set_str_type _ _ _ _ _ E2). apply (set_str_type _ _ _ _ _ E1).
    + intros k Hk. destruct (Hk i (or_introl eq_refl)) as [K1 K2].
      rewrite F by (intros j Hj; apply Hk; right; exact Hj).
      rewrite (set_str_other _ _ _ _ _ E2) by exact K1.
      apply (set_str_other _ _ _ _ _ E1). exact K2.
Qed.

Lemma rewrite_nans_app l1 l2 : forall res,
  rewrite_nans res (l1 ++ l2) =
  match rewrite_nans res l1 with inl e => inl e | inr r => rewrite_nans r l2 end.
Proof.
  induction l1 as [|i rest IH]; intros res; [reflexivity|]. cbn [app rewrite_nans].
  destruct (get_str res (i - 2)), (get_str res (i - 1)); try reflexivity.
  destruct (nan_operators _); try reflexivity.
  destruct (set_str res (i - 1) _); try reflexivity.
  destruct (set_str _ i _); [reflexivity | apply IH].
Qed.


Lemma scan_token_cases st tt ts st' :
  scan_token st (tt, ts) = inr st' ->
  result st' = result st ++ [(tt, ts)] /\
  (strings_indices st' = strings_indices st \/
   tt = STRING /\ strings_indices st' = strings_indices st ++ [length (result st)]) /\
  (nan_indices st' = nan_indices st \/
   tt = NAME /\ in_strs ts ["nan"; "NAN"; "NaN"] = true /\ 2 <= length (result st) /\
   (exists o, nth_error (result st) (length (result st) - 1) = Some (OP, o)) /\
   nan_indices st' = nan_indices st ++ [length (result st)]).
Proof.
  unfold scan_token.
  destruct (_ && _); [discriminate|]. destruct (_ && _); [discriminate|].
  destruct tt; try (intros H; injection H as <-; cbn; split; [reflexivity | split; left; reflexivity]).
  - destruct (in_strs ts _ && _) eqn:Ec;
      [| intros H; injection H as <-; cbn; split; [reflexivity | split; left; reflexivity]].
    apply andb_prop in Ec as [Ec1 Ec2]. apply Nat.ltb_lt in Ec2.
    destruct (nth_error _ _) as [[[] ?]|];
      try (intros H; injection H as <-; cbn; split; [reflexivity | split; left; reflexivity]);
    destruct (nth_error (result st) (length (result st) - 1)) as [[[] o]|] eqn:E1;
      try (intros H; injection H as <-; cbn; split; [reflexivity | split; left; reflexivity]).
    destruct (nan_operators _); [| discriminate].
    intros H; injection H as <-; cbn. split; [reflexivity|]. split; [left; reflexivity|].
    right. split; [reflexivity|]. split; [exact Ec1|]. split; [lia|]. split; [eauto | reflexivity].
  - destruct ts as [|c ?]; [discriminate|].
    destruct (negb _); intros H; injection H as <-; cbn; split; try reflexivity.
    + split; [right; split; reflexivity | left; reflexivity].
    + split; left; reflexivity.
Qed.

Lemma nth_error_snoc_old {A} (R : list A) t j a :
  nth_error R j = Some a -> nth_error (R ++ [t]) j = Some a.
Proof.
  intros H. rewrite nth_error_app1; [exact H|]. apply nth_error_Some. rewrite H. discriminate.
Qed.

Lemma nth_error_snoc_new {A} (R : list A) t : nth_error (R ++ [t]) (length R) = Some t.
Proof. rewrite nth_error_app2 by lia. rewrite Nat.sub_diag. reflexivity. Qed.

Lemma NoDup_snoc (l : list nat) a : NoDup l -> ~ In a l -> NoDup (l ++ [a]).
Proof.
  induction l as [|b l IH]; intros H Ha; cbn; [constructor; [intros []|constructor]|].
  inversion H as [|? ? Hb Hl]; subst. constructor.
  - rewrite in_app_iff. intros [Hin|[->|[]]]; [contradiction | apply Ha; left; reflexivity].
  - apply IH; [exact Hl|]. intros Hin. apply Ha. right. exact Hin.
Qed.

(** What the scan records: string indices point at STRING tokens, nan
    indices (each once) at a nan spelling of type NAME after an OP. *)
Lemma scan_inv toks : forall st st', scan st toks = inr st' ->
  ((forall j, In j (strings_indices st) -> exists s, nth_error (result st) j = Some (STRING, s)) /\
   NoDup (nan_indices st) /\
   (forall j, In j (nan_indices st) -> 2 <= j /\
      (exists s, nth_error (result st) j = Some (NAME, s) /\
                 in_strs s ["nan"; "NAN"; "NaN"] = true) /\
      (exists o, nth_error (result st) (j - 1) = Some (OP, o)))) ->
  ((forall j, In j (strings_indices st') -> exists s, nth_error (result st') j = Some (STRING, s)) /\
   NoDup (nan_indices st') /\
   (forall j, In j (nan_indices st') -> 2 <= j /\
      (exists s, nth_error (result st') j = Some (NAME, s) /\
                 in_strs s ["nan"; "NAN"; "NaN"] = true) /\
      (exists o, nth_error (result st') (j - 1) = Some (OP, o)))).
Proof.
  induction toks as [|[tt ts] rest IH]; intros st st' H Inv; cbn [scan] in H.
  - injection H as <-. exact Inv.
  - destruct (scan_token st (tt, ts)) as [e|st1] eqn:E; [discriminate|].
    destruct (scan_token_cases _ _ _ _ E) as (HR & HS & HN).
    destruct Inv as (IS & ND & IN).
    assert (Inv1 :
      (forall j, In j (strings_indices st1) ->
         exists s, nth_error (result st1) j = Some (STRING, s)) /\
      NoDup (nan_indices st1) /\
      (forall j, In j (nan_indices st1) -> 2 <= j /\
         (exists s, nth_error (result st1) j = Some (NAME, s) /\
                    in_strs s ["nan"; "NAN"; "NaN"] = true) /\
         (exists o, nth_error (result st1) (j - 1) = Some (OP, o)))).
    { rewrite HR. split; [|split].
      - intros j Hj. destruct HS as [HS | [-> HS]]; rewrite HS in Hj.
        + destruct (IS j Hj) as [s Hs]. exists s. apply nth_error_snoc_old. exact Hs.
        + apply in_app_iff in Hj as [Hj | [<- | []]].
          * destruct (IS j Hj) as [s Hs]. exists s. apply nth_error_snoc_old. exact Hs.
          * exists ts. apply nth_error_snoc_new.
      - destruct HN as [HN | (_ & _ & _ & _ & HN)]; rewrite HN; [exact ND|].
        apply NoDup_snoc; [exact ND|]. intros Hin.
        destruct (IN _ Hin) as (_ & (s & Hs & _) & _).
        assert (length (result st) < length (result st)); [|lia].
        apply nth_error_Some. rewrite Hs. discriminate.
      - intros j Hj. destruct HN as [HN | (-> & Hsp & H2 & (o & Ho) & HN)]; rewrite HN in Hj.
        + destruct (IN j Hj) as (J2 & (s & Hs & Hsp0) & (o0 & Ho0)).
          split; [exact J2|]. split; [exists s; split; [apply nth_error_snoc_old; exact Hs | exact Hsp0]|].
          exists o0. apply nth_error_snoc_old. exact Ho0.
        + apply in_app_iff in Hj as [Hj | [<- | []]].
          * destruct (IN j Hj) as (J2 & (s & Hs & Hsp0) & (o0 & Ho0)).
            split; [exact J2|].
            split; [exists s; split; [apply nth_error_snoc_old; exact Hs | exact Hsp0]|].
            exists o0. apply nth_error_snoc_old. exact Ho0.
          * split; [exact H2|]. split; [exists ts; split; [apply nth_error_snoc_new | exact Hsp]|].
            exists o. apply nth_error_snoc_old. exact Ho. }
    exact (IH _ _ H Inv1).
Qed.

Lemma scan_nan_prefix toks : forall st st', scan st toks = inr st' ->
  exists extra, nan_indices st' = nan_indices st ++ extra.
Proof.
  induction toks as [|[tt ts] rest IH]; intros st st' H; cbn [scan] in H.
  - injection H as <-. exists []. rewrite app_nil_r. reflexivity.
  - destruct (scan_token st (tt, ts)) as [e|st1] eqn:E; [discriminate|].
    destruct (scan_token_cases _ _ _ _ E) as (_ & _ & HN).
    destruct (IH _ _ H) as (extra & Hx).
    destruct HN as [HN | (_ & _ & _ & _ & HN)]; rewrite HN in Hx.
    + exists extra. exact Hx.
    + exists ([length (result st)] ++ extra). rewrite Hx, app_assoc. reflexivity.
Qed.

(** The step at a nan spelling after [NAME OP] records its index, and
    succeeds only for an operator of [nan_operators]. *)
Lemma scan_token_nan_hit st x op n st' :
  2 <= length (result st) ->
  nth_error (result st) (length (result st) - 2) = Some (NAME, x) ->
  nth_error (result st) (length (result st) - 1) = Some (OP, op) ->
  in_strs n ["nan"; "NAN"; "NaN"] = true ->
  scan_token st (NAME, n) = inr st' ->
  (exists op', nan_operators op = Some op') /\ In (length (result st)) (nan_indices st').
Proof.
  intros L H2 H1 Hn. unfold scan_token. cbv zeta.
  destruct (_ && _); [discriminate|]. destruct (_ && _); [discriminate|].
  rewrite Hn. replace (Nat.ltb 1 (length (result st))) with true
    by (symmetry; apply Nat.ltb_lt; lia).
  cbn [andb]. rewrite H2, H1.
  destruct (nan_operators op) as [op'|]; [|discriminate].
  intros H. injection H as <-. cbn. split; [eauto|].
  apply in_app_iff. right. left. reflexivity.
Qed.

Lemma types_length (a b : list token) :
  (forall k, option_map fst (nth_error a k) = option_map fst (nth_error b k)) ->
  length a = length b.
Proof.
  intros T. destruct (Nat.lt_trichotomy (length a) (length b)) as [L|[L|L]]; [|exact L|].
  - specialize (T (length a)). rewrite (proj2 (nth_error_None a _) (le_n _)) in T.
    destruct (nth_error b (length a)) eqn:E; [discriminate|].
    apply nth_error_None in E. lia.
  - specialize (T (length b)). rewrite (proj2 (nth_error_None b _) (le_n _)) in T.
    destruct (nth_error a (length b)) eqn:E; [discriminate|].
    apply nth_error_None in E. lia.
Qed.

(** A successful run: the scan, then the two rewriting passes. *)
Lemma parse_inr bl ut toks fin s :
  _parse_condition bl ut toks fin = inr s ->
  exists st res1 res2,
    scan st0 toks = inr st /\ result st = toks /\
    rewrite_strings bl toks (strings_indices st) = inr res1 /\
    rewrite_nans res1 (nan_indices st) = inr res2 /\ s = ut res2.
Proof.
  unfold _parse_condition. fold st0.
  destruct (scan st0 toks) as [e|st] eqn:Es; [discriminate|].
  pose proof (scan_result _ _ _ Es) as HR. cbn in HR.
  destruct fin as [|[]]; [| |discriminate];
    (destruct (in_strs _ _); [discriminate|]);
    rewrite HR;
    (destruct (rewrite_strings bl toks (strings_indices st)) as [e|res1] eqn:E1; [discriminate|]);
    (destruct (rewrite_nans res1 (nan_indices st)) as [e|res2] eqn:E2; [discriminate|]);
    intros H; injection H as <-; exists st, res1, res2; auto.
Qed.

Lemma scan_st0_inv toks st : scan st0 toks = inr st ->
  (forall j, In j (strings_indices st) -> exists s, nth_error toks j = Some (STRING, s)) /\
  NoDup (nan_indices st) /\
  (forall j, In j (nan_indices st) -> 2 <= j /\
     (exists s, nth_error toks j = Some (NAME, s) /\ in_strs s ["nan"; "NAN"; "NaN"] = true) /\
     (exists o, nth_error toks (j - 1) = Some (OP, o))).
Proof.
  intros H. pose proof (scan_result _ _ _ H) as HR. cbn in HR. rewrite <- HR.
  apply (scan_inv _ _ _ H). cbn. split; [intros _ []|]. split; [constructor|]. intros _ [].
Qed.


End NanFacts.

(** C5: the condition compiler fails on every token list in which a token
    [&] or [|] does not come right after a [)], and on every token list in
    which the token right after [&], [|], or a [~] that itself comes after
    [&] or [|], is neither [~] nor [(]; a failing run returns its error and
    no rewritten condition. The tokens of ["(pga<=0.5)&(pgv>9.5)"] are
    accepted unchanged and those of ["pga<=0.5 & pgv>9.5"] are rejected. *)
Theorem parse_condition_logical_adjacency (bl : string -> option string)
    (ut : list Condition.token -> string) :
  (forall toks fin i t s,
     nth_error toks i = Some (t, s) -> (s = "&"%string \/ s = "|"%string) ->
     ~ (exists j t', i = S j /\ nth_error toks j = Some (t', ")"%string)) ->
     exists e, Condition._parse_condition bl ut toks fin = inl e) /\
  (forall toks fin i t s t2 s2,
     nth_error toks i = Some (t, s) ->
     (s = "&"%string \/ s = "|"%string \/
      (s = "~"%string /\ exists j t' s', i = S j /\ nth_error toks j = Some (t', s') /\
                                        (s' = "&"%string \/ s' = "|"%string))) ->
     nth_error toks (S i) = Some (t2, s2) -> s2 <> "~"%string -> s2 <> "("%string ->
     exists e, Condition._parse_condition bl ut toks fin = inl e) /\
  Condition._parse_condition bl ut Condition.toks_paren Condition.Finished =
    inr (ut Condition.toks_paren) /\
  (exists e, Condition._parse_condition bl ut Condition.toks_noparen Condition.Finished = inl e).
Proof.
  split; [|split; [|split]].
  - intros toks fin i t s Hi Hs Hprev.
    destruct (nth_error_split toks i Hi) as (pre & post & -> & Hlen).
    apply ConditionFacts.parse_fails_at. intros st Hr.
    apply ConditionFacts.scan_token_logical. left. cbn [snd]. rewrite Hr.
    apply andb_true_iff. split.
    + destruct Hs as [-> | ->]; reflexivity.
    + apply negb_true_iff, String.eqb_neq. intros Hlast.
      destruct pre as [|p0 pre'] using rev_ind; [discriminate|].
      rewrite ConditionFacts.last_tokenstr_snoc in Hlast.
      apply Hprev. exists (length pre'), (fst p0). split.
      * rewrite <- Hlen, length_app. simpl. lia.
      * rewrite <- app_assoc, nth_error_app2, Nat.sub_diag by lia. simpl.
        destruct p0; simpl in Hlast; subst; reflexivity.
  - intros toks fin i t s t2 s2 Hi Hs Hi2 Hn1 Hn2.
    destruct (ConditionFacts.nth_error_snoc_split toks i _ _ Hi Hi2)
      as (pre & post & -> & _).
    rewrite app_assoc. apply ConditionFacts.parse_fails_at. intros st Hr.
    apply ConditionFacts.scan_token_logical. right.
    rewrite Hr, ConditionFacts.last_tokenstr_snoc. cbn [snd].
    apply andb_true_iff. split.
    + destruct Hs as [-> | [-> | [-> _]]]; reflexivity.
    + unfold Condition.in_strs. simpl.
      rewrite (proj2 (String.eqb_neq _ _) Hn1), (proj2 (String.eqb_neq _ _) Hn2).
      reflexivity.
  - vm_compute. reflexivity.
  - eexists. vm_compute. reflexivity.
Qed.

Lemma parse_condition_logical_adjacency_witness :
  exists e, Condition._parse_condition (fun s => Some s) Condition.join_tokens
              Condition.toks_noparen Condition.Finished = inl e.
Proof.
  apply (proj1 (parse_condition_logical_adjacency (fun s => Some s) Condition.join_tokens)
           Condition.toks_noparen Condition.Finished 3%nat Condition.OP "&"%string eq_refl
           (or_introl eq_refl)).
  intros (j & t' & Hj & Hn). injection Hj as <-. discriminate.
Defined.

(** C4 (as the code has it): only the three spellings [nan], [NAN] and [NaN]
    are recognised, wherever the comparison stands in the condition. For
    tokens [<name> <op> <nan>] at positions [i], [i+1], [i+2] of the
    condition, with a name that is not itself a nan spelling: an operator
    other than [==] and [!=] makes the parse fail; a successful parse has
    swapped the operator ([!=] to [==], [==] to [!=]) and replaced the nan
    operand by the name. A comparison with any other name (such as the
    spelling [Nan]) keeps its three tokens unchanged. *)
Theorem parse_condition_nan_spellings (bl : string -> option string)
    (ut : list Condition.token -> string) (toks : list Condition.token)
    (fin : Condition.tokend) (i : nat) (x op n : string) :
  nth_error toks i = Some (Condition.NAME, x) ->
  nth_error toks (S i) = Some (Condition.OP, op) ->
  nth_error toks (S (S i)) = Some (Condition.NAME, n) ->
  Condition.in_strs x ["nan"; "NAN"; "NaN"]%string = false ->
  ((n = "nan"%string \/ n = "NAN"%string \/ n = "NaN"%string) ->
     (op <> "=="%string -> op <> "!="%string ->
        exists e, Condition._parse_condition bl ut toks fin = inl e) /\
     (forall s, Condition._parse_condition bl ut toks fin = inr s ->
        (op = "=="%string \/ op = "!="%string) /\
        exists res, s = ut res /\ length res = length toks /\
          nth_error res i = Some (Condition.NAME, x) /\
          nth_error res (S i) =
            Some (Condition.OP, if String.eqb op "==" then "!="%string else "=="%string) /\
          nth_error res (S (S i)) = Some (Condition.NAME, x))) /\
  (Condition.in_strs n ["nan"; "NAN"; "NaN"]%string = false ->
     forall s, Condition._parse_condition bl ut toks fin = inr s ->
        exists res, s = ut res /\ length res = length toks /\
          nth_error res i = Some (Condition.NAME, x) /\
          nth_error res (S i) = Some (Condition.OP, op) /\
          nth_error res (S (S i)) = Some (Condition.NAME, n)).
Proof.
  intros H0 H1 H2 Hx.
  (* positions of STRING tokens are none of the three *)
  assert (Hstr : forall st res1, Condition.scan ConditionFacts.st0 toks = inr st ->
            Condition.rewrite_strings bl toks (Condition.strings_indices st) = inr res1 ->
            (forall k, option_map fst (nth_error res1 k) = option_map fst (nth_error toks k)) /\
            nth_error res1 i = Some (Condition.NAME, x) /\
            nth_error res1 (S i) = Some (Condition.OP, op) /\
            nth_error res1 (S (S i)) = Some (Condition.NAME, n)).
  { intros st res1 Es E1.
    destruct (NanFacts.scan_st0_inv _ _ Es) as (IS & _ & _).
    destruct (NanFacts.rewrite_strings_spec _ _ _ _ E1) as [T F].
    assert (NS : forall k tt s, nth_error toks k = Some (tt, s) -> tt <> Condition.STRING ->
                   nth_error res1 k = Some (tt, s)).
    { intros k tt s Hk Htt. rewrite F; [exact Hk|]. intros Hin.
      destruct (IS k Hin) as [s' Hs']. rewrite Hk in Hs'. injection Hs' as -> _.
      apply Htt. reflexivity. }
    split; [exact T|].
    split; [apply NS; [exact H0 | discriminate]|].
    split; [apply NS; [exact H1 | discriminate] | apply NS; [exact H2 | discriminate]]. }
  split.
  - intros Hn. split.
    + (* another operator: the step at the nan token fails *)
      intros Ho1 Ho2.
      destruct (nth_error_split toks (S (S i)) H2) as (l1 & l2 & -> & Hl).
      apply ConditionFacts.parse_fails_at. intros st Hst.
      assert (A : nth_error l1 i = Some (Condition.NAME, x)).
      { rewrite nth_error_app1 in H0 by lia. exact H0. }
      assert (B : nth_error l1 (S i) = Some (Condition.OP, op)).
      { rewrite nth_error_app1 in H1 by lia. exact H1. }
      unfold Condition.scan_token. cbv zeta.
      destruct (_ && _); [eauto|]. destruct (_ && _); [eauto|].
      replace (Condition.in_strs n ["nan"; "NAN"; "NaN"]%string) with true
        by (destruct Hn as [-> | [-> | ->]]; reflexivity).
      rewrite Hst, Hl. cbn [andb Nat.ltb Nat.leb Nat.sub].
      rewrite Nat.sub_0_r, A, B.
      unfold Condition.nan_operators.
      rewrite (proj2 (String.eqb_neq _ _) Ho1), (proj2 (String.eqb_neq _ _) Ho2). eauto.
    + intros s Hs.
      destruct (NanFacts.parse_inr _ _ _ _ _ Hs) as (st & res1 & res2 & Es & HR & E1 & E2 & ->).
      destruct (Hstr _ _ Es E1) as (T1 & R0 & R1 & R2).
      destruct (NanFacts.scan_st0_inv _ _ Es) as (_ & ND & IN).
      (* the index of the nan token is recorded *)
      destruct (nth_error_split toks (S (S i)) H2) as (l1 & l2 & Hsplit & Hl).
      assert (Hin : (exists op', Condition.nan_operators op = Some op') /\
                    In (S (S i)) (Condition.nan_indices st)).
      { rewrite Hsplit, ConditionFacts.scan_app in Es.
        destruct (Condition.scan ConditionFacts.st0 l1) as [e|st1] eqn:Es1; [discriminate|].
        cbn [Condition.scan] in Es.
        destruct (Condition.scan_token st1 (Condition.NAME, n)) as [e|st2] eqn:Es2;
          [discriminate|].
        pose proof (ConditionFacts.scan_result _ _ _ Es1) as HR1. cbn in HR1.
        assert (L1 : length (Condition.result st1) = S (S i)) by (rewrite HR1; exact Hl).
        destruct (NanFacts.scan_token_nan_hit st1 x op n st2) as [Hop Hin2].
        - lia.
        - rewrite L1, HR1. replace (S (S i) - 2)%nat with i by lia.
          rewrite Hsplit, nth_error_app1 in H0 by lia. exact H0.
        - rewrite L1, HR1. replace (S (S i) - 1)%nat with (S i) by lia.
          rewrite Hsplit, nth_error_app1 in H1 by lia. exact H1.
        - destruct Hn as [-> | [-> | ->]]; reflexivity.
        - exact Es2.
        - split; [exact Hop|]. rewrite L1 in Hin2.
          destruct (NanFacts.scan_nan_prefix _ _ _ Es) as (extra & ->).
          apply in_app_iff. left. exact Hin2. }
      destruct Hin as [(op' & Hop') Hin].
      assert (Hop : (op = "=="%string \/ op = "!="%string) /\
                    op' = (if String.eqb op "==" then "!="%string else "=="%string)).
      { unfold Condition.nan_operators in Hop'.
        destruct (String.eqb_spec op "==") as [->|N1]; [injection Hop' as <-; auto|].
        destruct (String.eqb_spec op "!=") as [->|N2]; [injection Hop' as <-; auto|].
        discriminate. }
      destruct Hop as [Hop ->]. split; [exact Hop|].
      (* no other recorded index touches positions i .. i+2 *)
      assert (Oth : forall j, In j (Condition.nan_indices st) -> j <> S (S i) ->
                      (2 <= j)%nat /\ j <> i /\ j <> S i /\ j <> S (S (S i))).
      { intros j Hj Hne. destruct (IN j Hj) as (J2 & (sj & Hsj & Hspj) & (oj & Hoj)).
        split; [exact J2|]. split; [|split].
        - intros ->. rewrite H0 in Hsj. injection Hsj as <-. congruence.
        - intros ->. rewrite H1 in Hsj. discriminate.
        - intros ->. replace (S (S (S i)) - 1)%nat with (S (S i)) in Hoj by lia.
          rewrite H2 in Hoj. discriminate. }
      apply in_split in Hin as (pre & post & Hidx). rewrite Hidx in ND, Oth, E2.
      assert (Npre : ~ In (S (S i)) pre).
      { intros Hp. apply NoDup_remove_2 in ND. apply ND. apply in_app_iff. left. exact Hp. }
      assert (Npost : ~ In (S (S i)) post).
      { intros Hp. apply NoDup_remove_2 in ND. apply ND. apply in_app_iff. right. exact Hp. }
      assert (Keep : forall l, (forall j, In j l -> In j (pre ++ S (S i) :: post)) ->
                ~ In (S (S i)) l ->
                forall k, k = i \/ k = S i \/ k = S (S i) ->
                forall j, In j l -> k <> j /\ k <> (j - 1)%nat).
      { intros l Sub Nl k Hk j Hj.
        assert (Jne : j <> S (S i)) by (intros ->; contradiction).
        destruct (Oth j (Sub j Hj) Jne) as (J2 & Ja & Jb & Jc). lia. }
      rewrite NanFacts.rewrite_nans_app in E2.
      destruct (Condition.rewrite_nans res1 pre) as [e|ra] eqn:Ea; [discriminate|].
      destruct (NanFacts.rewrite_nans_spec _ _ _ Ea) as [Ta Fa].
      assert (Kpre : forall k, k = i \/ k = S i \/ k = S (S i) -> nth_error ra k = nth_error res1 k).
      { intros k Hk. apply Fa. apply (Keep pre); [|exact Npre|exact Hk].
        intros j Hj. apply in_app_iff. left. exact Hj. }
      cbn [Condition.rewrite_nans] in E2.
      replace (S (S i) - 2)%nat with i in E2 by lia. replace (S (S i) - 1)%nat with (S i) in E2 by lia.
      unfold Condition.get_str in E2.
      rewrite (Kpre i (or_introl eq_refl)), (Kpre (S i) (or_intror (or_introl eq_refl))), R0, R1
        in E2.
      rewrite Hop' in E2.
      destruct (Condition.set_str ra (S i) _) as [e|rb] eqn:Eb; [discriminate|].
      destruct (Condition.set_str rb (S (S i)) x) as [e|rc] eqn:Ec; [discriminate|].
      destruct (NanFacts.rewrite_nans_spec _ _ _ E2) as [Tc Fc].
      assert (Kpost : forall k, k = i \/ k = S i \/ k = S (S i) ->
                        nth_error res2 k = nth_error rc k).
      { intros k Hk. apply Fc. apply (Keep post); [|exact Npost|exact Hk].
        intros j Hj. apply in_app_iff. right. right. exact Hj. }
      exists res2. split; [reflexivity|]. split.
      { apply NanFacts.types_length. intros k. rewrite Tc, (NanFacts.set_str_type _ _ _ _ _ Ec),
          (NanFacts.set_str_type _ _ _ _ _ Eb), Ta. apply T1. }
      rewrite !Kpost by auto.
      split; [|split].
      * rewrite (NanFacts.set_str_other _ _ _ _ _ Ec) by lia.
        rewrite (NanFacts.set_str_other _ _ _ _ _ Eb) by lia.
        rewrite Kpre by auto. exact R0.
      * rewrite (NanFacts.set_str_other _ _ _ _ _ Ec) by lia.
        rewrite (NanFacts.set_str_same _ _ _ _ Eb), Kpre, R1 by auto. reflexivity.
      * rewrite (NanFacts.set_str_same _ _ _ _ Ec).
        rewrite (NanFacts.set_str_other _ _ _ _ _ Eb) by lia.
        rewrite Kpre, R2 by auto. reflexivity.
  - intros Hn s Hs.
    destruct (NanFacts.parse_inr _ _ _ _ _ Hs) as (st & res1 & res2 & Es & HR & E1 & E2 & ->).
    destruct (Hstr _ _ Es E1) as (T1 & R0 & R1 & R2).
    destruct (NanFacts.scan_st0_inv _ _ Es) as (_ & _ & IN).
    destruct (NanFacts.rewrite_nans_spec _ _ _ E2) as [T2 F2].
    assert (Oth : forall j, In j (Condition.nan_indices st) ->
                    (2 <= j)%nat /\ j <> i /\ j <> S i /\ j <> S (S i) /\ j <> S (S (S i))).
    { intros j Hj. destruct (IN j Hj) as (J2 & (sj & Hsj & Hspj) & (oj & Hoj)).
      split; [exact J2|]. split; [|split; [|split]].
      - intros ->. rewrite H0 in Hsj. injection Hsj as <-. congruence.
      - intros ->. rewrite H1 in Hsj. discriminate.
      - intros ->. rewrite H2 in Hsj. injection Hsj as <-. congruence.
      - intros ->. replace (S (S (S i)) - 1)%nat with (S (S i)) in Hoj by lia.
        rewrite H2 in Hoj. discriminate. }
    assert (K : forall k, k = i \/ k = S i \/ k = S (S i) -> nth_error res2 k = nth_error res1 k).
    { intros k Hk. apply F2. intros j Hj. destruct (Oth j Hj) as (J2 & Ja & Jb & Jc & Jd). lia. }
    exists res2. split; [reflexivity|]. split.
    { apply NanFacts.types_length. intros k. rewrite T2. apply T1. }
    rewrite !K by auto. auto.
Qed.

Lemma parse_condition_nan_spellings_witness :
  (exists s, Condition._parse_condition (fun s => Some s) Condition.join_tokens
               Condition.toks_nan_compound Condition.Finished = inr s) /\
  forall s, Condition._parse_condition (fun s => Some s) Condition.join_tokens
              Condition.toks_nan_compound Condition.Finished = inr s ->
  exists res, s = Condition.join_tokens res /\
    nth_error res 1 = Some (Condition.NAME, "pga"%string) /\
    nth_error res 2 = Some (Condition.OP, "=="%string) /\
    nth_error res 3 = Some (Condition.NAME, "pga"%string).
Proof.
  split; [eexists; vm_compute; reflexivity|].
  intros s Hs.
  destruct (proj2 (proj1 (parse_condition_nan_spellings (fun s => Some s) Condition.join_tokens
              Condition.toks_nan_compound Condition.Finished 1 "pga" "!=" "nan"
              eq_refl eq_refl eq_refl eq_refl) (or_introl eq_refl)) s Hs)
    as [_ (res & -> & _ & R0 & R1 & R2)].
  exists res. split; [reflexivity|]. split; [exact R0|]. split; [exact R1 | exact R2].
Defined.

(** C4 fails as stated: the tokens of ["pga != Nan"] (the name [Nan] is a
    case variant of "nan") are passed on unchanged, not rewritten to
    [pga == pga], and ["pga < Nan"] does not fail. *)
Lemma parse_condition_nan_case_counterexample :
  Condition._parse_condition (fun s => Some s) Condition.join_tokens
    (Condition.toks_nan "pga" "!=" "Nan") Condition.Finished =
  inr (Condition.join_tokens (Condition.toks_nan "pga" "!=" "Nan")) /\
  Condition._parse_condition (fun s => Some s) Condition.join_tokens
    (Condition.toks_nan "pga" "<" "Nan") Condition.Finished =
  inr (Condition.join_tokens (Condition.toks_nan "pga" "<" "Nan")).
Proof. split; vm_compute; reflexivity. Qed.

(** ** The ingestion driver *)

Module DriverFacts.
Import Driver.

Section Facts.
Variable Row Rec : Type.
Variable writerow : Row -> exc + (Rec * list string * list string).

Definition wrote (row : Row) (rec : Rec) : Prop :=
  exists m o, writerow row = inr (rec, m, o).

Lemma none_indices_bounds rows : forall i,
  Forall (fun j => i <= j < i + Z.of_nat (length rows)) (none_indices Row i rows).
Proof.
  induction rows as [|r rest IH]; intros i; simpl; [constructor|].
  assert (H := IH (i + 1)).
  destruct r; [|constructor; [lia|]];
    (eapply Forall_impl; [|exact H]); intros j Hj; simpl in Hj; lia.
Qed.

Lemma none_indices_sorted rows : forall i, StronglySorted Z.lt (none_indices Row i rows).
Proof.
  induction rows as [|r rest IH]; intros i; simpl; [constructor|].
  destruct r; [apply IH|]. constructor; [apply IH|].
  eapply Forall_impl; [|apply none_indices_bounds]. simpl. lia.
Qed.

Lemma none_indices_nth rows : forall i j,
  nth_error rows j = Some None -> In (i + Z.of_nat j) (none_indices Row i rows).
Proof.
  induction rows as [|r rest IH]; intros i j Hj; [destruct j; discriminate|].
  destruct j as [|j]; simpl in Hj.
  - injection Hj as ->. simpl. left. lia.
  - replace (i + Z.of_nat (S j)) with ((i + 1) + Z.of_nat j) by lia.
    destruct r; simpl; [|right]; apply IH; exact Hj.
Qed.

Lemma parse_loop_spec rows : forall i st st',
  parse_loop Row Rec writerow i st rows = inr st' ->
  p_i Rec st' = (if rows then p_i Rec st else i - 1 + Z.of_nat (length rows)) /\
  p_error Rec st' = p_error Rec st ++ none_indices Row i rows /\
  (exists recs, p_table Rec st' = p_table Rec st ++ recs /\
                Forall2 wrote (written_rows Row rows) recs).
Proof.
  induction rows as [|r rest IH]; intros i st st' H; simpl in H.
  - injection H as <-. rewrite app_nil_r. split; [reflexivity|split; [reflexivity|]].
    exists []. rewrite app_nil_r. split; constructor.
  - destruct (parse_step Row Rec writerow st i r) as [e|st1] eqn:E; [discriminate|].
    destruct (IH _ _ _ H) as (H1 & H2 & recs & H3 & H4).
    unfold parse_step in E. destruct r as [row|].
    + destruct (writerow row) as [e|[[rec mc] oc]] eqn:W; [discriminate|].
      injection E as <-. simpl in *. split; [|split].
      * rewrite H1. destruct rest; simpl; lia.
      * rewrite H2. reflexivity.
      * exists (rec :: recs). rewrite H3, <- app_assoc. split; [reflexivity|].
        constructor; [exists mc, oc; exact W | exact H4].
    + injection E as <-. simpl in *. split; [|split].
      * rewrite H1. destruct rest; simpl; lia.
      * rewrite H2, <- app_assoc. reflexivity.
      * exists recs. split; assumption.
Qed.

Lemma parse_spec rows stop st recs :
  parse Row Rec writerow rows stop = inr (st, recs) ->
  stop = None /\
  total st = Z.of_nat (length rows) /\
  written st = total st - Z.of_nat (length (error st)) /\
  error st = none_indices Row 0 rows /\
  Forall2 wrote (written_rows Row rows) recs /\
  (rows = [] -> missing_values st = [] /\ outofbound_values st = []).
Proof.
  unfold parse. intros H.
  destruct (parse_loop _ _ _ _ _ rows) as [e|st'] eqn:E; [discriminate|].
  destruct stop as [e|]; [discriminate|]. injection H as <- <-.
  destruct (parse_loop_spec rows _ _ _ E) as (H1 & H2 & recs & H3 & H4).
  assert (Hpi : p_i Rec st' = Z.of_nat (length rows) - 1).
  { rewrite H1. destruct rows; cbn [length p_i]; lia. }
  cbn [total written error missing_values outofbound_values] in *.
  rewrite Hpi, H2. cbn [p_error app].
  split; [reflexivity|]. split; [lia|]. split; [lia|].
  split; [reflexivity|]. split; [rewrite H3; exact H4|].
  intros ->. simpl in E. injection E as <-. split; reflexivity.
Qed.

End Facts.

End DriverFacts.

(** C10: every completed run of [parse] reports [written = total - len(error)],
    with [total] the number of rows yielded, and an error list that is
    strictly increasing with every index in [0, total); a run over no row
    reports [total = 0], [written = 0], no error and empty counters. *)
Theorem parse_stats_invariants {Row Rec : Type}
    (writerow : Row -> exc + (Rec * list string * list string))
    (rows : list (option Row)) (stop : option exc) (st : Driver.stats) (recs : list Rec) :
  Driver.parse Row Rec writerow rows stop = inr (st, recs) ->
  Driver.written st = Driver.total st - Z.of_nat (length (Driver.error st)) /\
  Driver.total st = Z.of_nat (length rows) /\
  StronglySorted Z.lt (Driver.error st) /\
  Forall (fun j => 0 <= j < Driver.total st) (Driver.error st) /\
  (rows = [] -> st = {| Driver.total := 0; Driver.written := 0; Driver.error := [];
                        Driver.missing_values := []; Driver.outofbound_values := [] |}).
Proof.
  intros H.
  destruct (DriverFacts.parse_spec Row Rec writerow rows stop st recs H)
    as (_ & Htot & Hwr & Herr & _ & Hnil).
  split; [exact Hwr|]. split; [exact Htot|].
  rewrite Herr. split; [apply DriverFacts.none_indices_sorted|].
  split.
  - rewrite Htot. eapply Forall_impl; [|apply DriverFacts.none_indices_bounds].
    simpl. lia.
  - intros ->. destruct (Hnil eq_refl) as (Hm & Ho).
    destruct st as [t w e m o]; simpl in *. subst. reflexivity.
Qed.

Lemma parse_stats_invariants_witness :
  exists st recs,
    Driver.parse nat nat sample_writer sample_rows None = inr (st, recs) /\
    Driver.total st = 3 /\ Driver.written st = 2 /\ Driver.error st = [1].
Proof.
  destruct (Driver.parse nat nat sample_writer sample_rows None) as [e|[st recs]] eqn:E;
    [vm_compute in E; discriminate|].
  exists st, recs. split; [reflexivity|].
  destruct (parse_stats_invariants sample_writer sample_rows None st recs E)
    as (Hw & Ht & _ & _ & _).
  split; [rewrite Ht; reflexivity|].
  vm_compute in E. injection E as <- _. split; reflexivity.
Defined.

(** ** The unit sanity check *)

Module SanityFacts.

Lemma is_nan_Prim2SF (y : float) :
  PrimFloat.is_nan y = match Prim2SF y with S754_nan => true | _ => false end.
Proof.
  unfold PrimFloat.is_nan. rewrite FloatAxioms.eqb_spec.
  destruct (Prim2SF y) as [s|s| |s m e]; try destruct s; try reflexivity;
    unfold SFeqb, SFcompare; rewrite Z.compare_refl;
    change (Pos.compare_cont Eq m m) with (Pos.compare m m); rewrite Pos.compare_refl;
    reflexivity.
Qed.

(** Half-to-even rounding reaches 10 exactly from 9.5 on. *)
Lemma round_half_even_ge10_neg (m : positive) (e : Z) :
  e < 0 -> (10 <= Py.round_half_even_pos m e <-> 19 * 2 ^ (- e) <= 2 * Z.pos m).
Proof.
  intros He. unfold Py.round_half_even_pos.
  destruct (0 <=? e) eqn:E0; [apply Z.leb_le in E0; lia|]. cbv zeta.
  assert (Hd : 0 < 2 ^ (- e)) by (apply Z.pow_pos_nonneg; lia).
  set (d := 2 ^ (- e)) in *.
  pose proof (Z.div_mod (Z.pos m) d ltac:(lia)) as Hdm.
  pose proof (Z.mod_pos_bound (Z.pos m) d Hd) as Hr.
  set (q := Z.pos m / d) in *. set (r := Z.pos m mod d) in *.
  destruct (2 * r <? d) eqn:E1; [apply Z.ltb_lt in E1 | apply Z.ltb_ge in E1].
  { split; intros H; nia. }
  destruct (d <? 2 * r) eqn:E2; [apply Z.ltb_lt in E2 | apply Z.ltb_ge in E2].
  { split; intros H; nia. }
  assert (Hr2 : 2 * r = d) by lia.
  destruct (Z.even q) eqn:Ev.
  - assert (Hq9 : q <> 9) by (intros Hq; rewrite Hq in Ev; discriminate).
    split; intros Hh; nia.
  - split; intros Hh; nia.
Qed.

Lemma round_half_even_ge10_nonneg (m : positive) (e : Z) :
  0 <= e -> (10 <= Py.round_half_even_pos m e <-> 19 <= 2 * (Z.pos m * 2 ^ e)).
Proof.
  intros He. unfold Py.round_half_even_pos.
  destruct (0 <=? e) eqn:E0; [|apply Z.leb_gt in E0; lia]. lia.
Qed.

Lemma Qle_half_int (z : Z) : (19 # 2 <= inject_Z z)%Q <-> 19 <= 2 * z.
Proof. unfold Qle, inject_Z. cbn [Qnum Qden]. lia. Qed.

Lemma Qle_half_frac (a b : Z) : 0 < b -> ((19 # 2 <= a # Z.to_pos b)%Q <-> 19 * b <= 2 * a).
Proof. intros Hb. unfold Qle. cbn [Qnum Qden]. rewrite Z2Pos.id by exact Hb. lia. Qed.

(** For a float that is not negative, [round(x)] is an int of at least 10
    exactly when [x] is finite and at least 9.5. *)
Lemma round_ge10_iff (x : float) :
  match Prim2SF x with
  | S754_zero true | S754_finite true _ _ => False
  | _ => True
  end ->
  ((exists z, Py.round x = Some z /\ 10 <= z) <->
   (exists q, Py.to_Q x = Some q /\ (19 # 2 <= q)%Q)).
Proof.
  unfold Py.round, Py.to_Q.
  destruct (Prim2SF x) as [[]|[]| |[] m e]; try contradiction; intros _;
    try (split; intros (z & Hs & _); discriminate).
  - split; intros (z & Hs & Hz); injection Hs as <-;
      [lia | unfold Qle in Hz; simpl in Hz; lia].
  - cbv beta iota zeta. destruct (0 <=? e) eqn:E0.
    + apply Z.leb_le in E0. pose proof (round_half_even_ge10_nonneg m e E0) as R.
      split; [intros (z & Hs & Hz) | intros (z & Hs & Hz)]; injection Hs as <-.
      * eexists. split; [reflexivity|]. apply Qle_half_int. lia.
      * eexists. split; [reflexivity|]. apply Qle_half_int in Hz.
        change (match 2 ^ e with 0 => 0 | Z.pos y' => Z.pos (m * y')
                | Z.neg y' => Z.neg (m * y') end) with (Z.pos m * 2 ^ e) in Hz.
        lia.
    + apply Z.leb_gt in E0.
      assert (Hd : 0 < 2 ^ (- e)) by (apply Z.pow_pos_nonneg; lia).
      pose proof (round_half_even_ge10_neg m e E0) as R.
      split; [intros (z & Hs & Hz) | intros (z & Hs & Hz)]; injection Hs as <-.
      * eexists. split; [reflexivity|]. apply Qle_half_frac; [exact Hd|]. lia.
      * eexists. split; [reflexivity|]. apply Qle_half_frac in Hz; [lia | exact Hd].
Qed.

(** The last step of the check, on [retol = abs(...)]: it fails exactly when the
    ratio is a finite float of value at least 9.5. *)
Lemma abs_check_false_iff (y : float) :
  (if negb (Py.isnan (PrimFloat.abs y)) then
     match Py.round (PrimFloat.abs y) with None => true | Some z => negb (10 <=? z) end
   else true) = false <->
  (exists q, Py.to_Q (PrimFloat.abs y) = Some q /\ (19 # 2 <= q)%Q).
Proof.
  rewrite <- round_ge10_iff
    by (rewrite FloatAxioms.abs_spec; destruct (Prim2SF y) as [[]|[]| |[] m e]; exact I).
  unfold Py.isnan. rewrite is_nan_Prim2SF.
  destruct (Py.round (PrimFloat.abs y)) as [z|] eqn:R.
  - destruct (Prim2SF (PrimFloat.abs y)) eqn:E;
      try (unfold Py.round in R; rewrite E in R; discriminate).
    all: cbn [negb]; split;
      [ intros H; exists z; split; [reflexivity|];
        destruct (10 <=? z) eqn:L; [apply Z.leb_le in L; exact L | discriminate]
      | intros (z' & Hz & Hle); injection Hz as <-; apply Z.leb_le in Hle; rewrite Hle;
        reflexivity ].
  - destruct (match Prim2SF (PrimFloat.abs y) with S754_nan => true | _ => false end);
      cbn [negb]; split; try discriminate; intros (z' & Hz & _); discriminate.
Qed.

End SanityFacts.

(** C6. [_pga_sa_unit_ok] returns [False] exactly when [min(pga, sa0)] is
    not zero and the float [abs(max/min)] is finite with a value of at least
    9.5, since [round] takes it to 10 from there on. It returns [True] when
    either value cannot be read. A csv row that fails the check is yielded by
    [_rows] as an empty row, so [parse] does not write it and its index is
    in the error list. *)
Theorem pga_sa_unit_ok_threshold :
  (forall p s : float,
     Sanity._pga_sa_unit_ok (Some p) (Some s) = false <->
     exists r q, Sanity.retol p s = Some r /\ Py.to_Q r = Some q /\ (19 # 2 <= q)%Q) /\
  (forall pga_raw sa0_raw : option float,
     pga_raw = None \/ sa0_raw = None -> Sanity._pga_sa_unit_ok pga_raw sa0_raw = true) /\
  (forall (CsvRow Row SaCols Rec : Type) gsc gec gpc normalize
     (pga_of sa0_of : Row -> option float)
     (writerow : Row -> exc + (Rec * list string * list string))
     fieldnames (csvrows : list CsvRow) rows stop st recs sac evc pc j r,
     gsc fieldnames = Some sac -> gec fieldnames = Some evc -> gpc fieldnames = Some pc ->
     Driver._rows CsvRow Row SaCols gsc gec gpc normalize pga_of sa0_of fieldnames csvrows
       = (rows, stop) ->
     Driver.parse Row Rec writerow rows stop = inr (st, recs) ->
     nth_error csvrows j = Some r ->
     Sanity._pga_sa_unit_ok (pga_of (normalize sac evc pc r))
                            (sa0_of (normalize sac evc pc r)) = false ->
     nth_error rows j = Some None /\ In (Z.of_nat j) (Driver.error st)).
Proof.
  split; [|split].
  - intros p s. unfold Sanity._pga_sa_unit_ok, Sanity.retol. cbv zeta.
    destruct (PrimFloat.eqb _ 0%float).
    + split; [discriminate | intros (r & q & Hr & _); discriminate].
    + rewrite SanityFacts.abs_check_false_iff. split.
      * intros (q & Hq & Hle). eexists _, q. split; [reflexivity|]. split; assumption.
      * intros (r & q & Hr & Hq & Hle). injection Hr as <-. exists q. split; assumption.
  - intros [p|] [s|] [H|H]; try discriminate; reflexivity.
  - intros CsvRow Row SaCols Rec gsc gec gpc normalize pga_of sa0_of writerow
      fieldnames csvrows rows stop st recs sac evc pc j r Hs He Hp Hrows Hparse Hj Hchk.
    unfold Driver._rows in Hrows. rewrite Hs, He, Hp in Hrows.
    injection Hrows as <- <-.
    assert (Hn : nth_error (map (fun r0 =>
               if Sanity._pga_sa_unit_ok (pga_of (normalize sac evc pc r0))
                                         (sa0_of (normalize sac evc pc r0))
               then Some (normalize sac evc pc r0) else None) csvrows) j = Some None).
    { rewrite nth_error_map, Hj. cbn [option_map]. rewrite Hchk. reflexivity. }
    split; [exact Hn|].
    destruct (DriverFacts.parse_spec Row Rec writerow _ None st recs Hparse)
      as (_ & _ & _ & Herr & _).
    rewrite Herr. pose proof (DriverFacts.none_indices_nth Row _ 0 j Hn) as Hin.
    exact Hin.
Qed.

Lemma pga_sa_unit_ok_threshold_witness :
  exists st recs,
    Driver.parse unit_row unit_row unit_writer (fst (unit_rows_of [] unit_csvrows))
      (snd (unit_rows_of [] unit_csvrows)) = inr (st, recs) /\
    nth_error (fst (unit_rows_of [] unit_csvrows)) 1 = Some None /\
    In 1 (Driver.error st).
Proof.
  destruct (Driver.parse unit_row unit_row unit_writer (fst (unit_rows_of [] unit_csvrows))
              (snd (unit_rows_of [] unit_csvrows))) as [e|[st recs]] eqn:E;
    [vm_compute in E; discriminate|].
  exists st, recs. split; [reflexivity|].
  exact (proj2 (proj2 pga_sa_unit_ok_threshold) unit_row unit_row unit unit_row
           (fun _ => Some tt) (fun _ => Some []) (fun _ => Some ("pga"%string, "g"%string))
           (fun _ _ _ r => r) fst snd unit_writer [] unit_csvrows
           (fst (unit_rows_of [] unit_csvrows)) (snd (unit_rows_of [] unit_csvrows))
           st recs tt [] ("pga"%string, "g"%string) 1%nat (Some one_g, Some 9.6%float)
           eq_refl eq_refl eq_refl ltac:(vm_compute; reflexivity) E
           ltac:(reflexivity) ltac:(vm_compute; reflexivity)).
Defined.

(** C6, counterexample. At [pga = 1 g] and [sa0 = 9.6] the ratio is below 10,
    yet the check fails and drops the row; at [pga = -1 g] and [sa0 = 10]
    [max/min] is [-10], and [abs] makes the check fail as well. *)
Lemma pga_sa_unit_ok_counterexample :
  Sanity._pga_sa_unit_ok (Some one_g) (Some 9.6%float) = false /\
  Sanity.spec_rejects one_g 9.6%float = false /\
  Sanity._pga_sa_unit_ok (Some (- one_g)%float) (Some 10%float) = false /\
  Sanity.spec_rejects (- one_g)%float 10%float = false.
Proof. vm_compute. repeat split. Qed.

(** C7. A header whose SA, event-time or PGA columns cannot be resolved makes
    [_rows] yield no row and raise, so [parse] fails and writes nothing. A row
    whose PGA is infinite passes the unit check, but [_toint] raises
    [OverflowError] in [get_ids], and that exception aborts [parse] at this
    row. *)
Theorem rows_resolution_and_row_fault :
  (forall (CsvRow Row SaCols Rec : Type) gsc gec gpc normalize
     (pga_of sa0_of : Row -> option float)
     (writerow : Row -> exc + (Rec * list string * list string))
     fieldnames (csvrows : list CsvRow) rows stop,
     gsc fieldnames = None \/ gec fieldnames = None \/ gpc fieldnames = None ->
     Driver._rows CsvRow Row SaCols gsc gec gpc normalize pga_of sa0_of fieldnames csvrows
       = (rows, stop) ->
     rows = [] /\ exists e, stop = Some e /\ Driver.parse Row Rec writerow rows stop = inl e) /\
  Sanity._pga_sa_unit_ok (Some PrimFloat.infinity) (Some 1%float) = true /\
  Driver.parse _ _ esm_writer fault_rows None = inl OverflowError.
Proof.
  split; [|split; vm_compute; reflexivity].
  intros CsvRow Row SaCols Rec gsc gec gpc normalize pga_of sa0_of writerow
    fieldnames csvrows rows stop Hres Hrows.
  unfold Driver._rows in Hrows.
  destruct (gsc fieldnames); [destruct (gec fieldnames); [destruct (gpc fieldnames)|]|].
  all: try (destruct Hres as [H|[H|H]]; discriminate).
  all: injection Hrows as <- <-; split; [reflexivity|]; eexists; split; reflexivity.
Qed.

Lemma rows_resolution_and_row_fault_witness :
  Driver._rows unit unit unit (fun _ => None) (fun _ => Some []) (fun _ => Some ("pga"%string, "g"%string))
    (fun _ _ _ r => r) (fun _ => None) (fun _ => None) ["sa(abc)"%string] [tt]
    = ([], Some (ValueError "Unable to parse SA columns")) /\
  Driver.parse unit unit (fun r => inr (r, [], [])) [] (Some (ValueError "Unable to parse SA columns"))
    = inl (ValueError "Unable to parse SA columns").
Proof.
  split; [reflexivity|].
  destruct (proj1 rows_resolution_and_row_fault unit unit unit unit
              (fun _ => None) (fun _ => Some []) (fun _ => Some ("pga"%string, "g"%string))
              (fun _ _ _ r => r) (fun _ => None) (fun _ => None) (fun r => inr (r, [], []))
              ["sa(abc)"%string] [tt] [] (Some (ValueError "Unable to parse SA columns"))
              (or_introl eq_refl) eq_refl) as (_ & e & He & Hp).
  injection He as <-. exact Hp.
Defined.

Module DTimeFacts.

Lemma years_ok_true : forallb year_ok (seq 1 (Z.to_nat 9999)) = true.
Proof. vm_compute. reflexivity. Qed.

Lemma normalize_year_only (y : Z) :
  1 <= y <= 9999 ->
  DTime.normalize_dtime (inl (DTime.pad4 y)) = inr (Py.str_int y ++ "-01-01T00:00:00")%string.
Proof.
  intros Hy. pose proof years_ok_true as H.
  rewrite forallb_forall in H.
  assert (Hin : In (Z.to_nat y) (seq 1 (Z.to_nat 9999))) by (apply in_seq; lia).
  specialize (H (Z.to_nat y) Hin). unfold year_ok in H.
  rewrite Z2Nat.id in H by lia.
  destruct (DTime.normalize_dtime (inl (DTime.pad4 y))) as [e|s]; [discriminate|].
  apply String.eqb_eq in H. rewrite H. reflexivity.
Qed.

End DTimeFacts.

(** C8. [normalize_dtime] maps ["2021"] to ["2021-01-01T00:00:00"] and
    ["2021-05-04 10:20:30"] to ["2021-05-04T10:20:30"]. Every zero-padded year
    ["0001"] to ["9999"] maps to that year followed by ["-01-01T00:00:00"], so
    the year is no longer four digits below 1000: ["0999"] gives
    ["999-01-01T00:00:00"], which [strptime] with the base format itself
    rejects. *)
Theorem normalize_dtime_years :
  DTime.normalize_dtime (inl "2021"%string) = inr "2021-01-01T00:00:00"%string /\
  DTime.normalize_dtime (inl "2021-05-04 10:20:30"%string) = inr "2021-05-04T10:20:30"%string /\
  (forall y, 1 <= y <= 9999 ->
     DTime.normalize_dtime (inl (DTime.pad4 y)) = inr (Py.str_int y ++ "-01-01T00:00:00")%string) /\
  DTime.normalize_dtime (inl "0999"%string) = inr "999-01-01T00:00:00"%string /\
  DTime.strptime "999-01-01T00:00:00" DTime.base_format = None /\
  (exists e, DTime.normalize_dtime (inl "999-01-01T00:00:00"%string) = inl e).
Proof.
  split; [vm_compute; reflexivity|]. split; [vm_compute; reflexivity|].
  split; [exact DTimeFacts.normalize_year_only|].
  split; [vm_compute; reflexivity|]. split; [vm_compute; reflexivity|].
  eexists. vm_compute. reflexivity.
Qed.

Lemma normalize_dtime_years_witness :
  DTime.normalize_dtime (inl (DTime.pad4 999)) = inr "999-01-01T00:00:00"%string /\
  DTime.pad4 999 = "0999"%string.
Proof.
  split; [|vm_compute; reflexivity].
  exact (proj1 (proj2 (proj2 normalize_dtime_years)) 999 ltac:(lia)).
Defined.

Module SaFacts.

Lemma ltb_not_nan_r (a x : float) : PrimFloat.ltb a x = true -> PrimFloat.is_nan x = false.
Proof.
  rewrite FloatAxioms.ltb_spec, SanityFacts.is_nan_Prim2SF.
  destruct (Prim2SF x); [reflexivity|reflexivity| |reflexivity].
  destruct (Prim2SF a) as [[]|[]| |[] ? ?]; discriminate.
Qed.

Lemma ltb_not_nan_l (a x : float) : PrimFloat.ltb x a = true -> PrimFloat.is_nan x = false.
Proof.
  rewrite FloatAxioms.ltb_spec, SanityFacts.is_nan_Prim2SF.
  destruct (Prim2SF x); [reflexivity|reflexivity| |reflexivity]. discriminate.
Qed.

Lemma get_map (f : float -> float) (l : list float) (k : nat) (a : float) :
  nth_error l k = Some a -> Sa.get (map f l) (Z.of_nat k) = f a.
Proof.
  intros H. unfold Sa.get. rewrite Nat2Z.id. apply nth_error_nth.
  rewrite nth_error_map, H. reflexivity.
Qed.

Lemma interp_loop_nth dx dy n lval rval xs : forall j i x,
  nth_error xs i = Some x ->
  exists j', nth_error (Sa.interp_loop dx dy n lval rval j xs) i =
             Some (fst (Sa.interp_one dx dy n lval rval j' x)).
Proof.
  induction xs as [|y rest IH]; intros j i x H; [destruct i; discriminate|].
  cbn [Sa.interp_loop].
  destruct (Sa.interp_one dx dy n lval rval j y) as [r j1] eqn:E.
  destruct i as [|i]; cbn [nth_error] in *.
  - injection H as <-. exists j. rewrite E. reflexivity.
  - exact (IH j1 i x H).
Qed.

(** The first two tests of [binary_search_with_guess] decide a key above the
    last sample or below the first one. *)
Lemma interp_one_right dx dy n lval rval j x :
  1 < n -> PrimFloat.ltb (Sa.get dx (n - 1)) x = true ->
  fst (Sa.interp_one dx dy n lval rval j x) = rval.
Proof.
  intros Hn H. unfold Sa.interp_one. rewrite (ltb_not_nan_r _ _ H).
  unfold Sa.binary_search_with_guess. rewrite H. cbn [fst].
  replace (n =? -1) with false by lia. rewrite Z.eqb_refl. reflexivity.
Qed.

Lemma interp_one_left dx dy n lval rval j x :
  1 < n -> PrimFloat.ltb (Sa.get dx (n - 1)) x = false ->
  PrimFloat.ltb x (Sa.get dx 0) = true ->
  fst (Sa.interp_one dx dy n lval rval j x) = lval.
Proof.
  intros Hn H1 H2. unfold Sa.interp_one. rewrite (ltb_not_nan_l _ _ H2).
  unfold Sa.binary_search_with_guess. rewrite H1, H2. reflexivity.
Qed.

Lemma interp_loop_length dx dy n lval rval xs : forall j,
  length (Sa.interp_loop dx dy n lval rval j xs) = length xs.
Proof.
  induction xs as [|y rest IH]; intros j; [reflexivity|]. cbn [Sa.interp_loop].
  destruct (Sa.interp_one dx dy n lval rval j y) as [r j1]. cbn [length]. rewrite IH.
  reflexivity.
Qed.

Lemma ref_periods_facts :
  length Sa._ref_periods = 111%nat /\ Sa.ascending Sa._ref_periods = true /\
  nth_error Sa._ref_periods 0 = Some 0.01%float /\
  nth_error Sa._ref_periods 110 = Some 20%float.
Proof. vm_compute. repeat split. Qed.

End SaFacts.

(** The reference grid has 111 periods, ascending from 0.01 s to 20 s.
    [_get_sa] passes the SA columns to [np.interp] in header order. A
    reference period whose log10 exceeds that of the column listed last gets
    [10 ** log10] of that column's value. Otherwise, one whose log10 is below
    that of the column listed first gets [10 ** log10] of the first column's
    value. *)
Theorem get_sa_boundary_values :
  (length Sa._ref_periods = 111%nat /\ Sa.ascending Sa._ref_periods = true /\
   nth_error Sa._ref_periods 0 = Some 0.01%float /\
   nth_error Sa._ref_periods 110 = Some 20%float) /\
  (forall (log10 pow10 : float -> float) (sa_values periods refs r : list float)
     (p0 pn v0 vn : float),
     Sa._get_sa log10 pow10 sa_values periods refs = inr r ->
     nth_error periods 0 = Some p0 ->
     nth_error periods (length periods - 1) = Some pn ->
     nth_error sa_values 0 = Some v0 ->
     nth_error sa_values (length sa_values - 1) = Some vn ->
     length r = length refs /\
     forall i x, nth_error refs i = Some x ->
       (PrimFloat.ltb (log10 pn) x = true -> nth_error r i = Some (pow10 (log10 vn))) /\
       (PrimFloat.ltb (log10 pn) x = false -> PrimFloat.ltb x (log10 p0) = true ->
        nth_error r i = Some (pow10 (log10 v0)))).
Proof.
  split; [exact SaFacts.ref_periods_facts|].
  intros log10 pow10 sa_values periods refs r p0 pn v0 vn H Hp0 Hpn Hv0 Hvn.
  unfold Sa._get_sa, Sa.interp in H. rewrite !length_map in H.
  destruct (Z.of_nat (length periods) =? 0) eqn:E0; [discriminate|].
  apply Z.eqb_neq in E0.
  destruct (Nat.eqb (length sa_values) (length periods)) eqn:El; [|discriminate].
  apply Nat.eqb_eq in El. cbn [negb] in H.
  assert (Hx0 : Sa.get (map log10 periods) 0 = log10 p0)
    by exact (SaFacts.get_map log10 periods 0 p0 Hp0).
  assert (Hy0 : Sa.get (map log10 sa_values) 0 = log10 v0)
    by exact (SaFacts.get_map log10 sa_values 0 v0 Hv0).
  assert (Hidx : Z.of_nat (length periods) - 1 = Z.of_nat (length periods - 1)) by lia.
  assert (Hxn : Sa.get (map log10 periods) (Z.of_nat (length periods) - 1) = log10 pn)
    by (rewrite Hidx; exact (SaFacts.get_map log10 periods _ pn Hpn)).
  assert (Hyn : Sa.get (map log10 sa_values) (Z.of_nat (length periods) - 1) = log10 vn)
    by (rewrite Hidx, <- El; exact (SaFacts.get_map log10 sa_values _ vn Hvn)).
  destruct (Z.of_nat (length periods) =? 1) eqn:E1.
  - apply Z.eqb_eq in E1.
    assert (Hvv : vn = v0).
    { replace (length sa_values - 1)%nat with 0%nat in Hvn by lia. congruence. }
    subst vn. injection H as <-. rewrite !length_map. split; [reflexivity|].
    intros i x Hx. rewrite !nth_error_map, Hx. cbn [option_map].
    rewrite Hx0, Hyn, Hy0.
    split; [intros _ | intros _ _];
      destruct (PrimFloat.ltb x (log10 p0)); [reflexivity| |reflexivity|];
      destruct (PrimFloat.ltb (log10 p0) x); reflexivity.
  - apply Z.eqb_neq in E1. injection H as <-.
    rewrite length_map, SaFacts.interp_loop_length. split; [reflexivity|].
    intros i x Hx.
    destruct (SaFacts.interp_loop_nth (map log10 periods) (map log10 sa_values)
                (Z.of_nat (length periods)) (Sa.get (map log10 sa_values) 0)
                (Sa.get (map log10 sa_values) (Z.of_nat (length periods) - 1)) refs 0 i x Hx)
      as [j' Hj].
    rewrite nth_error_map, Hj. cbn [option_map].
    split.
    + intros Hr. rewrite SaFacts.interp_one_right; [rewrite Hyn; reflexivity | lia |].
      rewrite Hxn. exact Hr.
    + intros Hr Hl. rewrite SaFacts.interp_one_left; [rewrite Hy0; reflexivity | lia | |].
      * rewrite Hxn. exact Hr.
      * rewrite Hx0. exact Hl.
Qed.

Lemma get_sa_boundary_values_witness :
  exists r,
    Sa._get_sa Sa.log10_pow10_pts Sa.pow10_pts [10; 1]%float [0.1; 1]%float
      (Sa.ref_log_periods Sa.log10_pow10_pts) = inr r /\
    nth_error r 0 = Some (Sa.pow10_pts (Sa.log10_pow10_pts 10)).
Proof.
  destruct (Sa._get_sa Sa.log10_pow10_pts Sa.pow10_pts [10; 1]%float [0.1; 1]%float
              (Sa.ref_log_periods Sa.log10_pow10_pts)) as [e|r] eqn:E;
    [vm_compute in E; discriminate|].
  exists r. split; [reflexivity|].
  destruct (proj2 get_sa_boundary_values Sa.log10_pow10_pts Sa.pow10_pts _ _ _ r
              0.1%float 1%float 10%float 1%float E eq_refl eq_refl eq_refl eq_refl)
    as [_ Hnth].
  exact (proj2 (Hnth 0%nat (-2)%float ltac:(vm_compute; reflexivity))
           ltac:(vm_compute; reflexivity) ltac:(vm_compute; reflexivity)).
Defined.

(** C9. [_get_sa] hands the SA columns to [np.interp] in header order and
    never sorts them, though [np.interp] needs ascending periods. With SA
    columns [sa(1.0)] = 1 and [sa(0.1)] = 10, in this header order, the
    reference period 0.01 s gets 1, the value at 1 s,
    though the nearest observed period is 0.1 s with value 10; and 10 s
    gets 10 instead of the value 1 at its nearest observed period, 1 s. With
    the columns listed in ascending order the two periods get 10 and 1. *)
Lemma get_sa_header_order_counterexample :
  nth_error Sa._ref_periods 0 = Some 0.01%float /\
  nth_error Sa._ref_periods 104 = Some 10%float /\
  nth_error (sa_on_grid [1; 10]%float [1; 0.1]%float) 0 = Some 1%float /\
  nth_error (sa_on_grid [1; 10]%float [1; 0.1]%float) 104 = Some 10%float /\
  nth_error (sa_on_grid [10; 1]%float [0.1; 1]%float) 0 = Some 10%float /\
  nth_error (sa_on_grid [10; 1]%float [0.1; 1]%float) 104 = Some 1%float.
Proof. vm_compute. repeat split. Qed.

(* ================================================================ *)
(** * Further properties of the ingestion and selection code *)

Module HashFacts.
Import Hash.

Lemma bytes_of_string_app (a b : string) :
  bytes_of_string (a ++ b) = bytes_of_string a ++ bytes_of_string b.
Proof.
  unfold bytes_of_string. induction a as [|c a IH]; simpl; [reflexivity|].
  f_equal. exact IH.
Qed.

Lemma join_slash_cons c (l : list (list Z)) :
  l <> [] -> join_slash (c :: l) = c ++ 47 :: join_slash l.
Proof. destruct l; [congruence | reflexivity]. Qed.

Lemma join_slash_split (pre post : list (list Z)) (x y : list Z) :
  join_slash (pre ++ (x ++ 47 :: y) :: post) = join_slash (pre ++ x :: y :: post).
Proof.
  induction pre as [|c pre IH].
  - simpl. destruct post as [|z post]; [reflexivity|].
    rewrite <- app_assoc. reflexivity.
  - cbn [app]. rewrite !join_slash_cons by (destruct pre; discriminate).
    rewrite IH. reflexivity.
Qed.

(** [_hash] separates the values by a slash and nothing else: a byte
    string holding a slash hashes like the two values on either side of it,
    wherever it stands in the tuple, so tuples of different lengths can
    share their digest. *)
Theorem hash_slash_collision (pre post : list hval) (a b : string) :
  _hash (pre ++ HBytes (a ++ "/" ++ b) :: post) = _hash (pre ++ HBytes a :: HBytes b :: post).
Proof.
  unfold _hash. rewrite !map_app. cbn [map _tobytestr].
  rewrite !bytes_of_string_app. cbn [bytes_of_string list_ascii_of_string map].
  change (Z.of_nat (nat_of_ascii "/")) with 47.
  rewrite <- join_slash_split. reflexivity.
Qed.

End HashFacts.

Module SmUtilsFacts.
Import SmUtils.
Local Open Scope string_scope.

(** The unit family: g, m/s^2 or cm/s^2, read off the branches. *)
Definition family (u : string) : option nat :=
  if u =? "g" then Some 0%nat
  else if Condition.in_strs u m_sec_square then Some 1%nat
  else if Condition.in_strs u cm_sec_square then Some 2%nat
  else None.

Lemma convert_family a from_ to_ :
  convert_accel_units a from_ to_ =
  match family from_, family to_ with
  | Some 0, Some 0 => inr a
  | Some 0, Some 1 => inr (a * g)%float
  | Some 0, Some _ => inr (a * (100 * g))%float
  | Some 1, Some 0 => inr (a / g)%float
  | Some 1, Some 1 => inr a
  | Some 1, Some _ => inr (a * 100)%float
  | Some _, Some 0 => inr (a / (100 * g))%float
  | Some _, Some 1 => inr (a / 100)%float
  | Some _, Some _ => inr a
  | _, _ => inl units_error
  end%nat.
Proof.
  unfold convert_accel_units, family.
  destruct (from_ =? "g"), (Condition.in_strs from_ m_sec_square),
    (Condition.in_strs from_ cm_sec_square), (to_ =? "g"),
    (Condition.in_strs to_ m_sec_square), (Condition.in_strs to_ cm_sec_square);
    reflexivity.
Qed.

Lemma in_strs_In s l : Condition.in_strs s l = true <-> In s l.
Proof.
  unfold Condition.in_strs. rewrite existsb_exists. split.
  - intros (x & Hx & E). apply String.eqb_eq in E. subst. exact Hx.
  - intros H. exists s. split; [exact H | apply String.eqb_refl].
Qed.

Lemma family_None u :
  family u = None <-> ~ In u ("g" :: m_sec_square ++ cm_sec_square).
Proof.
  unfold family. cbn [In]. rewrite in_app_iff, <- !in_strs_In.
  destruct (u =? "g") eqn:E1; [apply String.eqb_eq in E1; subst; split; [discriminate|tauto]|].
  apply String.eqb_neq in E1.
  destruct (Condition.in_strs u m_sec_square), (Condition.in_strs u cm_sec_square);
    split; intros H; try discriminate; try tauto.
  intros [H1|[H1|H1]]; [congruence|discriminate|discriminate].
Qed.

Lemma accel_units_eq : Columns._accel_units = "g" :: m_sec_square ++ cm_sec_square.
Proof. reflexivity. Qed.

Lemma family_m u : In u m_sec_square -> family u = Some 1%nat.
Proof. intros H. simpl in H. unfold family. intuition subst; reflexivity. Qed.
Lemma family_cm u : In u cm_sec_square -> family u = Some 2%nat.
Proof. intros H. simpl in H. unfold family. intuition subst; reflexivity. Qed.
Lemma family_g : family "g" = Some 0%nat.
Proof. reflexivity. Qed.

(** [convert_accel_units] raises exactly when one of its two units is not
    among the seven spellings g, m/s/s, m/s**2, m/s^2, cm/s/s, cm/s**2 and
    cm/s^2 (the list [GMDatabaseParser._accel_units]), and then always with
    the same [ValueError]; otherwise it returns a value. *)
Theorem convert_accel_units_raises a from_ to_ :
  (convert_accel_units a from_ to_ = inl units_error <->
   ~ (In from_ Columns._accel_units /\ In to_ Columns._accel_units)) /\
  (forall e, convert_accel_units a from_ to_ = inl e -> e = units_error).
Proof.
  rewrite accel_units_eq, convert_family.
  set (L := "g" :: m_sec_square ++ cm_sec_square).
  assert (D1 : family from_ <> None <-> In from_ L).
  { rewrite family_None. destruct (In_dec string_dec from_ L); tauto. }
  assert (D2 : family to_ <> None <-> In to_ L).
  { rewrite family_None. destruct (In_dec string_dec to_ L); tauto. }
  revert D1 D2.
  destruct (family from_) as [[|[|[|n]]]|], (family to_) as [[|[|[|m]]]|];
    intros D1 D2; (split; [split|]);
    try (intros H; discriminate H);
    try (intros H; exfalso; apply H; split; [apply D1 | apply D2]; discriminate);
    try (intros _ [Ha Hb]; apply D1 in Ha; contradiction);
    try (intros _ [Ha Hb]; apply D2 in Hb; contradiction);
    try (intros; reflexivity);
    intros e H; congruence.
Qed.

(** The spelling of a unit does not matter: the three spellings of m/s^2
    give the same conversion, as do the three of cm/s^2; and converting
    between two spellings of one unit returns the value unchanged. *)
Theorem convert_accel_units_spellings a :
  (forall u1 u2 t, In u1 m_sec_square -> In u2 m_sec_square ->
     convert_accel_units a u1 t = convert_accel_units a u2 t /\
     convert_accel_units a t u1 = convert_accel_units a t u2) /\
  (forall u1 u2 t, In u1 cm_sec_square -> In u2 cm_sec_square ->
     convert_accel_units a u1 t = convert_accel_units a u2 t /\
     convert_accel_units a t u1 = convert_accel_units a t u2) /\
  (forall u1 u2, (u1 = "g" /\ u2 = "g") \/ (In u1 m_sec_square /\ In u2 m_sec_square) \/
                 (In u1 cm_sec_square /\ In u2 cm_sec_square) ->
     convert_accel_units a u1 u2 = inr a).
Proof.
  split; [|split].
  - intros u1 u2 t H1 H2. rewrite !convert_family, (family_m _ H1), (family_m _ H2).
    split; reflexivity.
  - intros u1 u2 t H1 H2. rewrite !convert_family, (family_cm _ H1), (family_cm _ H2).
    split; reflexivity.
  - intros u1 u2 [[-> ->]|[[H1 H2]|[H1 H2]]]; rewrite convert_family.
    + reflexivity.
    + rewrite (family_m _ H1), (family_m _ H2). reflexivity.
    + rewrite (family_cm _ H1), (family_cm _ H2). reflexivity.
Qed.

End SmUtilsFacts.

Module SelectFacts.
Import Select.

Section Facts.
Variable Row : Type.
Variable rows : list Row.
Variable tokenize : string -> list Condition.token * Condition.tokend.
Variable bytes_literal : string -> option string.
Variable untokenize : list Condition.token -> string.
Variable select : string -> exc + list Row.

Lemma yield_limited_None count rs : yield_limited Row count None rs = rs.
Proof.
  revert count. induction rs as [|r rs IH]; intros count; simpl; [reflexivity|].
  rewrite IH. reflexivity.
Qed.

Lemma yield_limited_Some count l rs :
  yield_limited Row count (Some l) rs = firstn (Z.to_nat (l - count)) rs.
Proof.
  revert count. induction rs as [|r rs IH]; intros count; simpl.
  - destruct (Z.to_nat (l - count)); reflexivity.
  - rewrite IH. destruct (count <? l) eqn:E.
    + apply Z.ltb_lt in E.
      replace (Z.to_nat (l - count)) with (S (Z.to_nat (l - (count + 1)))) by lia.
      reflexivity.
    + apply Z.ltb_ge in E.
      replace (Z.to_nat (l - count)) with 0%nat by lia.
      replace (Z.to_nat (l - (count + 1))) with 0%nat by lia. reflexivity.
Qed.

(** With a non-empty condition and a limit that is absent or not negative,
    iterating [records_where] gives the same rows, or raises the same
    exception, as [read_where]. *)
Theorem records_where_read_where (condition : string) (limit : option Z) :
  condition <> ""%string ->
  (forall l, limit = Some l -> 0 <= l) ->
  records_where Row rows tokenize bytes_literal untokenize select (Some condition) limit =
  read_where Row tokenize bytes_literal untokenize select condition limit.
Proof.
  intros Hne Hl. unfold records_where, read_where.
  apply String.eqb_neq in Hne. rewrite Hne.
  destruct (parse_condition tokenize bytes_literal untokenize condition) as [e|c];
    [reflexivity|].
  destruct (select c) as [e|rs]; [reflexivity|].
  f_equal. unfold slice_to. destruct limit as [l|].
  - specialize (Hl l eq_refl). rewrite yield_limited_Some.
    apply Z.leb_le in Hl. rewrite Hl. f_equal. lia.
  - apply yield_limited_None.
Qed.

(** A negative limit: [records_where] yields no row, while [read_where]
    slices with it and drops the last [-limit] matching rows. *)
Theorem records_where_negative_limit (condition : string) (l : Z) (matching : list Row) :
  condition <> ""%string -> l < 0 ->
  read_where Row tokenize bytes_literal untokenize select condition None = inr matching ->
  records_where Row rows tokenize bytes_literal untokenize select (Some condition) (Some l) =
    inr [] /\
  read_where Row tokenize bytes_literal untokenize select condition (Some l) =
    inr (firstn (length matching - Z.to_nat (- l)) matching).
Proof.
  intros Hne Hl H. unfold records_where, read_where in *.
  apply String.eqb_neq in Hne. rewrite Hne.
  destruct (parse_condition tokenize bytes_literal untokenize condition) as [e|c];
    [discriminate|].
  destruct (select c) as [e|rs]; [discriminate|].
  injection H as <-. split.
  - rewrite yield_limited_Some. replace (Z.to_nat (l - 0)) with 0%nat by lia. reflexivity.
  - unfold slice_to. destruct (0 <=? l) eqn:E; [apply Z.leb_le in E; lia|]. reflexivity.
Qed.

(** With the condition [None] or empty, [records_where] reads the whole
    table in storage order, without compiling a condition, and never
    raises: all rows without a limit, the first [limit] ones with a limit
    that is not negative, none with a negative one. *)
Theorem records_where_no_condition (condition : option string) (limit : option Z) :
  condition = None \/ condition = Some ""%string ->
  records_where Row rows tokenize bytes_literal untokenize select condition limit =
  inr (match limit with
       | None => rows
       | Some l => if 0 <=? l then firstn (Z.to_nat l) rows else []
       end).
Proof.
  intros Hc. unfold records_where.
  assert (Hs : match condition with
               | None => inr rows
               | Some c => if String.eqb c "" then inr rows
                           else match parse_condition tokenize bytes_literal untokenize c with
                                | inl e => inl e | inr c' => select c' end
               end = inr rows) by (destruct Hc as [->| ->]; reflexivity).
  rewrite Hs. f_equal. destruct limit as [l|]; [|apply yield_limited_None].
  rewrite yield_limited_Some, Z.sub_0_r.
  destruct (0 <=? l) eqn:E; [reflexivity|].
  apply Z.leb_gt in E. replace (Z.to_nat l) with 0%nat by lia. reflexivity.
Qed.

End Facts.

End SelectFacts.

Module WriterMore.
Import Writer WriterFacts.

Lemma write_col_keys cast csvrow st cc :
  map fst (w_row (write_col cast csvrow st cc)) = map fst (w_row st).
Proof.
  destruct cc as [col co]. unfold write_col;
  destruct (lookup col csvrow) as [v|];
  [destruct (cast co v) as [x|];
   [destruct (min_value co) as [b1|];
    [destruct (any_lt x b1) as [[|]|] |] |] |]; simpl;
  try (destruct (max_value co) as [b2|]; [destruct (any_gt x b2) as [[|]|]|]; simpl); rewrite ?set_keys; reflexivity.
Qed.

Lemma fold_write_keys cast csvrow cols st :
  map fst (w_row (fold_left (write_col cast csvrow) cols st)) = map fst (w_row st).
Proof.
  revert st. induction cols as [|cc cols IH]; intros st; [reflexivity|].
  cbn [fold_left]. rewrite IH. apply write_col_keys.
Qed.

Lemma write_col_reports cast csvrow st col co :
  let st' := write_col cast csvrow st (col, co) in
  (w_missing st' = w_missing st ++ [col] /\ w_oob st' = w_oob st) \/
  (w_missing st' = w_missing st /\ w_oob st' = w_oob st ++ [col]) \/
  (w_missing st' = w_missing st /\ w_oob st' = w_oob st).
Proof.
  cbv zeta. unfold write_col;
  destruct (lookup col csvrow) as [v|];
  [destruct (cast co v) as [x|];
   [destruct (min_value co) as [b1|];
    [destruct (any_lt x b1) as [[|]|] |] |] |]; simpl;
  try (destruct (max_value co) as [b2|]; [destruct (any_gt x b2) as [[|]|]|]; simpl); auto.
Qed.

Lemma write_col_absent cast csvrow st col co :
  lookup col csvrow = None ->
  let st' := write_col cast csvrow st (col, co) in
  w_row st' = w_row st /\ w_missing st' = w_missing st ++ [col] /\ w_oob st' = w_oob st.
Proof. intros H. cbv zeta. unfold write_col. rewrite H. auto. Qed.

Lemma lookup_defaults cols col co :
  NoDup (map fst cols) -> In (col, co) cols -> lookup col (defaults cols) = Some (dflt co).
Proof.
  induction cols as [|[c o] cols IH]; simpl; [tauto|].
  intros Hnd [E|Hin]; inversion Hnd as [|? ? Hc Hnd']; subst.
  - injection E as <- <-. rewrite String.eqb_refl. reflexivity.
  - destruct (String.eqb c col) eqn:E.
    + apply String.eqb_eq in E. subst c. exfalso. apply Hc.
      apply in_map_iff. exists (col, co). auto.
    + apply IH; assumption.
Qed.

(** A column of the table that the csv row lacks is reported missing once,
    never out of bounds, and keeps its default; the three id columns are
    the exception to the last point, as [get_ids] overwrites them. *)
Theorem writerow_absent_column cast cols csvrow dbname tr miss oob col co :
  NoDup (map fst cols) -> In (col, co) cols -> lookup col csvrow = None ->
  _writerow cast cols csvrow dbname = inr (tr, miss, oob) ->
  count_occ string_dec miss col = 1%nat /\ ~ In col oob /\
  (col <> "event_id"%string -> col <> "station_id"%string -> col <> "record_id"%string ->
   lookup col tr = Some (dflt co)).
Proof.
  intros Hnd Hin Hv Hw.
  pose proof (lookup_defaults _ _ _ Hnd Hin) as Hdef.
  destruct (in_split _ _ Hin) as (pre & post & Ecols).
  rewrite Ecols in Hnd. rewrite map_app in Hnd. simpl in Hnd.
  pose proof (NoDup_remove_2 _ _ _ Hnd) as Hnin. rewrite in_app_iff in Hnin.
  unfold _writerow in Hw.
  set (st0 := {| w_row := defaults cols; w_missing := []; w_oob := [] |}) in Hw.
  rewrite Ecols in Hw. rewrite fold_left_app in Hw. cbn [fold_left] in Hw.
  set (stA := fold_left (write_col cast csvrow) pre st0) in Hw.
  set (stB := write_col cast csvrow stA (col, co)) in Hw.
  set (stC := fold_left (write_col cast csvrow) post stB) in Hw.
  pose proof (fold_write_other cast csvrow pre st0 col ltac:(tauto)) as HA.
  pose proof (fold_write_other cast csvrow post stB col ltac:(tauto)) as HC.
  cbv zeta in HA, HC. fold stA in HA. fold stC in HC.
  destruct HA as (_ & A2 & A3 & A4). destruct HC as (_ & C2 & C3 & C4).
  pose proof (write_col_absent cast csvrow stA col co Hv) as HB.
  cbv zeta in HB. fold stB in HB. destruct HB as (B1 & B2 & B3).
  destruct (Ids.get_ids (idrow_of (w_row stC)) dbname) as [[[evid staid] recid]|];
    [|discriminate].
  injection Hw as <- <- <-.
  rewrite <- count_occ_zero_iff. rewrite C3, C4, B2, B3, count_occ_app_same, A3, A4.
  split; [reflexivity|split; [reflexivity|]].
  intros H1 H2 H3. rewrite !lookup_set_other by congruence.
  rewrite C2, B1, A2. exact Hdef.
Qed.

Lemma idrow_of_set_ids r e s c :
  idrow_of (set (set (set r "event_id" e) "station_id" s) "record_id" c) = idrow_of r.
Proof. unfold idrow_of. rewrite !lookup_set_other by discriminate. reflexivity. Qed.

(** Whatever the csv row holds for [event_id], [station_id] and
    [record_id], the row written to the table holds the three digests
    [get_ids] computes from the written row itself: recomputing them from
    the stored cells gives the stored ids back. *)
Theorem writerow_ids_consistent cast csvrow dbname tr miss oob :
  _writerow cast gm_columns csvrow dbname = inr (tr, miss, oob) ->
  exists evid staid recid,
    Ids.get_ids (idrow_of tr) dbname = Some (evid, staid, recid) /\
    lookup "event_id" tr = Some (CBytes (string_of_bytes evid)) /\
    lookup "station_id" tr = Some (CBytes (string_of_bytes staid)) /\
    lookup "record_id" tr = Some (CBytes (string_of_bytes recid)).
Proof.
  unfold _writerow. intros Hw.
  set (st := fold_left (write_col cast csvrow) gm_columns
               {| w_row := defaults gm_columns; w_missing := []; w_oob := [] |}) in Hw.
  assert (Hk : map fst (w_row st) = map fst gm_columns).
  { unfold st. rewrite fold_write_keys. apply defaults_keys. }
  destruct (Ids.get_ids (idrow_of (w_row st)) dbname) as [[[evid staid] recid]|] eqn:G;
    [|discriminate].
  injection Hw as <- <- <-. exists evid, staid, recid.
  rewrite idrow_of_set_ids. split; [exact G|].
  assert (Hin : forall k, In k ["event_id"; "station_id"; "record_id"]%string ->
                          In k (map fst (w_row st))).
  { intros k Hk'. rewrite Hk. simpl in Hk' |- *. intuition subst; auto 30. }
  split; [|split].
  - rewrite !lookup_set_other by discriminate. apply lookup_set_same. apply Hin. simpl; auto.
  - rewrite lookup_set_other by discriminate. apply lookup_set_same.
    rewrite set_keys. apply Hin. simpl; auto.
  - apply lookup_set_same. rewrite !set_keys. apply Hin. simpl; auto.
Qed.

(** A value the column accepts as nan passes both bound checks: it is
    written as nan and reported neither out of bounds nor missing, also in
    the columns with a [min_value] or a [max_value]. *)
Theorem writerow_nan_in_bounds cast cols csvrow dbname tr miss oob col co v :
  NoDup (map fst cols) -> In (col, co) cols ->
  col <> "event_id"%string -> col <> "station_id"%string -> col <> "record_id"%string ->
  lookup col csvrow = Some v -> cast co v = Some (CFloat nan) ->
  _writerow cast cols csvrow dbname = inr (tr, miss, oob) ->
  lookup col tr = Some (CFloat nan) /\ ~ In col oob /\ ~ In col miss.
Proof.
  intros Hnd Hin H1 H2 H3 Hv Hx Hw.
  assert (Hlt : forall b, PrimFloat.ltb nan b = false).
  { intros b. destruct (PrimFloat.ltb nan b) eqn:E; [|reflexivity].
    apply SaFacts.ltb_not_nan_l in E. vm_compute in E. discriminate. }
  assert (Hgt : forall b, PrimFloat.ltb b nan = false).
  { intros b. destruct (PrimFloat.ltb b nan) eqn:E; [|reflexivity].
    apply SaFacts.ltb_not_nan_r in E. vm_compute in E. discriminate. }
  destruct (writerow_column cast cols csvrow dbname tr miss oob col co v (CFloat nan) [nan]
              Hnd Hin H1 H2 H3 Hv Hx eq_refl Hw) as (_ & _ & H).
  apply H; intros b _; simpl; rewrite ?Hlt, ?Hgt; reflexivity.
Qed.

Lemma fold_write_reports cast csvrow cols : forall st,
  NoDup (map fst cols) -> NoDup (w_missing st ++ w_oob st) ->
  (forall c, In c (w_missing st ++ w_oob st) -> ~ In c (map fst cols)) ->
  let st' := fold_left (write_col cast csvrow) cols st in
  NoDup (w_missing st' ++ w_oob st') /\
  incl (w_missing st' ++ w_oob st') (w_missing st ++ w_oob st ++ map fst cols).
Proof.
  cbv zeta. induction cols as [|[col co] cols IH]; intros st Hnd Hrep Hdis.
  - cbn [fold_left map]. rewrite app_nil_r. split; [exact Hrep|].
    apply incl_refl.
  - cbn [fold_left map] in *. inversion Hnd as [|? ? Hc Hnd']; subst.
    set (st1 := write_col cast csvrow st (col, co)).
    assert (Hcol : ~ In col (w_missing st ++ w_oob st)).
    { intros H. apply (Hdis col H). left. reflexivity. }
    assert (Hst1 : (w_missing st1 ++ w_oob st1 = w_missing st ++ w_oob st) \/
                   Permutation (w_missing st1 ++ w_oob st1) (col :: w_missing st ++ w_oob st)).
    { destruct (write_col_reports cast csvrow st col co) as [(E1 & E2)|[(E1 & E2)|(E1 & E2)]];
        fold st1 in E1, E2; rewrite E1, E2.
      - right. rewrite <- app_assoc. simpl. apply Permutation_sym, Permutation_middle.
      - right. rewrite app_assoc. apply Permutation_sym, Permutation_cons_append.
      - left. reflexivity. }
    assert (Hin1 : forall c, In c (w_missing st1 ++ w_oob st1) ->
                             c = col \/ In c (w_missing st ++ w_oob st)).
    { intros c Hc'. destruct Hst1 as [E|P]; [rewrite E in Hc'; auto|].
      apply (Permutation_in _ P) in Hc'. destruct Hc'; auto. }
    destruct (IH st1 Hnd') as (N & I).
    + destruct Hst1 as [E|P]; [rewrite E; exact Hrep|].
      apply (Permutation_NoDup (Permutation_sym P)). constructor; assumption.
    + intros c Hc' Hcin. destruct (Hin1 c Hc') as [->|Hc''].
      * contradiction.
      * apply (Hdis c Hc''). right. exact Hcin.
    + split; [exact N|]. intros c Hc'. apply I in Hc'.
      rewrite app_assoc in Hc'. apply in_app_iff in Hc'. destruct Hc' as [Hc'|Hc'].
      * destruct (Hin1 c Hc') as [->|Hc''].
        -- apply in_app_iff. right. apply in_app_iff. right. left. reflexivity.
        -- rewrite app_assoc. apply in_app_iff. left. exact Hc''.
      * apply in_app_iff. right. apply in_app_iff. right. right. exact Hc'.
Qed.

(** For a table whose column names are unique, [_writerow] reports every
    column at most once over its two lists together: a column is either
    missing, or out of bounds, or neither, and only columns of the table
    are reported. *)
Theorem writerow_reports_once cast cols csvrow dbname tr miss oob :
  NoDup (map fst cols) ->
  _writerow cast cols csvrow dbname = inr (tr, miss, oob) ->
  NoDup (miss ++ oob) /\ incl (miss ++ oob) (map fst cols).
Proof.
  intros Hnd Hw. unfold _writerow in Hw.
  set (st0 := {| w_row := defaults cols; w_missing := []; w_oob := [] |}) in Hw.
  destruct (fold_write_reports cast csvrow cols st0 Hnd (NoDup_nil _) (fun c H => match H with end))
    as (N & I).
  destruct (Ids.get_ids _ dbname) as [[[evid staid] recid]|]; [|discriminate].
  injection Hw as <- <- <-. split; [exact N|]. exact I.
Qed.

End WriterMore.

Module CounterFacts.
Import Driver.

(** [counter[k]] of the [defaultdict(int)]. *)
Definition count_of (c : counter) (k : string) : nat :=
  match Writer.lookup k c with Some n => n | None => 0%nat end.

Lemma count_of_incr c k k' :
  count_of (incr c k) k' = (count_of c k' + if String.eqb k k' then 1 else 0)%nat.
Proof.
  unfold count_of. induction c as [|[k0 n] c IH]; simpl.
  - destruct (String.eqb k k'); reflexivity.
  - destruct (String.eqb k0 k) eqn:E0; simpl.
    + apply String.eqb_eq in E0. subst k0.
      destruct (String.eqb k k'); lia.
    + destruct (String.eqb k0 k') eqn:E1.
      * apply String.eqb_eq in E1. subst k0.
        destruct (String.eqb k k') eqn:E2; [apply String.eqb_eq in E2; subst; rewrite String.eqb_refl in E0; discriminate|].
        lia.
      * exact IH.
Qed.

Lemma count_of_fold l c k :
  count_of (fold_left incr l c) k = (count_of c k + count_occ string_dec l k)%nat.
Proof.
  revert c. induction l as [|x l IH]; intros c; simpl; [lia|].
  rewrite IH, count_of_incr.
  destruct (string_dec x k) as [->|Hne]; [rewrite String.eqb_refl; lia|].
  apply String.eqb_neq in Hne. rewrite Hne. lia.
Qed.

Section Facts.
Variable Row Rec : Type.
Variable writerow : Row -> exc + (Rec * list string * list string).

(** The missing and the out-of-bound columns [_writerow] reports for a row. *)
Definition row_missing (r : Row) : list string :=
  match writerow r with inr (_, m, _) => m | inl _ => [] end.
Definition row_outofbound (r : Row) : list string :=
  match writerow r with inr (_, _, o) => o | inl _ => [] end.

Lemma parse_loop_counts rows : forall i st st' k,
  parse_loop Row Rec writerow i st rows = inr st' ->
  count_of (p_missing Rec st') k =
    (count_of (p_missing Rec st) k +
     count_occ string_dec (flat_map row_missing (written_rows Row rows)) k)%nat /\
  count_of (p_outofbound Rec st') k =
    (count_of (p_outofbound Rec st) k +
     count_occ string_dec (flat_map row_outofbound (written_rows Row rows)) k)%nat.
Proof.
  induction rows as [|r rest IH]; intros i st st' k H; simpl in H.
  - injection H as <-. simpl. lia.
  - destruct (parse_step Row Rec writerow st i r) as [e|st1] eqn:E; [discriminate|].
    destruct (IH _ _ _ k H) as (H1 & H2). rewrite H1, H2.
    unfold parse_step in E. destruct r as [row|].
    + change (written_rows Row (Some row :: rest)) with (row :: written_rows Row rest).
      cbn [flat_map]. rewrite !count_occ_app.
      destruct (writerow row) as [e|[[rec mc] oc]] eqn:W; [discriminate|].
      assert (Rm : row_missing row = mc) by (unfold row_missing; rewrite W; reflexivity).
      assert (Ro : row_outofbound row = oc) by (unfold row_outofbound; rewrite W; reflexivity).
      injection E as <-. cbn [p_missing p_outofbound].
      rewrite Rm, Ro, !count_of_fold. lia.
    + change (written_rows Row (None :: rest)) with (written_rows Row rest).
      injection E as <-. cbn [p_missing p_outofbound]. lia.
Qed.

(** [missing_values[col]] and [outofbound_values[col]] count the reports of
    the rows that were written: each is the number of times [col] appears
    in the lists [_writerow] returned for the rows [_rows] did not reject;
    rejected rows add nothing. *)
Theorem parse_counts rows stop st recs :
  parse Row Rec writerow rows stop = inr (st, recs) ->
  forall col,
    count_of (missing_values st) col =
      count_occ string_dec (flat_map row_missing (written_rows Row rows)) col /\
    count_of (outofbound_values st) col =
      count_occ string_dec (flat_map row_outofbound (written_rows Row rows)) col.
Proof.
  unfold parse. intros H col.
  destruct (parse_loop _ _ _ _ _ rows) as [e|st'] eqn:E; [discriminate|].
  destruct stop; [discriminate|]. injection H as <- <-. simpl.
  destruct (parse_loop_counts rows _ _ _ col E) as (H1 & H2).
  rewrite H1, H2. split; reflexivity.
Qed.

End Facts.

Lemma written_rows_length {Row} (rows : list (option Row)) : forall i,
  (length (written_rows Row rows) + length (none_indices Row i rows) = length rows)%nat.
Proof.
  induction rows as [|[r|] rows IH]; intros i; simpl; [reflexivity| |].
  - specialize (IH (i + 1)). lia.
  - specialize (IH (i + 1)). lia.
Qed.

End CounterFacts.

Module ParseWriterFacts.
Import Writer WriterFacts Driver CounterFacts.

Section Facts.
Variable Row Rec : Type.
Variable cast : colobj -> pyval -> option cell.
Variable csv_of : Row -> list (string * pyval).
Variable dbname : string.

Lemma row_reports_le_1 r col :
  (count_occ string_dec (row_missing Row tablerow (fun x => _writerow cast gm_columns (csv_of x) dbname) r) col +
   count_occ string_dec (row_outofbound Row tablerow (fun x => _writerow cast gm_columns (csv_of x) dbname) r) col <= 1)%nat.
Proof.
  unfold row_missing, row_outofbound.
  destruct (_writerow cast gm_columns (csv_of r) dbname) as [e|[[tr m] o]] eqn:W;
    [simpl; lia|].
  destruct (WriterMore.writerow_reports_once cast gm_columns (csv_of r) dbname tr m o
              gm_columns_nodup W) as (N & _).
  rewrite <- count_occ_app. exact (proj1 (NoDup_count_occ string_dec (m ++ o)) N col).
Qed.

Lemma written_Z rows stop st recs :
  parse Row tablerow (fun x => _writerow cast gm_columns (csv_of x) dbname) rows stop = inr (st, recs) ->
  Z.to_nat (written st) = length (written_rows Row rows).
Proof.
  intros H.
  destruct (DriverFacts.parse_spec Row tablerow (fun x => _writerow cast gm_columns (csv_of x) dbname) rows stop st recs H)
    as (_ & Htot & Hwr & Herr & _).
  pose proof (written_rows_length rows 0) as L.
  rewrite Hwr, Htot, Herr. lia.
Qed.

(** With the table's columns, [missing_values[col] + outofbound_values[col]]
    never exceeds [written]; and a table column that no written csv row
    has is counted missing in every written row, so its count equals
    [written]. *)
Theorem parse_gm_column_counts rows stop st recs :
  parse Row tablerow (fun x => _writerow cast gm_columns (csv_of x) dbname) rows stop = inr (st, recs) ->
  forall col,
    (count_of (missing_values st) col + count_of (outofbound_values st) col
       <= Z.to_nat (written st))%nat /\
    (In col (map fst gm_columns) ->
     (forall r, In r (written_rows Row rows) -> lookup col (csv_of r) = None) ->
     count_of (missing_values st) col = Z.to_nat (written st)).
Proof.
  intros H col.
  destruct (parse_counts Row tablerow (fun x => _writerow cast gm_columns (csv_of x) dbname) rows stop st recs H col) as (Hm & Ho).
  rewrite Hm, Ho, (written_Z rows stop st recs H).
  destruct (DriverFacts.parse_spec Row tablerow (fun x => _writerow cast gm_columns (csv_of x) dbname) rows stop st recs H)
    as (_ & _ & _ & _ & Hw & _).
  clear H Hm Ho.
  remember (written_rows Row rows) as W eqn:EW. clear EW.
  induction Hw as [|r rec W recs' Hwr Hw IH]; [split; [simpl; lia | intros; reflexivity]|].
  cbn [flat_map length]. rewrite !count_occ_app.
  destruct IH as (IH1 & IH2). split.
  - pose proof (row_reports_le_1 r col). lia.
  - intros Hin Habs.
    destruct Hwr as (m & o & E). cbv beta in E.
    apply in_map_iff in Hin. destruct Hin as ([c co] & Ec & Hin). simpl in Ec. subst c.
    destruct (WriterMore.writerow_absent_column cast gm_columns (csv_of r) dbname rec m o col co
                gm_columns_nodup Hin (Habs r (or_introl eq_refl)) E) as (H1 & _).
    assert (Rm : row_missing Row tablerow (fun x => _writerow cast gm_columns (csv_of x) dbname) r = m)
      by (unfold row_missing; cbv beta; rewrite E; reflexivity).
    assert (Hc : In col (map fst gm_columns)).
    { apply in_map_iff. exists (col, co). split; [reflexivity | exact Hin]. }
    assert (Hr : forall r', In r' W -> lookup col (csv_of r') = None).
    { intros r' Hr'. apply Habs. right. exact Hr'. }
    rewrite Rm, H1, (IH2 Hc Hr). reflexivity.
Qed.

End Facts.

End ParseWriterFacts.

Module ColumnsFacts.
Import Columns.
Local Open Scope string_scope.
Local Open Scope nat_scope.
Local Open Scope list_scope.

Lemma convert_inr_iff a from_ to_ :
  (exists y, SmUtils.convert_accel_units a from_ to_ = inr y) <->
  In from_ _accel_units /\ In to_ _accel_units.
Proof.
  rewrite SmUtilsFacts.accel_units_eq, SmUtilsFacts.convert_family.
  set (L := "g" :: SmUtils.m_sec_square ++ SmUtils.cm_sec_square).
  assert (D1 : SmUtilsFacts.family from_ <> None <-> In from_ L).
  { rewrite SmUtilsFacts.family_None. destruct (In_dec string_dec from_ L); tauto. }
  assert (D2 : SmUtilsFacts.family to_ <> None <-> In to_ L).
  { rewrite SmUtilsFacts.family_None. destruct (In_dec string_dec to_ L); tauto. }
  revert D1 D2.
  destruct (SmUtilsFacts.family from_) as [[|[|[|n]]]|], (SmUtilsFacts.family to_) as [[|[|[|m]]]|];
    intros D1 D2; split;
    try (intros _; split; [apply D1 | apply D2]; discriminate);
    try (intros; eexists; reflexivity);
    try (intros [y Hy]; discriminate Hy);
    intros [Ha Hb]; first [apply D1 in Ha; destruct (Ha eq_refl) | apply D2 in Hb; destruct (Hb eq_refl)].
Qed.

Lemma pga_loop_result fields : forall p u col unit,
  pga_column_loop fields p u = inr (col, unit) ->
  (In col fields /\ _pga_unit_re col = Some unit /\ In unit _accel_units) \/
  ((p = Some col \/ (In col fields /\ strip (lower col) = "pga")) /\
   (u = Some unit \/ (In unit fields /\ strip (lower unit) = "acceleration_unit"))).
Proof.
  induction fields as [|fname rest IH]; intros p u col unit H; cbn [pga_column_loop] in H.
  - destruct p as [p|], u as [u'|]; try discriminate.
    injection H as -> ->. right. auto.
  - destruct (negb (is_some p) && String.eqb (strip (lower fname)) "pga") eqn:E1.
    + apply andb_true_iff in E1. destruct E1 as [_ E1]. apply String.eqb_eq in E1.
      destruct (IH _ _ _ _ H) as [(A & B & C)|[A B]].
      * left. split; [right; exact A | auto].
      * right. split.
        -- destruct A as [A|(A1 & A2)].
           ++ injection A as <-. right. split; [left; reflexivity | exact E1].
           ++ right. split; [right; exact A1 | exact A2].
        -- destruct B as [B|(B1 & B2)]; [left; exact B | right; split; [right; exact B1 | exact B2]].
    + destruct (negb (is_some u) && String.eqb (strip (lower fname)) "acceleration_unit") eqn:E2.
      * apply andb_true_iff in E2. destruct E2 as [_ E2]. apply String.eqb_eq in E2.
        destruct (IH _ _ _ _ H) as [(A & B & C)|[A B]].
        -- left. split; [right; exact A | auto].
        -- right. split.
           ++ destruct A as [A|(A1 & A2)]; [left; exact A | right; split; [right; exact A1 | exact A2]].
           ++ destruct B as [B|(B1 & B2)].
              ** injection B as <-. right. split; [left; reflexivity | exact E2].
              ** right. split; [right; exact B1 | exact B2].
      * destruct (_pga_unit_re fname) as [unit'|] eqn:E3.
        -- destruct (Condition.in_strs unit' _accel_units) eqn:E4; [|discriminate].
           injection H as <- <-. left. split; [left; reflexivity|].
           split; [exact E3 | apply SmUtilsFacts.in_strs_In; exact E4].
        -- destruct (IH _ _ _ _ H) as [(A & B & C)|[A B]].
           ++ left. split; [right; exact A | auto].
           ++ right. split.
              ** destruct A as [A|(A1 & A2)]; [left; exact A | right; split; [right; exact A1 | exact A2]].
              ** destruct B as [B|(B1 & B2)]; [left; exact B | right; split; [right; exact B1 | exact B2]].
Qed.

(** What [_get_pga_column] can return: a header field [pga(<unit>)] whose
    unit is one of the seven accepted spellings, with that unit; or the
    pair of a field reading [pga] and a field reading [acceleration_unit],
    both compared after [lower().strip()], with the second field's name as
    the unit. *)
Theorem get_pga_column_result fields col unit :
  _get_pga_column fields = inr (col, unit) ->
  In col fields /\
  ((_pga_unit_re col = Some unit /\ In unit _accel_units) \/
   (strip (lower col) = "pga" /\ In unit fields /\ strip (lower unit) = "acceleration_unit")).
Proof.
  intros H. destruct (pga_loop_result fields None None col unit H) as [(A & B & C)|(A & B)].
  - split; [exact A | left; auto].
  - destruct A as [A|(A1 & A2)]; [discriminate|].
    destruct B as [B|(B1 & B2)]; [discriminate|].
    split; [exact A1 | right; auto].
Qed.

Lemma accel_unit_not_unit_column u : In u _accel_units -> strip (lower u) <> "acceleration_unit".
Proof. simpl. intros H. intuition subst; discriminate. Qed.

Lemma nth_error_list_set {A} (l : list A) : forall i j v, i < length l ->
  nth_error (list_set l i v) j = if Nat.eqb i j then Some v else nth_error l j.
Proof.
  induction l as [|a l IH]; intros i j v H; [simpl in H; lia|].
  destruct i as [|i], j as [|j]; try reflexivity.
  change (list_set (a :: l) (S i) v) with (a :: list_set l i v).
  cbn [nth_error Nat.eqb]. apply IH. simpl in H. lia.
Qed.

Lemma list_set_length {A} (l : list A) : forall i v, i < length l ->
  length (list_set l i v) = length l.
Proof.
  induction l as [|a l IH]; intros i v H; [simpl in H; lia|].
  destruct i as [|i]; [reflexivity|].
  change (list_set (a :: l) (S i) v) with (a :: list_set l i v).
  cbn [length]. f_equal. apply IH. simpl in H. lia.
Qed.

Lemma index_in_colnames s i :
  index_in s _event_time_colnames 0 = Some i <->
  i < 6 /\ nth i _event_time_colnames "" = s.
Proof.
  unfold _event_time_colnames. cbn [index_in].
  repeat match goal with
  | |- context [String.eqb ?a s] =>
      let E := fresh "E" in
      destruct (String.eqb a s) eqn:E; [apply String.eqb_eq in E; subst s|]
  end;
  (split;
   [intros Hx; first [discriminate Hx | injection Hx as <-; split; [lia | reflexivity]]
   | intros [Hi Hn]; destruct i as [|[|[|[|[|[|i]]]]]]; cbn [nth] in Hn; try lia;
     try reflexivity; subst; cbn in *; congruence]).
Qed.

Lemma evtime_step_length names f : length names = 6 -> length (evtime_step names f) = 6.
Proof.
  intros H. unfold evtime_step.
  destruct (index_in (lower f) _event_time_colnames 0) as [k|] eqn:E; [|exact H].
  apply index_in_colnames in E. rewrite list_set_length; [exact H | lia].
Qed.

Lemma colnames_inj i j :
  i < 6 -> j < 6 -> nth i _event_time_colnames "" = nth j _event_time_colnames "" -> i = j.
Proof.
  intros Hi Hj E.
  destruct i as [|[|[|[|[|[|i]]]]]], j as [|[|[|[|[|[|j]]]]]]; try lia; cbn in E; congruence.
Qed.

Lemma evtime_step_nth names f i : length names = 6 ->
  nth_error (evtime_step names f) i =
  if (i <? 6) && String.eqb (nth i _event_time_colnames "") (lower f)
  then Some (Some f) else nth_error names i.
Proof.
  intros Hl. unfold evtime_step.
  destruct (index_in (lower f) _event_time_colnames 0) as [k|] eqn:E.
  - apply index_in_colnames in E. destruct E as [Hk Ek].
    rewrite nth_error_list_set by lia.
    destruct (Nat.eqb k i) eqn:Eki.
    + apply Nat.eqb_eq in Eki. subst k.
      rewrite (proj2 (Nat.ltb_lt i 6) Hk), Ek, String.eqb_refl. reflexivity.
    + apply Nat.eqb_neq in Eki.
      destruct ((i <? 6) && String.eqb (nth i _event_time_colnames "") (lower f)) eqn:C;
        [|reflexivity].
      apply andb_true_iff in C. destruct C as [C1 C2].
      apply Nat.ltb_lt in C1. apply String.eqb_eq in C2.
      exfalso. apply Eki. apply colnames_inj; [exact Hk | exact C1 | congruence].
  - destruct ((i <? 6) && String.eqb (nth i _event_time_colnames "") (lower f)) eqn:C;
      [|reflexivity].
    apply andb_true_iff in C. destruct C as [C1 C2].
    apply Nat.ltb_lt in C1. apply String.eqb_eq in C2.
    assert (E' : index_in (lower f) _event_time_colnames 0 = Some i)
      by (apply index_in_colnames; split; assumption).
    congruence.
Qed.

Lemma app_snoc_split {A} (l pre post : list A) x f :
  l ++ [x] = pre ++ f :: post ->
  (post = [] /\ pre = l /\ f = x) \/ (exists post', post = post' ++ [x] /\ l = pre ++ f :: post').
Proof.
  destruct post as [|y post'] using rev_ind; intros E.
  - apply app_inj_tail in E. destruct E as [E1 E2]. left. auto.
  - rewrite app_comm_cons, app_assoc in E. apply app_inj_tail in E.
    destruct E as [E1 E2]. subst y. right. exists post'. auto.
Qed.

Lemma evtime_fold_nth fields : forall init i, length init = 6 -> i < 6 ->
  length (fold_left evtime_step fields init) = 6 /\
  (forall f, nth_error (fold_left evtime_step fields init) i = Some (Some f) <->
     (exists pre post, fields = pre ++ f :: post /\ lower f = nth i _event_time_colnames "" /\
                       Forall (fun g => lower g <> nth i _event_time_colnames "") post) \/
     (nth_error init i = Some (Some f) /\
      Forall (fun g => lower g <> nth i _event_time_colnames "") fields)) /\
  (nth_error (fold_left evtime_step fields init) i = Some None <->
     nth_error init i = Some None /\
     Forall (fun g => lower g <> nth i _event_time_colnames "") fields).
Proof.
  induction fields as [|x l IH] using rev_ind; intros init i Hl Hi.
  - cbn [fold_left]. split; [exact Hl|]. split.
    + intros f. split.
      * intros H. right. split; [exact H | constructor].
      * intros [(pre & post & E & _)|[H _]]; [destruct pre; discriminate E | exact H].
    + split; [intros H; split; [exact H | constructor] | intros [H _]; exact H].
  - rewrite fold_left_app. cbn [fold_left].
    destruct (IH init i Hl Hi) as (HL & HF & HN).
    split; [apply evtime_step_length; exact HL|].
    rewrite (evtime_step_nth _ x i HL), (proj2 (Nat.ltb_lt i 6) Hi). cbn [andb].
    destruct (String.eqb (nth i _event_time_colnames "") (lower x)) eqn:Ex.
    + apply String.eqb_eq in Ex. split.
      * intros f. split.
        -- intros H. injection H as <-. left. exists l, []. split; [reflexivity|].
           split; [symmetry; exact Ex | constructor].
        -- intros [(pre & post & E & Hf & Hp)|[_ Hp]].
           ++ destruct (app_snoc_split _ _ _ _ _ E) as [(_ & _ & ->)|(post' & -> & _)];
                [reflexivity|].
              apply Forall_app in Hp. destruct Hp as [_ Hp]. inversion Hp as [|? ? Hx]; subst.
              exfalso. apply Hx. symmetry. exact Ex.
           ++ apply Forall_app in Hp. destruct Hp as [_ Hp]. inversion Hp as [|? ? Hx]; subst.
              exfalso. apply Hx. symmetry. exact Ex.
      * split; [intros H; discriminate H|].
        intros [_ Hp]. apply Forall_app in Hp. destruct Hp as [_ Hp].
        inversion Hp as [|? ? Hx]; subst. exfalso. apply Hx. symmetry. exact Ex.
    + apply String.eqb_neq in Ex.
      assert (Hx : Forall (fun g => lower g <> nth i _event_time_colnames "") [x])
        by (constructor; [intros C; apply Ex; symmetry; exact C | constructor]).
      split.
      * intros f. rewrite HF. split.
        -- intros [(pre & post & E & Hf & Hp)|[H Hp]].
           ++ left. exists pre, (post ++ [x]). split; [rewrite E, <- app_assoc; reflexivity|].
              split; [exact Hf | apply Forall_app; split; assumption].
           ++ right. split; [exact H | apply Forall_app; split; assumption].
        -- intros [(pre & post & E & Hf & Hp)|[H Hp]].
           ++ destruct (app_snoc_split _ _ _ _ _ E) as [(_ & _ & ->)|(post' & -> & El)].
              ** exfalso. apply Ex. symmetry. exact Hf.
              ** left. exists pre, post'. split; [exact El|]. split; [exact Hf|].
                 apply Forall_app in Hp. destruct Hp as [Hp _]. exact Hp.
           ++ right. split; [exact H|]. apply Forall_app in Hp. destruct Hp as [Hp _]. exact Hp.
      * rewrite HN. split.
        -- intros [H Hp]. split; [exact H | apply Forall_app; split; assumption].
        -- intros [H Hp]. split; [exact H|]. apply Forall_app in Hp. destruct Hp as [Hp _]. exact Hp.
Qed.

Lemma nth_error_repeat6 {A} (a : A) i : i < 6 -> nth_error (repeat a 6) i = Some a.
Proof. intros Hi. destruct i as [|[|[|[|[|[|i]]]]]]; try reflexivity; lia. Qed.

(** [_get_event_time_columns]: the default column alone when the header
    has it; otherwise six entries (year, month, day, hour, minute,
    second), entry [i] being the LAST header field whose [lower()] is the
    [i]-th name ([None] when no field matches); and it raises exactly when
    the default is absent and no field matches year, month or day. *)
Theorem get_event_time_columns_spec fields dflt :
  (In dflt fields -> _get_event_time_columns fields dflt = inr [Some dflt]) /\
  (~ In dflt fields ->
   (forall names, _get_event_time_columns fields dflt = inr names ->
      length names = 6 /\
      forall i, i < 6 ->
        (forall f, nth_error names i = Some (Some f) <->
           exists pre post, fields = pre ++ f :: post /\
                            lower f = nth i _event_time_colnames "" /\
                            Forall (fun g => lower g <> nth i _event_time_colnames "") post) /\
        (nth_error names i = Some None <->
         Forall (fun g => lower g <> nth i _event_time_colnames "") fields)) /\
   ((exists e, _get_event_time_columns fields dflt = inl e) <->
    exists i, i < 3 /\ Forall (fun g => lower g <> nth i _event_time_colnames "") fields)).
Proof.
  split.
  - intros H. unfold _get_event_time_columns.
    rewrite (proj2 (SmUtilsFacts.in_strs_In dflt fields) H). reflexivity.
  - intros Hn.
    assert (Hb : Condition.in_strs dflt fields = false).
    { destruct (Condition.in_strs dflt fields) eqn:E; [|reflexivity].
      apply SmUtilsFacts.in_strs_In in E. contradiction. }
    unfold _get_event_time_columns. rewrite Hb. cbv zeta.
    assert (HN : forall i, i < 6 ->
      (forall f, nth_error (fold_left evtime_step fields (repeat None 6)) i = Some (Some f) <->
         exists pre post, fields = pre ++ f :: post /\
                          lower f = nth i _event_time_colnames "" /\
                          Forall (fun g => lower g <> nth i _event_time_colnames "") post) /\
      (nth_error (fold_left evtime_step fields (repeat None 6)) i = Some None <->
       Forall (fun g => lower g <> nth i _event_time_colnames "") fields)).
    { intros i Hi.
      destruct (evtime_fold_nth fields (repeat None 6) i eq_refl Hi) as (_ & HF & HNo).
      split.
      - intros f. rewrite HF. split; [|intros H; left; exact H].
        intros [H|[H _]]; [exact H|]. rewrite nth_error_repeat6 in H by exact Hi.
        discriminate H.
      - rewrite HNo. split; [intros [_ H]; exact H|].
        intros H. split; [apply nth_error_repeat6; exact Hi | exact H]. }
    assert (HL : length (fold_left evtime_step fields (repeat None 6)) = 6)
      by (apply (evtime_fold_nth fields (repeat None 6) 0 eq_refl); lia).
    revert HN HL. generalize (fold_left evtime_step fields (repeat None 6)).
    intros N HN HL.
    destruct N as [|a0 [|a1 [|a2 [|a3 [|a4 [|a5 [|]]]]]]]; try discriminate HL.
    destruct a0 as [a0|], a1 as [a1|], a2 as [a2|];
      (split; [intros names H; first [discriminate H | injection H as <-; split; [reflexivity | exact HN]] |]);
      (split;
       [intros [e He];
        first [discriminate He
              | exists 0; split; [lia | apply (proj1 (proj2 (HN 0 ltac:(lia)))); reflexivity]
              | exists 1; split; [lia | apply (proj1 (proj2 (HN 1 ltac:(lia)))); reflexivity]
              | exists 2; split; [lia | apply (proj1 (proj2 (HN 2 ltac:(lia)))); reflexivity]]
       | intros (i & Hi & Hf);
         first [eexists; reflexivity
               | exfalso; assert (Hi6 : i < 6) by lia;
                 apply (proj2 (proj2 (HN i Hi6))) in Hf;
                 destruct i as [|[|[|i]]]; [simpl in Hf; discriminate Hf .. | lia]]]).
Qed.

Section PgaFacts.
Variable py_float : string -> option float.

(** The pga step of [_rows] after [_get_pga_column]. When the unit comes
    from the header (any name but ['acceleration_unit']), a row's pga is
    converted exactly when the unit is an accepted spelling and the row's
    pga value is a float string. When the unit column is named exactly
    ['acceleration_unit'], each row's own unit value must be an accepted
    spelling. A unit column named otherwise (['Acceleration_Unit'],
    [' acceleration_unit']) is resolved by [_get_pga_column], but then its
    name is taken as the unit and no row gets a converted pga. *)
Theorem rows_pga_outcome fields col unit (d : rowdict) :
  _get_pga_column fields = inr (col, unit) ->
  (unit <> "acceleration_unit" ->
   ((exists y, rows_pga py_float d col unit = inr y) <->
    In unit _accel_units /\
    exists s x, get (Some col) d = Some (RStr s) /\ py_float s = Some x)) /\
  (unit = "acceleration_unit" ->
   ((exists y, rows_pga py_float d col unit = inr y) <->
    exists s x u, get (Some col) d = Some (RStr s) /\ py_float s = Some x /\
                  get (Some unit) d = Some (RStr u) /\ In u _accel_units)) /\
  (unit <> "acceleration_unit" -> strip (lower unit) = "acceleration_unit" ->
   exists e, rows_pga py_float d col unit = inl e).
Proof.
  intros Hcol.
  assert (Hcm : In "cm/s/s" _accel_units) by (simpl; tauto).
  assert (G : unit <> "acceleration_unit" ->
            (exists y, rows_pga py_float d col unit = inr y) <->
            In unit _accel_units /\
            exists s x, get (Some col) d = Some (RStr s) /\ py_float s = Some x).
  { intros Hne. unfold rows_pga. apply String.eqb_neq in Hne. rewrite Hne.
    unfold _get_pga.
    destruct (get (Some col) d) as [[s| |l]|].
    - destruct (py_float s) as [x|] eqn:Ex.
      + rewrite convert_inr_iff. split.
        * intros [Ha _]. split; [exact Ha|]. exists s, x. split; [reflexivity | exact Ex].
        * intros [Ha _]. split; [exact Ha | exact Hcm].
      + split; [intros [y Hy]; discriminate Hy|].
        intros (_ & s' & x & E & F). injection E as <-. congruence.
    - split; [intros [y Hy]; discriminate Hy|]. intros (_ & s' & x & E & _). discriminate E.
    - split; [intros [y Hy]; discriminate Hy|]. intros (_ & s' & x & E & _). discriminate E.
    - split; [intros [y Hy]; discriminate Hy|]. intros (_ & s' & x & E & _). discriminate E. }
  split; [|split].
  - apply G.
  - intros Hu. unfold rows_pga. rewrite Hu. cbn [String.eqb Ascii.eqb Bool.eqb andb].
    rewrite <- Hu. unfold _get_pga.
    destruct (get (Some unit) d) as [v|] eqn:Ev.
    + destruct (get (Some col) d) as [[s| |l]|].
      * destruct (py_float s) as [x|] eqn:Ex.
        -- destruct v as [u| |l'].
           ++ rewrite convert_inr_iff. split.
              ** intros [Ha _]. exists s, x, u. repeat split; assumption.
              ** intros (s' & x' & u' & E1 & E2 & E3 & E4).
                 injection E1 as <-. injection E3 as <-. auto.
           ++ split; [intros [y Hy]; discriminate Hy|].
              intros (s' & x' & u' & _ & _ & E3 & _). discriminate E3.
           ++ split; [intros [y Hy]; discriminate Hy|].
              intros (s' & x' & u' & _ & _ & E3 & _). discriminate E3.
        -- split; [intros [y Hy]; discriminate Hy|].
           intros (s' & x' & u' & E1 & E2 & _). injection E1 as <-. congruence.
      * split; [intros [y Hy]; discriminate Hy|]. intros (s' & x' & u' & E1 & _). discriminate E1.
      * split; [intros [y Hy]; discriminate Hy|]. intros (s' & x' & u' & E1 & _). discriminate E1.
      * split; [intros [y Hy]; discriminate Hy|]. intros (s' & x' & u' & E1 & _). discriminate E1.
    + split; [intros [y Hy]; discriminate Hy|].
      intros (s' & x' & u' & _ & _ & E3 & _). discriminate E3.
  - intros Hne Hs.
    destruct (rows_pga py_float d col unit) as [e|y] eqn:E; [exists e; reflexivity|].
    exfalso. destruct (proj1 (G Hne) (ex_intro _ y eq_refl)) as [Ha _].
    exact (accel_unit_not_unit_column unit Ha Hs).
Qed.

End PgaFacts.

Section Facts.
Variable py_float : string -> option float.
Variable py_int : string -> option Z.

(** [_get_sa_columns]: on success the names are the header fields matched
    by [_sa_periods_re], in header order, each paired with [float()] of its
    captured period; it raises exactly when the group of some matching
    field is not a float literal. *)
Theorem get_sa_columns_spec fields :
  (forall names periods, _get_sa_columns py_float fields = inr (names, periods) ->
     names = filter (fun f => is_some (_sa_periods_re f)) fields /\
     Forall2 (fun n p => exists grp, _sa_periods_re n = Some grp /\ py_float grp = Some p)
             names periods) /\
  ((exists e, _get_sa_columns py_float fields = inl e) <->
   exists f grp, In f fields /\ _sa_periods_re f = Some grp /\ py_float grp = None).
Proof.
  induction fields as [|fname rest [IH1 IH2]].
  - split.
    + intros names periods H. injection H as <- <-. split; [reflexivity | constructor].
    + split; [intros [e He]; discriminate He | intros (f & grp & [] & _)].
  - cbn [_get_sa_columns filter].
    destruct (_sa_periods_re fname) as [grp|] eqn:Eg; cbn [is_some].
    + destruct (py_float grp) as [p|] eqn:Ep.
      * destruct (_get_sa_columns py_float rest) as [e|[ns ps]] eqn:Er.
        -- split; [intros names periods H; discriminate H|].
           split; [intros _|intros _; exists e; reflexivity].
           destruct (proj1 IH2 (ex_intro _ e eq_refl)) as (f & g & Hin & Hf & Hg).
           exists f, g. split; [right; exact Hin | auto].
        -- split.
           ++ intros names periods H. injection H as <- <-.
              destruct (IH1 ns ps eq_refl) as [-> Hf]. split; [reflexivity|].
              constructor; [exists grp; split; assumption | exact Hf].
           ++ split; [intros [e He]; discriminate He|].
              intros (f & g & [<-|Hin] & Hf & Hg).
              ** congruence.
              ** destruct (proj2 IH2 (ex_intro _ f (ex_intro _ g (conj Hin (conj Hf Hg)))))
                   as [e He].
                 discriminate He.
      * split; [intros names periods H; discriminate H|].
        split; [intros _; exists fname, grp; split; [left; reflexivity | auto]|].
        intros _. eexists. reflexivity.
    + split; [exact IH1|]. rewrite IH2. split.
      * intros (f & g & Hin & Hf & Hg). exists f, g. split; [right; exact Hin | auto].
      * intros (f & g & [<-|Hin] & Hf & Hg); [congruence|]. exists f, g. auto.
Qed.


Lemma c_int_ok z : (- 2 ^ 31 <= z < 2 ^ 31)%Z -> c_int z = true.
Proof.
  intros H. unfold c_int. apply andb_true_iff. split; [apply Z.leb_le | apply Z.ltb_lt]; lia.
Qed.

Lemma days_in_month_le y m : (DTime.days_in_month y m <= 31)%Z.
Proof.
  unfold DTime.days_in_month.
  destruct (m =? 2)%Z; [destruct (DTime.is_leap y); lia|].
  destruct ((m =? 4)%Z || (m =? 6)%Z || (m =? 9)%Z || (m =? 11)%Z); lia.
Qed.

(** [_get_event_time] on six resolved columns: when year, month and day
    hold int strings, each of hour, minute and second is absent or an int
    string, and the values make a valid [datetime], the result is that
    datetime formatted by [strftime('%Y-%m-%dT%H:%M:%S')]: the year in
    decimal without padding, then month, day, hour, minute and second on two
    digits each; an absent time field counts as 0. *)
Theorem get_event_time_six d fy fm fd h mi se sy sm sd y m dd zh zmi zs :
  get (Some fy) d = Some (RStr sy) -> py_int sy = Some y ->
  get (Some fm) d = Some (RStr sm) -> py_int sm = Some m ->
  get (Some fd) d = Some (RStr sd) -> py_int sd = Some dd ->
  time_slot py_int d h zh -> time_slot py_int d mi zmi -> time_slot py_int d se zs ->
  (1 <= y <= 9999)%Z -> (1 <= m <= 12)%Z -> (1 <= dd <= DTime.days_in_month y m)%Z ->
  (0 <= zh <= 23)%Z -> (0 <= zmi <= 59)%Z -> (0 <= zs <= 59)%Z ->
  _get_event_time py_int d [Some fy; Some fm; Some fd; h; mi; se] =
  inr (DTime.strftime_iso (DTime.mkdt y m dd zh zmi zs)).
Proof.
  intros Gy Py Gm Pm Gd Pd Sh Smi Sse Ry Rm Rd Rh Rmi Rs.
  pose proof (days_in_month_le y m) as Hdim.
  unfold _get_event_time. rewrite Gy.
  cbn [event_time_args Nat.ltb Nat.leb].
  rewrite Gy, Gm, Gd. cbn [int_of_rv]. rewrite Py, Pm, Pd.
  destruct Sh as [[Eh ->]|(s1 & Eh & Ph)]; rewrite Eh; cbn [int_of_rv];
    try rewrite Ph;
  (destruct Smi as [[Emi ->]|(s2 & Emi & Pmi)]; rewrite Emi; cbn [int_of_rv];
    try rewrite Pmi);
  (destruct Sse as [[Ese ->]|(s3 & Ese & Pse)]; rewrite Ese; cbn [int_of_rv];
    try rewrite Pse);
  unfold py_datetime; cbn [forallb];
  rewrite ?c_int_ok by lia; cbn [negb andb length Nat.sub repeat app];
  repeat match goal with
  | |- context [Z.leb ?a ?b] =>
      replace (Z.leb a b) with true by (symmetry; apply Z.leb_le; lia)
  end;
  reflexivity.
Qed.

(** A CSV row longer than the header keeps its surplus values in a list
    under the key [None] (the [DictReader] rest key). [_get_event_time]
    reads an unresolved hour column as [rowdict.get(None, 0)], so on such a
    row [int()] of that list raises [TypeError] even when year, month and
    day are valid. *)
Theorem get_event_time_long_row d fy fm fd mi se sy sm sd y m dd extra :
  get (Some fy) d = Some (RStr sy) -> py_int sy = Some y ->
  get (Some fm) d = Some (RStr sm) -> py_int sm = Some m ->
  get (Some fd) d = Some (RStr sd) -> py_int sd = Some dd ->
  get None d = Some (RList extra) ->
  _get_event_time py_int d [Some fy; Some fm; Some fd; None; mi; se] = inl TypeError.
Proof.
  intros Gy Py Gm Pm Gd Pd Gn.
  unfold _get_event_time. rewrite Gy.
  cbn [event_time_args Nat.ltb Nat.leb].
  rewrite Gy, Gm, Gd, Gn. cbn [int_of_rv]. rewrite Py, Pm, Pd. reflexivity.
Qed.

End Facts.

End ColumnsFacts.

(** ** Witnesses of the further properties *)

Lemma records_where_read_where_witness :
  Select.records_where nat sel_rows sel_tokenize (fun s => Some s) Condition.join_tokens
    sel_select (Some "pga"%string) (Some 1%Z) =
  Select.read_where nat sel_tokenize (fun s => Some s) Condition.join_tokens sel_select
    "pga"%string (Some 1%Z) /\
  Select.read_where nat sel_tokenize (fun s => Some s) Condition.join_tokens sel_select
    "pga"%string (Some 1%Z) = inr [2%nat].
Proof.
  split; [|reflexivity].
  apply (SelectFacts.records_where_read_where nat sel_rows sel_tokenize (fun s => Some s)
           Condition.join_tokens sel_select "pga"%string (Some 1%Z)).
  - discriminate.
  - intros l H. injection H as <-. lia.
Defined.

Lemma records_where_negative_limit_witness :
  Select.records_where nat sel_rows sel_tokenize (fun s => Some s) Condition.join_tokens
    sel_select (Some "pga"%string) (Some (-1)%Z) = inr [] /\
  Select.read_where nat sel_tokenize (fun s => Some s) Condition.join_tokens sel_select
    "pga"%string (Some (-1)%Z) = inr (firstn (2 - 1) [2; 4]%nat).
Proof.
  apply (SelectFacts.records_where_negative_limit nat sel_rows sel_tokenize (fun s => Some s)
           Condition.join_tokens sel_select "pga"%string (-1)%Z [2; 4]%nat).
  - discriminate.
  - lia.
  - reflexivity.
Defined.

Lemma records_where_no_condition_witness :
  Select.records_where nat sel_rows sel_tokenize (fun s => Some s) Condition.join_tokens
    sel_select (Some ""%string) (Some 2%Z) = inr [1; 2]%nat.
Proof.
  apply (SelectFacts.records_where_no_condition nat sel_rows sel_tokenize (fun s => Some s)
           Condition.join_tokens sel_select (Some ""%string) (Some 2%Z)).
  right. reflexivity.
Defined.

Lemma writerow_absent_column_witness :
  exists tr miss oob,
    Writer._writerow float_cast Writer.gm_columns lat_row "esm" = inr (tr, miss, oob) /\
    count_occ string_dec miss "pga"%string = 1%nat /\ ~ In "pga"%string oob /\
    Writer.lookup "pga" tr = Some (Writer.CFloat nan).
Proof.
  destruct (Writer._writerow float_cast Writer.gm_columns lat_row "esm")
    as [e|[[tr miss] oob]] eqn:E; [vm_compute in E; discriminate E|].
  exists tr, miss, oob. split; [reflexivity|].
  destruct (WriterMore.writerow_absent_column float_cast Writer.gm_columns lat_row "esm"
              tr miss oob "pga" Writer.fcol WriterFacts.gm_columns_nodup
              ltac:(vm_compute; tauto) eq_refl E) as (H1 & H2 & H3).
  split; [exact H1|]. split; [exact H2|].
  apply H3; discriminate.
Defined.

Lemma writerow_ids_consistent_witness :
  exists tr miss oob evid staid recid,
    Writer._writerow float_cast Writer.gm_columns lat_row "esm" = inr (tr, miss, oob) /\
    Ids.get_ids (Writer.idrow_of tr) "esm" = Some (evid, staid, recid) /\
    Writer.lookup "record_id" tr = Some (Writer.CBytes (Writer.string_of_bytes recid)).
Proof.
  destruct (Writer._writerow float_cast Writer.gm_columns lat_row "esm")
    as [e|[[tr miss] oob]] eqn:E; [vm_compute in E; discriminate E|].
  destruct (WriterMore.writerow_ids_consistent float_cast lat_row "esm" tr miss oob E)
    as (evid & staid & recid & H1 & _ & _ & H4).
  exists tr, miss, oob, evid, staid, recid. split; [reflexivity|]. split; assumption.
Defined.

Lemma writerow_nan_in_bounds_witness :
  exists tr miss oob,
    Writer._writerow float_cast Writer.gm_columns nan_row "esm" = inr (tr, miss, oob) /\
    Writer.lookup "pga" tr = Some (Writer.CFloat nan) /\
    ~ In "pga"%string oob /\ ~ In "pga"%string miss.
Proof.
  destruct (Writer._writerow float_cast Writer.gm_columns nan_row "esm")
    as [e|[[tr miss] oob]] eqn:E; [vm_compute in E; discriminate E|].
  exists tr, miss, oob. split; [reflexivity|].
  apply (WriterMore.writerow_nan_in_bounds float_cast Writer.gm_columns nan_row "esm"
           tr miss oob "pga" Writer.fcol (Writer.PFloat nan) WriterFacts.gm_columns_nodup
           ltac:(vm_compute; tauto)); try discriminate; [reflexivity | reflexivity | exact E].
Defined.

Lemma writerow_reports_once_witness :
  exists tr miss oob,
    Writer._writerow float_cast Writer.gm_columns lat_row "esm" = inr (tr, miss, oob) /\
    NoDup (miss ++ oob) /\ incl (miss ++ oob) (map fst Writer.gm_columns).
Proof.
  destruct (Writer._writerow float_cast Writer.gm_columns lat_row "esm")
    as [e|[[tr miss] oob]] eqn:E; [vm_compute in E; discriminate E|].
  exists tr, miss, oob. split; [reflexivity|].
  exact (WriterMore.writerow_reports_once float_cast Writer.gm_columns lat_row "esm"
           tr miss oob WriterFacts.gm_columns_nodup E).
Defined.

Lemma parse_counts_witness :
  exists st recs,
    Driver.parse nat nat sample_writer sample_rows None = inr (st, recs) /\
    CounterFacts.count_of (Driver.missing_values st) "pga" = 2%nat.
Proof.
  destruct (Driver.parse nat nat sample_writer sample_rows None) as [e|[st recs]] eqn:E;
    [vm_compute in E; discriminate E|].
  exists st, recs. split; [reflexivity|].
  rewrite (proj1 (CounterFacts.parse_counts nat nat sample_writer sample_rows None st recs E
                    "pga")).
  reflexivity.
Defined.

Lemma parse_gm_column_counts_witness :
  exists st recs,
    Driver.parse (list (string * Writer.pyval)) Writer.tablerow
      (fun x => Writer._writerow float_cast Writer.gm_columns x "esm")
      [Some lat_row; None; Some lat_row] None = inr (st, recs) /\
    CounterFacts.count_of (Driver.missing_values st) "pga" = Z.to_nat (Driver.written st).
Proof.
  destruct (Driver.parse (list (string * Writer.pyval)) Writer.tablerow
      (fun x => Writer._writerow float_cast Writer.gm_columns x "esm")
      [Some lat_row; None; Some lat_row] None) as [e|[st recs]] eqn:E;
    [vm_compute in E; discriminate E|].
  exists st, recs. split; [reflexivity|].
  apply (proj2 (ParseWriterFacts.parse_gm_column_counts (list (string * Writer.pyval))
                  float_cast (fun x => x) "esm" _ None st recs E "pga")).
  - vm_compute. tauto.
  - intros r Hr. simpl in Hr. destruct Hr as [<-|[<-|[]]]; reflexivity.
Defined.

Lemma get_pga_column_result_witness :
  Columns._get_pga_column pga_fields = inr ("Pga", "Acceleration_Unit")%string /\
  Columns.strip (Columns.lower "Pga") = "pga"%string /\
  Columns.strip (Columns.lower "Acceleration_Unit") = "acceleration_unit"%string.
Proof.
  assert (E : Columns._get_pga_column pga_fields = inr ("Pga", "Acceleration_Unit")%string)
    by reflexivity.
  split; [exact E|].
  destruct (ColumnsFacts.get_pga_column_result _ _ _ E) as (_ & [(H1 & _)|(H1 & _ & H3)]).
  - discriminate H1.
  - split; assumption.
Defined.

Lemma rows_pga_outcome_witness :
  exists e, Columns.rows_pga sample_py_float pga_row "Pga" "Acceleration_Unit" = inl e.
Proof.
  apply (proj2 (proj2 (ColumnsFacts.rows_pga_outcome sample_py_float pga_fields "Pga"
                         "Acceleration_Unit" pga_row eq_refl))).
  - discriminate.
  - reflexivity.
Defined.

Lemma get_event_time_six_witness :
  Columns._get_event_time sample_py_int evtime_row
    [Some "year"; Some "month"; Some "day"; Some "hour"; Some "minute"; Some "second"]%string =
  inr (DTime.strftime_iso (DTime.mkdt 2009 4 6 1 32 0)) /\
  DTime.strftime_iso (DTime.mkdt 2009 4 6 1 32 0) = "2009-04-06T01:32:00"%string.
Proof.
  split; [|reflexivity].
  apply (ColumnsFacts.get_event_time_six sample_py_int evtime_row "year" "month" "day"
           (Some "hour"%string) (Some "minute"%string) (Some "second"%string)
           "2009" "4" "6" 2009 4 6 1 32 0); try reflexivity.
  - right. exists "1"%string. split; reflexivity.
  - right. exists "32"%string. split; reflexivity.
  - left. split; reflexivity.
  - lia.
  - lia.
  - change (DTime.days_in_month 2009 4) with 30%Z. lia.
  - lia.
  - lia.
  - lia.
Defined.

Lemma get_event_time_long_row_witness :
  Columns._get_event_time sample_py_int evtime_long_row
    [Some "year"; Some "month"; Some "day"; None; None; None]%string = inl TypeError.
Proof.
  apply (ColumnsFacts.get_event_time_long_row sample_py_int evtime_long_row "year" "month"
           "day" None None "2009" "4" "6" 2009 4 6 ["7"%string]); reflexivity.
Defined.
